(** * TokenEditor: the inline token-insertion editor of design-qa

    A shallow embedding of [public/TokenEditor.js] and the properties of
    its normalizer, menu navigator, splice engine, atomic edit guard and
    submission serializer.

    Conventions of the embedding.
    - A JavaScript string is a [string]: a sequence of code units, each
      below 256.
    - A React state variable is a field of [EditorState]; a handler is a
      function from the state before the event to the state after it.
    - The children of the editor element are text nodes and token tags,
      the two kinds of node the component creates.  A reference to a child
      (the selection's container, [slashPosition.node]) is the index of
      that child; when a sibling before it is removed the index follows
      the node.
    - An object literal used as a dictionary ([groupMap], [subgroups]) is
      an association list of its own properties, in insertion order.  A
      key that names a property inherited from [Object.prototype] makes
      [groupTokens] raise; [groupTokens] is the list the function returns
      and [groupTokensRaises] tells when it raises instead.
    - [String.prototype.toLowerCase], [String.prototype.localeCompare]
      and the [innerHTML] serialization belong to the platform and are
      parameters.
    - An [Input] event carries the document as the browser left it; the
      node of [slashPosition] is taken to be where it was, as it is when
      the user types into the text node of the trigger. *)

From Stdlib Require Import String Ascii List ZArith NArith Arith Bool Lia.
From Stdlib Require Import Sorting.Sorted Sorting.Permutation.
Import ListNotations.

Local Open Scope string_scope.
Local Open Scope list_scope.
Local Open Scope nat_scope.

(* ================================================================== *)
(** * JavaScript string and array primitives *)
(* ================================================================== *)

Module Js.

(** [s.split(sep)] for a one-character separator: never empty. *)
Fixpoint split (sep : ascii) (s : string) : list string :=
  match s with
  | EmptyString => [EmptyString]
  | String c rest =>
      if Ascii.eqb c sep then EmptyString :: split sep rest
      else match split sep rest with
           | [] => [String c EmptyString]
           | h :: t => String c h :: t
           end
  end.

(** [s.substring(a, b)]: both ends clamped to the length, swapped when
    [a > b]. *)
Definition substring (s : string) (a b : nat) : string :=
  let len := String.length s in
  let a' := Nat.min a len in
  let b' := Nat.min b len in
  String.substring (Nat.min a' b') (Nat.max a' b' - Nat.min a' b') s.

(** [s.substring(a)]. *)
Definition substringFrom (s : string) (a : nat) : string :=
  substring s a (String.length s).

(** [s.includes(sub)]. *)
Fixpoint includes (s sub : string) : bool :=
  String.prefix sub s ||
  match s with
  | EmptyString => false
  | String _ rest => includes rest sub
  end.

(** [s.toLowerCase()] is the Unicode case mapping of the platform.  It
    is not a map of single code units (the lower case of a capital sigma
    depends on the letters around it), so it is a parameter, with the two
    facts about it that the properties below rely on: the empty string
    has no letter to map, and a lower-cased string has none left. *)
Class CaseMapping := {
  toLowerCase : string -> string;
  toLowerCase_empty : toLowerCase "" = "";
  toLowerCase_twice :
    forall s : string, toLowerCase (toLowerCase s) = toLowerCase s
}.

(** White space and line terminators among the first 256 code units. *)
Definition isWhiteSpace (c : ascii) : bool :=
  let n := nat_of_ascii c in
  ((9 <=? n) && (n <=? 13)) || (n =? 32) || (n =? 160).

Fixpoint trimStart (s : string) : string :=
  match s with
  | EmptyString => EmptyString
  | String c rest => if isWhiteSpace c then trimStart rest else s
  end.

Fixpoint trimEnd (s : string) : string :=
  match s with
  | EmptyString => EmptyString
  | String c rest =>
      match trimEnd rest with
      | EmptyString => if isWhiteSpace c then EmptyString
                       else String c EmptyString
      | r => String c r
      end
  end.

(** [s.trim()]. *)
Definition trim (s : string) : string := trimEnd (trimStart s).

(** Truthiness of a possibly undefined string. *)
Definition truthy (o : option string) : bool :=
  match o with
  | Some s => negb (s =? "")%string
  | None => false
  end.

(** [a || b] on possibly undefined strings. *)
Definition or (a b : option string) : option string :=
  if truthy a then a else b.

(** [a || d] where [d] is a string. *)
Definition orElse (a : option string) (d : string) : string :=
  match a with
  | Some s => if (s =? "")%string then d else s
  | None => d
  end.

(** [c === d] for a possibly undefined character [c]. *)
Definition charIs (c : option ascii) (d : ascii) : bool :=
  match c with
  | Some x => Ascii.eqb x d
  | None => false
  end.

(** [String(a)] *)
Definition toString (a : option string) : string :=
  match a with
  | Some s => s
  | None => "undefined"
  end.

(** [l[i]] for a number [i] that may be negative. *)
Definition at_ {A} (l : list A) (i : Z) : option A :=
  if (i <? 0)%Z then None else nth_error l (Z.to_nat i).

(** [parts.join(sep)]. *)
Definition join (sep : string) (parts : list string) : string :=
  String.concat sep parts.

(** A stable sort driven by a comparator, as [Array.prototype.sort] is
    for a consistent comparator: [x] goes after [y] only when
    [cmp x y > 0]. *)
Section Sort.
Context {A : Type} (cmp : A -> A -> Z).

Fixpoint insertSorted (x : A) (l : list A) : list A :=
  match l with
  | [] => [x]
  | y :: r => if (0 <? cmp x y)%Z then y :: insertSorted x r
              else x :: y :: r
  end.

Definition sort (l : list A) : list A := fold_right insertSorted [] l.
End Sort.

(** The comparison of [sort()] without a comparator: by code units. *)
Definition defaultCompare (a b : string) : Z :=
  match String.compare a b with
  | Lt => (-1)%Z
  | Eq => 0%Z
  | Gt => 1%Z
  end.

(** ** Objects used as dictionaries *)

Definition Obj (V : Type) := list (string * V).

Fixpoint getProp {V} (o : Obj V) (k : string) : option V :=
  match o with
  | [] => None
  | (k', v) :: r => if (k' =? k)%string then Some v else getProp r k
  end.

(** [o[k] = v]: an existing property keeps its place, a new one goes
    last. *)
Fixpoint setProp {V} (o : Obj V) (k : string) (v : V) : Obj V :=
  match o with
  | [] => [(k, v)]
  | (k', v') :: r =>
      if (k' =? k)%string then (k', v) :: r else (k', v') :: setProp r k v
  end.

(** The properties an object literal inherits from [Object.prototype]
    (ECMAScript 2023, 20.1.3 and B.2.2.1): built-in functions, and under
    [__proto__] the prototype object itself.  All of them are truthy. *)
Definition objectPrototype : list string :=
  ["constructor"; "hasOwnProperty"; "isPrototypeOf"; "propertyIsEnumerable";
   "toLocaleString"; "toString"; "valueOf"; "__proto__";
   "__defineGetter__"; "__defineSetter__"; "__lookupGetter__";
   "__lookupSetter__"].

Definition inherited (k : string) : bool :=
  existsb (String.eqb k) objectPrototype.

(** What reading [o[k]] finds: an own property, else a built-in of the
    prototype, else [undefined]. *)
Inductive Lookup (V : Type) :=
| Own (v : V)
| Builtin
| Undefined.

Arguments Own {V} v.
Arguments Builtin {V}.
Arguments Undefined {V}.

Definition lookup {V} (o : Obj V) (k : string) : Lookup V :=
  match getProp o k with
  | Some v => Own v
  | None => if inherited k then Builtin else Undefined
  end.

Definition isDigit (c : ascii) : bool :=
  let n := nat_of_ascii c in (48 <=? n) && (n <=? 57).

Fixpoint digitsValue (acc : N) (s : string) : option N :=
  match s with
  | EmptyString => Some acc
  | String c rest =>
      if isDigit c
      then digitsValue (acc * 10 + N.of_nat (nat_of_ascii c - 48)) rest
      else None
  end.

(** The array index a key denotes, if it is a canonical one. *)
Definition arrayIndex (k : string) : option N :=
  match k with
  | EmptyString => None
  | String c rest =>
      if (Ascii.eqb c "0") && negb (rest =? "")%string then None
      else match digitsValue 0 k with
           | Some n => if (n <? 4294967295)%N then Some n else None
           | None => None
           end
  end.

Definition indexCompare (a b : string) : Z :=
  match arrayIndex a, arrayIndex b with
  | Some x, Some y => (Z.of_N x - Z.of_N y)%Z
  | _, _ => 0%Z
  end.

Definition isIndexKey (k : string) : bool :=
  match arrayIndex k with Some _ => true | None => false end.

(** [Object.keys(o)]: array indices ascending, then the other keys in
    insertion order. *)
Definition keys {V} (o : Obj V) : list string :=
  let ks := map fst o in
  sort indexCompare (filter isIndexKey ks)
    ++ filter (fun k => negb (isIndexKey k)) ks.

End Js.

(* ================================================================== *)
(** * Token catalog normalizer *)
(* ================================================================== *)

(** A token of the catalog.  A numeric field is held by its decimal
    rendering; an absent field, or a zero, is [None]. *)
Module Token.
Record t := mk {
  id : string;
  label : option string;
  name : option string;
  value : option string;
  fontFamily : option string;
  fontSize : option string;
  fontWeight : option string
}.
End Token.

Record ParsedName := mkParsed {
  groups : list string;
  displayName : string
}.

(** [token.label || token.name || ''] *)
Definition tokenLabel (t : Token.t) : string :=
  Js.orElse (Js.or (Token.label t) (Token.name t)) "".

Definition parseTokenName (token : Token.t) : ParsedName :=
  let name := tokenLabel token in
  let parts := Js.split "/" name in
  if Nat.eqb (List.length parts) 1 then
    {| groups := []; displayName := name |}
  else
    {| groups := removelast parts; displayName := last parts "" |}.

Record Subgroup := mkSubgroup {
  subgroup : option string;
  sgTokens : list Token.t
}.

(** An entry of the grouped list: [{group, subgroups}] or the trailing
    [{group: null, tokens}]. *)
Inductive GroupEntry :=
| Grouped (group : string) (subgroups : list Subgroup)
| Ungrouped (tokens : list Token.t).

Definition noneKey : string := "__none__".

Definition GroupMap := Js.Obj (Js.Obj (list Token.t)).

(** The body shared by the two grouped branches of the [forEach]:
    create the group, create the bucket, push. *)
Definition pushToken (groupMap : GroupMap) (groupName subgroupName : string)
           (token : Token.t) : GroupMap :=
  let groupMap1 :=
    match Js.getProp groupMap groupName with
    | Some _ => groupMap
    | None => Js.setProp groupMap groupName []
    end in
  let subs := match Js.getProp groupMap1 groupName with
              | Some s => s
              | None => []
              end in
  let subs1 :=
    match Js.getProp subs subgroupName with
    | Some _ => subs
    | None => Js.setProp subs subgroupName []
    end in
  let bucket := match Js.getProp subs1 subgroupName with
                | Some b => b
                | None => []
                end in
  Js.setProp groupMap1 groupName
    (Js.setProp subs1 subgroupName (bucket ++ [token])).

Definition groupStep (acc : GroupMap * list Token.t) (token : Token.t)
  : GroupMap * list Token.t :=
  let '(groupMap, ungrouped) := acc in
  match groups (parseTokenName token) with
  | [] => (groupMap, ungrouped ++ [token])
  | [groupName] => (pushToken groupMap groupName noneKey token, ungrouped)
  | groupName :: subgroupName :: _ =>
      (pushToken groupMap groupName subgroupName token, ungrouped)
  end.

Section Normalizer.

Variable localeCompare : string -> string -> Z.

(** The comparator that puts [__none__] first. *)
Definition subgroupCompare (a b : string) : Z :=
  if (a =? noneKey)%string then (-1)%Z
  else if (b =? noneKey)%string then 1%Z
  else localeCompare a b.

Definition bucketOf (subs : Js.Obj (list Token.t)) (k : string)
  : list Token.t :=
  match Js.getProp subs k with
  | Some b => b
  | None => []
  end.

Definition subgroupsOf (subs : Js.Obj (list Token.t)) : list Subgroup :=
  map (fun subgroupName =>
         {| subgroup := if (subgroupName =? noneKey)%string then None
                        else Some subgroupName;
            sgTokens := bucketOf subs subgroupName |})
      (Js.sort subgroupCompare (Js.keys subs)).

Definition groupOf (groupMap : GroupMap) (k : string)
  : Js.Obj (list Token.t) :=
  match Js.getProp groupMap k with
  | Some s => s
  | None => []
  end.

Definition groupTokens (tokenList : list Token.t) : list GroupEntry :=
  let '(groupMap, ungrouped) := fold_left groupStep tokenList ([], []) in
  let result :=
    map (fun groupName =>
           Grouped groupName (subgroupsOf (groupOf groupMap groupName)))
        (Js.sort Js.defaultCompare (Js.keys groupMap)) in
  if Nat.ltb 0 (List.length ungrouped)
  then result ++ [Ungrouped ungrouped]
  else result.

End Normalizer.

(** ** When [groupTokens] raises

    [groupMap[groupName]] and [subgroups[subgroupName]] are read through
    the prototype chain.  For a name such as [constructor] the read finds
    a built-in, which is truthy, so the guard creates nothing; the
    built-in has no [subgroups] and no [push], and the statement that
    follows raises a [TypeError].  No such name ever becomes an own
    property, and [groupTokens] is the list returned when nothing
    raises. *)
Definition pushRaises (groupMap : GroupMap) (groupName subgroupName : string)
  : bool :=
  match Js.lookup groupMap groupName with
  | Js.Builtin => true
  | Js.Own subgroups =>
      match Js.lookup subgroups subgroupName with
      | Js.Builtin => true
      | _ => false
      end
  | Js.Undefined =>
      match Js.lookup ([] : Js.Obj (list Token.t)) subgroupName with
      | Js.Builtin => true
      | _ => false
      end
  end.

Definition stepRaises (acc : GroupMap * list Token.t) (token : Token.t)
  : bool :=
  match groups (parseTokenName token) with
  | [] => false
  | [groupName] => pushRaises (fst acc) groupName noneKey
  | groupName :: subgroupName :: _ =>
      pushRaises (fst acc) groupName subgroupName
  end.

(** Whether the [forEach] raises on [tokenList], started on [acc]. *)
Fixpoint forEachRaises (acc : GroupMap * list Token.t)
         (tokenList : list Token.t) : bool :=
  match tokenList with
  | [] => false
  | token :: rest =>
      stepRaises acc token || forEachRaises (groupStep acc token) rest
  end.

Definition groupTokensRaises (tokenList : list Token.t) : bool :=
  forEachRaises ([], []) tokenList.

(** The flat list used for keyboard navigation (the body of
    [flattenedTokens]). *)
Definition flatten (groupedTokens : list GroupEntry) : list Token.t :=
  flat_map (fun g =>
              match g with
              | Ungrouped tokens => tokens
              | Grouped _ subgroups => flat_map sgTokens subgroups
              end)
           groupedTokens.

(* ================================================================== *)
(** * The editor: document, state and props *)
(* ================================================================== *)

Module Category.
Record t := mk {
  id : string;
  label : string;
  color : string;
  tokens : list Token.t
}.
End Category.

(** The [span.token-tag] element built by [insertToken]. *)
Record TokenTag := mkTag {
  dataType : string;
  dataValue : string;
  title : string;
  tagColor : string;
  textContent : string
}.

Inductive Node :=
| TextNode (text : string)
| TagNode (tag : TokenTag).

(** Where a range starts: in a child of the editor, or in the editor
    element itself (the offset then counts children). *)
Inductive Container :=
| ChildNode (index : nat)
| EditorElement.

Record Range := mkRange {
  startContainer : Container;
  startOffset : nat;
  collapsed : bool
}.

(** [slashPosition]: the text node of the trigger and its offset. *)
Module Slash.
Record t := mk {
  node : nat;
  offset : nat
}.
End Slash.

Record EditorState := mkState {
  showMenu : bool;
  activeCategory : option Category.t;
  filter : string;
  selectedIndex : Z;
  slashPosition : option Slash.t;
  (** [editorRef.current.childNodes] *)
  childNodes : list Node;
  (** [window.getSelection()]: [None] when [rangeCount] is 0 *)
  selection : option Range
}.

Record TokenSet := mkTokens {
  colors : option (list Token.t);
  typography : option (list Token.t);
  spacing : option (list Token.t)
}.

Record Props := mkProps {
  tokens : TokenSet;
  hasOnSubmit : bool;
  hasOnCancel : bool;
  isLoadingTokens : bool
}.

Inductive Callback :=
| OnSubmit (text html : string)
| OnCancel.

Record KeyEvent := mkKey {
  key : string;
  metaKey : bool;
  ctrlKey : bool
}.

(** What a handler leaves behind: the state, whether [preventDefault] was
    called, the callbacks invoked, and whether it ended in an uncaught
    [TypeError]. *)
Record Outcome := mkOutcome {
  after : EditorState;
  defaultPrevented : bool;
  calls : list Callback;
  threw : bool
}.

Inductive Item :=
| CategoryItem (c : Category.t)
| TokenItem (t : Token.t).

(** ** State setters *)

Definition setShowMenu (b : bool) (st : EditorState) : EditorState :=
  mkState b (activeCategory st) (filter st) (selectedIndex st)
          (slashPosition st) (childNodes st) (selection st).

Definition setActiveCategory (c : option Category.t) (st : EditorState)
  : EditorState :=
  mkState (showMenu st) c (filter st) (selectedIndex st)
          (slashPosition st) (childNodes st) (selection st).

Definition setFilter (f : string) (st : EditorState) : EditorState :=
  mkState (showMenu st) (activeCategory st) f (selectedIndex st)
          (slashPosition st) (childNodes st) (selection st).

Definition setSelectedIndex (i : Z) (st : EditorState) : EditorState :=
  mkState (showMenu st) (activeCategory st) (filter st) i
          (slashPosition st) (childNodes st) (selection st).

Definition setSlashPosition (p : option Slash.t) (st : EditorState)
  : EditorState :=
  mkState (showMenu st) (activeCategory st) (filter st) (selectedIndex st)
          p (childNodes st) (selection st).

Definition setChildNodes (l : list Node) (st : EditorState) : EditorState :=
  mkState (showMenu st) (activeCategory st) (filter st) (selectedIndex st)
          (slashPosition st) l (selection st).

Definition setSelection (r : option Range) (st : EditorState) : EditorState :=
  mkState (showMenu st) (activeCategory st) (filter st) (selectedIndex st)
          (slashPosition st) (childNodes st) r.

Definition initialState : EditorState :=
  mkState false None "" 0%Z None [] None.

(** ** Document helpers *)

Definition isTokenTag (n : option Node) : bool :=
  match n with
  | Some (TagNode _) => true
  | _ => false
  end.

(** The text of the container when it is a text node. *)
Definition textNodeAt (l : list Node) (c : Container) : option (nat * string) :=
  match c with
  | ChildNode i =>
      match nth_error l i with
      | Some (TextNode text) => Some (i, text)
      | _ => None
      end
  | EditorElement => None
  end.

Definition removeAt {A} (j : nat) (l : list A) : list A :=
  firstn j l ++ skipn (S j) l.

(** [child.remove()] for the child at index [j]: the references held by
    the selection and by [slashPosition] follow their nodes. *)
Definition removeChildAt (j : nat) (st : EditorState) : EditorState :=
  let sel :=
    match selection st with
    | Some (mkRange (ChildNode i) o c) =>
        if j <? i then Some (mkRange (ChildNode (i - 1)) o c)
        else if j =? i then Some (mkRange EditorElement j c)
        else selection st
    | Some (mkRange EditorElement o c) =>
        if j <? o then Some (mkRange EditorElement (o - 1) c)
        else selection st
    | None => None
    end in
  let sp :=
    match slashPosition st with
    | Some (Slash.mk i o) =>
        if j <? i then Some (Slash.mk (i - 1) o) else slashPosition st
    | None => None
    end in
  setSlashPosition sp (setSelection sel (setChildNodes (removeAt j (childNodes st)) st)).

Definition nodeText (n : Node) : string :=
  match n with
  | TextNode text => text
  | TagNode tag => textContent tag
  end.

(** [editorRef.current.innerText] *)
Definition innerText (l : list Node) : string :=
  String.concat "" (map nodeText l).

(* ================================================================== *)
(** * The component *)
(* ================================================================== *)

Definition orEmptyList (o : option (list Token.t)) : list Token.t :=
  match o with
  | Some l => l
  | None => []
  end.

Definition categories (props : Props) : list Category.t :=
  [ Category.mk "colour" "Colour tokens" "#8b5cf6"
                (orEmptyList (colors (tokens props)));
    Category.mk "text" "Text tokens" "#3b82f6"
                (orEmptyList (typography (tokens props)));
    Category.mk "spacing" "Spacing tokens" "#10b981"
                (orEmptyList (spacing (tokens props))) ].

Definition matchesFilter `{casing : Js.CaseMapping} (lbl f : string) : bool :=
  Js.includes (Js.toLowerCase lbl) (Js.toLowerCase f).

Definition getFilteredTokens `{casing : Js.CaseMapping} (st : EditorState)
  : list Token.t :=
  match activeCategory st with
  | None => []
  | Some c =>
      List.filter (fun t => matchesFilter (tokenLabel t) (filter st))
                  (Category.tokens c)
  end.

Definition currentItems `{casing : Js.CaseMapping} (props : Props) (st : EditorState)
  : list Item :=
  match activeCategory st with
  | Some _ => map TokenItem (getFilteredTokens st)
  | None =>
      map CategoryItem
          (List.filter
             (fun c =>
                if Nat.eqb (List.length (Category.tokens c)) 0 then false
                else matchesFilter (Category.label c) (filter st))
             (categories props))
  end.

Section Component.

Context `{casing : Js.CaseMapping}.
Variable localeCompare : string -> string -> Z.
(** [editorRef.current.innerHTML] *)
Variable innerHTML : list Node -> string.

Definition groupedTokens (st : EditorState) : option (list GroupEntry) :=
  match activeCategory st with
  | Some _ => Some (groupTokens localeCompare (getFilteredTokens st))
  | None => None
  end.

Definition flattenedTokens (st : EditorState) : list Token.t :=
  match groupedTokens st with
  | None => []
  | Some g => flatten g
  end.

(** The grouping is part of every render inside a category: when it
    raises, the render raises and the component shows nothing. *)
Definition renderRaises (st : EditorState) : bool :=
  match activeCategory st with
  | Some _ => groupTokensRaises (getFilteredTokens st)
  | None => false
  end.

(** The list the selection index ranges over: the category rows at top
    level, the flattened grouped tokens inside a category. *)
Definition visibleItems (props : Props) (st : EditorState) : list Item :=
  match activeCategory st with
  | Some _ => map TokenItem (flattenedTokens st)
  | None => currentItems props st
  end.

Definition handleInput (st : EditorState) : EditorState :=
  match selection st with
  | None => st
  | Some range =>
      match textNodeAt (childNodes st) (startContainer range) with
      | None => st
      | Some (nodeIx, text) =>
          let offset := startOffset range in
          let charBefore :=
            match offset with
            | O => None
            | S p => String.get p text
            end in
          if Js.charIs charBefore "/" then
            setSlashPosition (Some (Slash.mk nodeIx (offset - 1)))
              (setFilter "" (setActiveCategory None (setShowMenu true st)))
          else
            match showMenu st, slashPosition st with
            | true, Some sp =>
                let textAfterSlash :=
                  Js.substring text (Slash.offset sp + 1) offset in
                if Js.includes textAfterSlash " "
                   || (offset <=? Slash.offset sp)
                then setFilter ""
                       (setActiveCategory None (setShowMenu false st))
                else setFilter textAfterSlash st
            | _, _ => st
            end
      end
  end.

(** The token read through the fields [insertToken] uses. *)
Definition asToken (item : Item) : Token.t :=
  match item with
  | TokenItem t => t
  | CategoryItem c =>
      Token.mk (Category.id c) (Some (Category.label c)) None None None
               None None
  end.

Definition valueStr (token : Token.t) (category : Category.t) : string :=
  if (Category.id category =? "colour")%string then
    Js.orElse (Token.value token) ""
  else if (Category.id category =? "text")%string then
    let fontFamily := Token.fontFamily token in
    let fontSize := Token.fontSize token in
    let fontWeight := Token.fontWeight token in
    let parts1 :=
      if Js.truthy fontFamily then [Js.toString fontFamily] else [] in
    let parts2 :=
      if Js.truthy fontSize
      then parts1 ++ [String.append (Js.toString fontSize) "px"]
      else parts1 in
    let parts3 :=
      if Js.truthy fontWeight
      then parts2 ++ [String.append "weight " (Js.toString fontWeight)]
      else parts2 in
    Js.join ", " parts3
  else if (Category.id category =? "spacing")%string then
    Js.orElse (Token.value token) ""
  else "".

Definition makeTag (token : Token.t) (category : Category.t) : TokenTag :=
  let tokenName := Js.or (Token.label token) (Token.name token) in
  {| dataType := Category.id category;
     dataValue := Js.toString tokenName;
     title := valueStr token category;
     tagColor := Category.color category;
     textContent := match tokenName with Some s => s | None => "" end |}.

(** [insertToken(token, category)]; [None] is an uncaught [TypeError],
    raised before anything was changed. *)
Definition insertToken (token : option Item) (category : option Category.t)
           (st : EditorState) : option EditorState :=
  match slashPosition st with
  | None => Some st
  | Some sp =>
      match selection st with
      | None => Some st
      | Some range =>
          match token, category, nth_error (childNodes st) (Slash.node sp) with
          | Some item, Some cat, Some (TextNode text) =>
              let cursorOffset := startOffset range in
              let before := Js.substring text 0 (Slash.offset sp) in
              let after := Js.substringFrom text cursorOffset in
              let tag := makeTag (asToken item) cat in
              let afterText := if (after =? "")%string then " " else after in
              let children' :=
                firstn (Slash.node sp) (childNodes st)
                  ++ [TextNode before; TagNode tag; TextNode afterText]
                  ++ skipn (S (Slash.node sp)) (childNodes st) in
              let newRange :=
                mkRange (ChildNode (Slash.node sp + 2))
                        (if 0 <? String.length afterText then 1 else 0)
                        true in
              Some (setSlashPosition None
                     (setActiveCategory None
                       (setShowMenu false
                         (setSelection (Some newRange)
                           (setChildNodes children' st)))))
          | _, _, _ => None
          end
      end
  end.

Definition handleSelect (item : option Item) (st : EditorState)
  : option EditorState :=
  match activeCategory st, item with
  | None, None => None
  | None, Some (CategoryItem c) =>
      Some (setFilter "" (setSelectedIndex 0 (setActiveCategory (Some c) st)))
  | _, _ => insertToken item (activeCategory st) st
  end.

(** [editorRef.current.innerHTML = '']: the children go, and a range
    that started among them collapses to the start of the editor. *)
Definition clearEditor (st : EditorState) : EditorState :=
  setSelection (option_map (fun _ => mkRange EditorElement 0 true)
                           (selection st))
    (setChildNodes [] st).

Definition handleSubmit (props : Props) (st : EditorState)
  : EditorState * list Callback :=
  let text := Js.trim (innerText (childNodes st)) in
  let html := Js.trim (innerHTML (childNodes st)) in
  if negb (text =? "")%string && hasOnSubmit props
  then (clearEditor st, [OnSubmit text html])
  else (st, []).

Definition handleCancel (props : Props) (st : EditorState)
  : EditorState * list Callback :=
  (clearEditor st, if hasOnCancel props then [OnCancel] else []).

(** The first block of [handleKeyDown]: the index of the tag that a
    Backspace with a collapsed caret right after it removes. *)
Definition tagBeforeCaret (st : EditorState) : option nat :=
  match selection st with
  | None => None
  | Some range =>
      if collapsed range then
        let offset := startOffset range in
        let children := childNodes st in
        match startContainer range with
        | ChildNode i =>
            match nth_error children i, offset, i with
            | Some (TextNode _), O, S j =>
                if isTokenTag (nth_error children j) then Some j else None
            | _, _, _ => None
            end
        | EditorElement =>
            match offset with
            | S j =>
                if isTokenTag (nth_error children j) then Some j
                else if isTokenTag (nth_error children j) then Some j
                else None
            | O => None
            end
        end
      else None
  end.

Definition passThrough (st : EditorState) : Outcome :=
  mkOutcome st false [] false.

Definition consumed (st : EditorState) : Outcome :=
  mkOutcome st true [] false.

Definition ofSelect (st : EditorState) (r : option EditorState) : Outcome :=
  match r with
  | Some st' => mkOutcome st' true [] false
  | None => mkOutcome st true [] true
  end.

Definition handleKeyDown (props : Props) (e : KeyEvent) (st : EditorState)
  : Outcome :=
  match (if (key e =? "Backspace")%string && negb (showMenu st)
         then tagBeforeCaret st else None) with
  | Some j => consumed (removeChildAt j st)
  | None =>
      if negb (showMenu st) then
        if (key e =? "Enter")%string && (metaKey e || ctrlKey e)
        then let '(st', cs) := handleSubmit props st in
             mkOutcome st' true cs false
        else passThrough st
      else
        let itemCount :=
          Z.of_nat (match activeCategory st with
                    | Some _ => List.length (flattenedTokens st)
                    | None => List.length (currentItems props st)
                    end) in
        if (key e =? "ArrowDown")%string then
          let prev := selectedIndex st in
          consumed (setSelectedIndex
                      (if (prev <? itemCount - 1)%Z then (prev + 1)%Z else 0%Z)
                      st)
        else if (key e =? "ArrowUp")%string then
          let prev := selectedIndex st in
          consumed (setSelectedIndex
                      (if (0 <? prev)%Z then (prev - 1)%Z
                       else (itemCount - 1)%Z)
                      st)
        else if (key e =? "Enter")%string && (0 <? itemCount)%Z then
          match activeCategory st with
          | Some _ =>
              ofSelect st
                (handleSelect
                   (option_map TokenItem
                      (Js.at_ (flattenedTokens st) (selectedIndex st)))
                   st)
          | None =>
              ofSelect st
                (handleSelect
                   (Js.at_ (currentItems props st) (selectedIndex st)) st)
          end
        else if (key e =? "Escape")%string then
          match activeCategory st with
          | Some _ =>
              consumed (setFilter ""
                         (setSelectedIndex 0 (setActiveCategory None st)))
          | None => consumed (setShowMenu false st)
          end
        else if (key e =? "Backspace")%string
                && match activeCategory st with Some _ => true | None => false end
                && (filter st =? "")%string then
          consumed (setSelectedIndex 0 (setActiveCategory None st))
        else passThrough st
  end.

End Component.

(* ================================================================== *)
(** * Rendering of the grouped list *)
(* ================================================================== *)

Inductive Element :=
| TokenRow (token : Token.t) (flatIndex : nat) (isSelected : bool)
           (shownName : string)
| GroupTitle (group : string)
| SubgroupTitle (group subgroup : string)
| NullElement.

(** [renderTokenItem(token, flatIndex)] inside the category [cat]; the
    three branches differ in the decoration of the row only. *)
Definition renderTokenItem (cat : Category.t) (selectedIndex : Z)
           (token : Token.t) (flatIndex : nat) : Element :=
  let isSelected := (Z.of_nat flatIndex =? selectedIndex)%Z in
  let shown := displayName (parseTokenName token) in
  if (Category.id cat =? "colour")%string then
    TokenRow token flatIndex isSelected shown
  else if (Category.id cat =? "text")%string then
    TokenRow token flatIndex isSelected shown
  else if (Category.id cat =? "spacing")%string then
    TokenRow token flatIndex isSelected shown
  else NullElement.

Definition RenderAcc : Type := list Element * nat.

(** [tokens.forEach(token => { elements.push(...); flatIndex++ })] *)
Definition renderTokens (cat : Category.t) (selectedIndex : Z)
           (tokens : list Token.t) (acc : RenderAcc) : RenderAcc :=
  fold_left
    (fun (a : RenderAcc) token =>
       (fst a ++ [renderTokenItem cat selectedIndex token (snd a)],
        S (snd a)))
    tokens acc.

Definition renderSubgroup (cat : Category.t) (selectedIndex : Z)
           (group : string) (acc : RenderAcc) (sg : Subgroup) : RenderAcc :=
  let acc1 :=
    if Js.truthy (subgroup sg)
    then (fst acc ++ [SubgroupTitle group (Js.toString (subgroup sg))],
          snd acc)
    else acc in
  renderTokens cat selectedIndex (sgTokens sg) acc1.

Definition renderGroup (cat : Category.t) (selectedIndex : Z)
           (acc : RenderAcc) (g : GroupEntry) : RenderAcc :=
  match g with
  | Ungrouped tokens => renderTokens cat selectedIndex tokens acc
  | Grouped group subgroups =>
      fold_left (renderSubgroup cat selectedIndex group) subgroups
                (fst acc ++ [GroupTitle group], snd acc)
  end.

(** [renderGroupedTokens()] for a non-null [groupedTokens]. *)
Definition renderGroupedTokens (cat : Category.t) (selectedIndex : Z)
           (groupedTokens : list GroupEntry) : list Element :=
  fst (fold_left (renderGroup cat selectedIndex) groupedTokens ([], 0)).

(** The token rows of a rendered list, in document order. *)
Fixpoint tokenRows (els : list Element) : list (Token.t * nat * bool) :=
  match els with
  | [] => []
  | TokenRow t i b _ :: r => (t, i, b) :: tokenRows r
  | _ :: r => tokenRows r
  end.

(** The flat list with the index of each entry, starting from [start]. *)
Fixpoint indexed (start : nat) (selectedIndex : Z) (l : list Token.t)
  : list (Token.t * nat * bool) :=
  match l with
  | [] => []
  | t :: r => (t, start, (Z.of_nat start =? selectedIndex)%Z)
                :: indexed (S start) selectedIndex r
  end.

(* ================================================================== *)
(** * The dropdown *)
(* ================================================================== *)

(** A row of the top-level list: key, highlight, dot colour, label and
    token count. *)
Record CategoryRow := mkCategoryRow {
  rowKey : string;
  rowSelected : bool;
  rowColor : string;
  rowLabel : string;
  rowCount : nat
}.

(** [renderCategoryItem(item, index)]; [None] when [item] has no [tokens]
    array, where [item.tokens.length] raises. *)
Definition renderCategoryItem (selectedIndex : Z) (item : Item) (index : nat)
  : option CategoryRow :=
  match item with
  | CategoryItem c =>
      Some {| rowKey := Category.id c;
              rowSelected := (Z.of_nat index =? selectedIndex)%Z;
              rowColor := Category.color c;
              rowLabel := Category.label c;
              rowCount := List.length (Category.tokens c) |}
  | TokenItem _ => None
  end.

(** [items.map((item, index) => renderCategoryItem(item, index))] *)
Fixpoint mapIndexed {A B} (f : A -> nat -> B) (start : nat) (l : list A)
  : list B :=
  match l with
  | [] => []
  | x :: r => f x start :: mapIndexed f (S start) r
  end.

(** The children of the [token-dropdown] element, those that are not
    [false] or [null]. *)
Inductive DropdownChild :=
| DropdownHeader (title color : string)
| TokenLoading (message : string)
| TokenEmpty (message : string)
| CategoryRows (rows : list (option CategoryRow))
| GroupedRows (elements : list Element).

Section Dropdown.

Context `{casing : Js.CaseMapping}.
Variable localeCompare : string -> string -> Z.

(** The dropdown of the returned element, for a render that does not
    raise; [None] when [showMenu] is false and nothing is rendered in its
    place. *)
Definition dropdown (props : Props) (st : EditorState)
  : option (list DropdownChild) :=
  if showMenu st then
    let items := currentItems props st in
    let flat := flattenedTokens localeCompare st in
    let noItems := Nat.eqb (List.length items) 0 in
    let noFlat := Nat.eqb (List.length flat) 0 in
    Some
      ((match activeCategory st with
        | Some c => [DropdownHeader (Category.label c) (Category.color c)]
        | None => []
        end)
       ++ (match activeCategory st with
           | None =>
               if isLoadingTokens props && noItems
               then [TokenLoading "Loading tokens from Figma..."]
               else []
           | Some _ => []
           end)
       ++ (match activeCategory st with
           | None =>
               if negb (isLoadingTokens props) && noItems
               then [TokenEmpty "No tokens available. Connect a Figma file to load design tokens."]
               else []
           | Some _ => []
           end)
       ++ (match activeCategory st with
           | Some _ =>
               if isLoadingTokens props && noFlat
               then [TokenLoading "Loading..."]
               else []
           | None => []
           end)
       ++ (match activeCategory st with
           | None =>
               if Nat.ltb 0 (List.length items)
               then [CategoryRows
                       (mapIndexed (renderCategoryItem (selectedIndex st))
                                   0 items)]
               else []
           | Some c =>
               if Nat.ltb 0 (List.length flat)
               then match groupedTokens localeCompare st with
                    | Some g =>
                        [GroupedRows
                           (renderGroupedTokens c (selectedIndex st) g)]
                    | None => []
                    end
               else []
           end))
  else None.

End Dropdown.

(* ================================================================== *)
(** * Events and the effect on [filter] and [activeCategory] *)
(* ================================================================== *)

Definition Token_eq_dec (a b : Token.t) : {a = b} + {a <> b}.
Proof. repeat decide equality. Defined.

Definition Category_eq_dec (a b : Category.t) : {a = b} + {a <> b}.
Proof. decide equality; try apply string_dec. apply (list_eq_dec Token_eq_dec). Defined.

Definition sameCategory (a b : option Category.t) : bool :=
  match a, b with
  | None, None => true
  | Some x, Some y => if Category_eq_dec x y then true else false
  | _, _ => false
  end.

(** Whether the dependencies [filter, activeCategory] of the effect
    differ between two renders. *)
Definition depsChanged (old new : EditorState) : bool :=
  negb (filter old =? filter new)%string
  || negb (sameCategory (activeCategory old) (activeCategory new)).

(** [useEffect(() => setSelectedIndex(0), [filter, activeCategory])]: the
    effect of a render runs before the next event is handled, so an event
    is a handler followed by this reset.  The category objects are
    compared by content; a handler never replaces one category by
    another in one step. *)
Definition commit (old new : EditorState) : EditorState :=
  if depsChanged old new then setSelectedIndex 0 new else new.

Inductive Event :=
| Input (children : list Node) (sel : option Range)
| SelectionChange (sel : option Range)
| KeyDown (e : KeyEvent)
| ClickItem (index : nat)
| MouseEnterItem (index : nat)
| ClickBack
| ClickSubmit
| ClickCancel.

Definition orSame (st : EditorState) (r : option EditorState) : EditorState :=
  match r with
  | Some st' => st'
  | None => st
  end.

Section Events.

Context `{casing : Js.CaseMapping}.
Variable localeCompare : string -> string -> Z.
Variable innerHTML : list Node -> string.
Variable props : Props.

(** The handler an event runs.  [Input] carries the document as the
    browser left it before firing the event. *)
Definition handle (ev : Event) (st : EditorState) : EditorState :=
  match ev with
  | Input children sel =>
      handleInput (setSelection sel (setChildNodes children st))
  | SelectionChange sel => setSelection sel st
  | KeyDown e => after (handleKeyDown localeCompare innerHTML props e st)
  | ClickItem index =>
      if showMenu st then
        match nth_error (visibleItems localeCompare props st) index with
        | Some item => orSame st (handleSelect (Some item) st)
        | None => st
        end
      else st
  | MouseEnterItem index =>
      if showMenu st
         && (index <? List.length (visibleItems localeCompare props st))
      then setSelectedIndex (Z.of_nat index) st
      else st
  | ClickBack =>
      match showMenu st, activeCategory st with
      | true, Some _ =>
          setFilter "" (setSelectedIndex 0 (setActiveCategory None st))
      | _, _ => st
      end
  | ClickSubmit => fst (handleSubmit innerHTML props st)
  | ClickCancel => fst (handleCancel props st)
  end.

(** One event: the handler, then the render and its effect. *)
Definition dispatch (st : EditorState) (ev : Event) : EditorState :=
  commit st (handle ev st).

Definition run (evs : list Event) (st : EditorState) : EditorState :=
  fold_left dispatch evs st.

(** [selectedIndex] points into the visible list. *)
Definition validIndex (st : EditorState) : Prop :=
  visibleItems localeCompare props st <> [] ->
  (0 <= selectedIndex st
   < Z.of_nat (List.length (visibleItems localeCompare props st)))%Z.

End Events.

(* ================================================================== *)
(** * The browser's default editing, for scenarios *)
(* ================================================================== *)

Fixpoint insertChar (c : ascii) (n : nat) (s : string) : string :=
  match n, s with
  | O, _ => String c s
  | S p, EmptyString => String c EmptyString
  | S p, String d r => String d (insertChar c p r)
  end.

Fixpoint replaceAt {A} (i : nat) (x : A) (l : list A) : list A :=
  match i, l with
  | _, [] => []
  | O, _ :: r => x :: r
  | S p, y :: r => y :: replaceAt p x r
  end.

(** Typing a character with a collapsed caret: it goes into the text node
    at the caret (a first text node is created in an empty editor), the
    caret moves past it. *)
Definition typeChar (c : ascii) (st : EditorState) : EditorState :=
  match selection st with
  | Some (mkRange (ChildNode i) o true) =>
      match nth_error (childNodes st) i with
      | Some (TextNode text) =>
          setSelection (Some (mkRange (ChildNode i) (S o) true))
            (setChildNodes
               (replaceAt i (TextNode (insertChar c o text)) (childNodes st))
               st)
      | _ => st
      end
  | Some (mkRange EditorElement 0 true) =>
      match childNodes st with
      | [] => setSelection (Some (mkRange (ChildNode 0) 1 true))
                (setChildNodes [TextNode (String c EmptyString)] st)
      | _ => st
      end
  | _ => st
  end.

(* ================================================================== *)
(** * Vocabulary of the properties *)
(* ================================================================== *)

(** The caret is directly after the child at index [j]. *)
Definition caretRightAfter (j : nat) (r : Range) : Prop :=
  (startContainer r = ChildNode (S j) /\ startOffset r = 0)
  \/ (startContainer r = EditorElement /\ startOffset r = S j).

(** [lbl] contains [f] as a substring, letter case aside. *)
Definition containsIgnoringCase `{casing : Js.CaseMapping} (lbl f : string) : Prop :=
  exists pre post : string,
    Js.toLowerCase lbl
    = String.append pre (String.append (Js.toLowerCase f) post).

(** [z] is a valid index into the list visible in [st]. *)
Definition indexFits `{casing : Js.CaseMapping} (lc : string -> string -> Z)
           (props : Props) (st : EditorState) (z : Z) : Prop :=
  visibleItems lc props st <> [] ->
  (0 <= z < Z.of_nat (List.length (visibleItems lc props st)))%Z.

(** The values of a dictionary, each expanded by [f], in the order of
    insertion of their keys. *)
Definition expand {V B : Type} (f : V -> list B) (o : Js.Obj V) : list B :=
  flat_map (fun kv => f (snd kv)) o.

(** All the tokens held by a group map. *)
Definition heldTokens (groupMap : GroupMap) : list Token.t :=
  expand (expand (fun bucket : list Token.t => bucket)) groupMap.

(** Keys are unique at both levels of a group map. *)
Definition uniqueKeys (groupMap : GroupMap) : Prop :=
  NoDup (map fst groupMap)
  /\ forall g subs, In (g, subs) groupMap -> NoDup (map fst subs).

(** The dictionary keys [groupStep] files a token under: group and
    subgroup, the latter [__none__] for a one-segment path; [None] for a
    name without separator. *)
Definition slot (t : Token.t) : option (string * string) :=
  match groups (parseTokenName t) with
  | [] => None
  | [g] => Some (g, noneKey)
  | g :: sg :: _ => Some (g, sg)
  end.

Definition inSlot (g sg : string) (t : Token.t) : bool :=
  match slot t with
  | Some (g', sg') => (g' =? g)%string && (sg' =? sg)%string
  | None => false
  end.

Definition isUngrouped (t : Token.t) : bool :=
  match slot t with
  | None => true
  | Some _ => false
  end.

(** One of the keys of the token names a property of [Object.prototype]. *)
Definition hitsPrototype (t : Token.t) : bool :=
  match slot t with
  | None => false
  | Some (g, sg) => Js.inherited g || Js.inherited sg
  end.

(** The bucket of a group map under two keys, empty when absent. *)
Definition bucket (groupMap : GroupMap) (g sg : string) : list Token.t :=
  bucketOf (groupOf groupMap g) sg.

(** Every token of a group map is filed under its own keys, and none of
    them names a property of [Object.prototype]. *)
Definition plainMap (groupMap : GroupMap) : Prop :=
  forall g sg t,
    In t (bucket groupMap g sg) ->
    slot t = Some (g, sg) /\ hitsPrototype t = false.

(** The key a subgroup label stands for. *)
Definition keyOfLabel (l : option string) : string :=
  match l with
  | None => noneKey
  | Some s => s
  end.

Definition isGrouped (e : GroupEntry) : Prop :=
  match e with
  | Grouped _ _ => True
  | Ungrouped _ => False
  end.

Definition entryName (e : GroupEntry) : string :=
  match e with
  | Grouped g _ => g
  | Ungrouped _ => ""
  end.

(** No labelled subgroup comes before the unlabelled one. *)
Definition noneFirst (sgs : list Subgroup) : Prop :=
  match sgs with
  | [] => True
  | _ :: rest => Forall (fun s => subgroup s <> None) rest
  end.

(** The category is one of the three the component declares. *)
Definition knownCategory (cat : Category.t) : Prop :=
  In (Category.id cat) ["colour"; "text"; "spacing"].

Definition backspace : KeyEvent := mkKey "Backspace" false false.
Definition arrowDown : KeyEvent := mkKey "ArrowDown" false false.
Definition arrowUp : KeyEvent := mkKey "ArrowUp" false false.
Definition escape : KeyEvent := mkKey "Escape" false false.

Definition tk (n : string) : Token.t :=
  Token.mk n None (Some n) None None None None.

(** The text nodes of a document, in order. *)
Fixpoint textNodes (l : list Node) : list string :=
  match l with
  | [] => []
  | TextNode text :: r => text :: textNodes r
  | TagNode _ :: r => textNodes r
  end.

(** The highlighted rows among the token rows of a rendered list. *)
Definition highlighted (rows : list (Token.t * nat * bool)) : list Token.t :=
  map (fun r => fst (fst r)) (List.filter (fun r => snd r) rows).

(** The highlighted rows of a top-level list. *)
Definition highlightedRows (rows : list (option CategoryRow))
  : list CategoryRow :=
  flat_map (fun r => match r with
                     | Some row => if rowSelected row then [row] else []
                     | None => []
                     end) rows.

(** No bucket, group or trailing entry of a grouped list is empty. *)
Definition entryFilled (e : GroupEntry) : Prop :=
  match e with
  | Grouped _ sgs => sgs <> [] /\ Forall (fun s => sgTokens s <> []) sgs
  | Ungrouped toks => toks <> []
  end.

(** In a group map, every group that is present has a key and every key
    that is present has a token. *)
Definition filledMap (groupMap : GroupMap) : Prop :=
  (forall g, In g (map fst groupMap) -> groupOf groupMap g <> [])
  /\ (forall g k, In k (map fst (groupOf groupMap g)) ->
                  bucket groupMap g k <> []).

(** What holds of every state the events lead to: an open menu has a
    recorded trigger position, and an active category is one of the
    declared ones, it has tokens, and its menu is open. *)
Definition menuConsistent (props : Props) (st : EditorState) : Prop :=
  (showMenu st = true -> slashPosition st <> None)
  /\ (forall c, activeCategory st = Some c ->
                showMenu st = true
                /\ In c (categories props)
                /\ Category.tokens c <> []).

Definition enter : KeyEvent := mkKey "Enter" false false.

(** The group headings of a rendered list, in document order. *)
Fixpoint groupTitles (els : list Element) : list string :=
  match els with
  | [] => []
  | GroupTitle g :: r => g :: groupTitles r
  | _ :: r => groupTitles r
  end.

(* ================================================================== *)
(** * Sample data *)
(* ================================================================== *)

(** A case mapping, a collation and a serialization to run the component
    on samples.  The case mapping is the one of ASCII letters. *)
Definition sampleLowerChar (c : ascii) : ascii :=
  let n := nat_of_ascii c in
  if (65 <=? n) && (n <=? 90) then ascii_of_nat (n + 32) else c.

Fixpoint sampleLower (s : string) : string :=
  match s with
  | EmptyString => EmptyString
  | String c rest => String (sampleLowerChar c) (sampleLower rest)
  end.

#[global] Instance sampleCaseMapping : Js.CaseMapping.
Proof.
  refine {| Js.toLowerCase := sampleLower |}.
  - reflexivity.
  - intros s. induction s as [|c s IH]; [reflexivity|].
    cbn [sampleLower]. rewrite IH. f_equal.
    destruct c as [[] [] [] [] [] [] [] []]; reflexivity.
Defined.

Definition sampleCompare : string -> string -> Z := Js.defaultCompare.

Definition sampleInnerHTML (l : list Node) : string :=
  String.concat ""
    (map (fun n =>
            match n with
            | TextNode text => text
            | TagNode tag =>
                String.concat ""
                  ["<span class='token-tag' data-type='"; dataType tag;
                   "' data-value='"; dataValue tag; "'>";
                   textContent tag; "</span>"]
            end) l).

Definition sampleColours : list Token.t :=
  [tk "Text/Primary"; tk "Text/Secondary"; tk "Primary Blue"].

Definition sampleProps : Props :=
  mkProps (mkTokens (Some sampleColours) (Some [tk "Body/Bold/Body 4"])
                    (Some [tk "Space/4"]))
          true true false.

Definition colourCategory : Category.t :=
  Category.mk "colour" "Colour tokens" "#8b5cf6" sampleColours.

(** The user typed [hi /pri] and opened the colour category. *)
Definition sampleTriggered : EditorState :=
  mkState true (Some colourCategory) "pri" 0 (Some (Slash.mk 0 3))
          [TextNode "hi /pri"] (Some (mkRange (ChildNode 0) 7 true)).

(** The input event of a space typed after [/col] at top level. *)
Definition sampleSpaceTyped : EditorState :=
  mkState true None "col" 0 (Some (Slash.mk 0 0))
          [TextNode "/col "] (Some (mkRange (ChildNode 0) 5 true)).

Definition typed (c : ascii) (st : EditorState) : EditorState :=
  commit st (handleInput (typeChar c st)).

(** The catalog after the spacing tokens went away. *)
Definition sampleProps' : Props :=
  mkProps (mkTokens (Some sampleColours) (Some [tk "Body/Bold/Body 4"])
                    (Some []))
          true true false.

(** The menu opened by a typed [/], then ArrowDown twice. *)
Definition sampleNavigation : list Event :=
  [SelectionChange (Some (mkRange EditorElement 0 true));
   Input [TextNode "/"] (Some (mkRange (ChildNode 0) 1 true));
   KeyDown arrowDown; KeyDown arrowDown].

(** Three colours, no typography, an empty spacing list; [/col] typed. *)
Definition sampleColOnly : Props :=
  mkProps (mkTokens (Some sampleColours) None (Some [])) true true false.

Definition sampleColTyped : EditorState :=
  mkState true None "col" 0 (Some (Slash.mk 0 0))
          [TextNode "/col"] (Some (mkRange (ChildNode 0) 4 true)).

Definition sampleTag : TokenTag :=
  mkTag "colour" "Text/Primary" "" "#8b5cf6" "Text/Primary".

(* ================================================================== *)
(** * Properties *)
(* ================================================================== *)

(** ** Basic facts about the state *)

Lemma sameCategory_refl (c : option Category.t) : sameCategory c c = true.
Proof.
  destruct c as [c|]; simpl; [|reflexivity].
  destruct (Category_eq_dec c c); congruence.
Qed.

Lemma sameCategory_eq (a b : option Category.t) :
  sameCategory a b = true -> a = b.
Proof.
  destruct a as [x|], b as [y|]; simpl; try discriminate; try reflexivity.
  destruct (Category_eq_dec x y); [congruence | discriminate].
Qed.

Lemma depsChanged_false (old new : EditorState) :
  depsChanged old new = false ->
  filter old = filter new /\ activeCategory old = activeCategory new.
Proof.
  unfold depsChanged. intros H.
  apply orb_false_iff in H. destruct H as [Hf Hc].
  apply negb_false_iff in Hf. apply negb_false_iff in Hc.
  split; [now apply String.eqb_eq | now apply sameCategory_eq].
Qed.

Lemma depsChanged_same (old new : EditorState) :
  filter old = filter new -> activeCategory old = activeCategory new ->
  depsChanged old new = false.
Proof.
  unfold depsChanged. intros -> ->.
  now rewrite String.eqb_refl, sameCategory_refl.
Qed.

Lemma commit_same (old new : EditorState) :
  filter old = filter new -> activeCategory old = activeCategory new ->
  commit old new = new.
Proof.
  intros Hf Hc. unfold commit. now rewrite depsChanged_same.
Qed.

(** ** Rendering and the flat list *)

Lemma tokenRows_app (a b : list Element) :
  tokenRows (a ++ b) = tokenRows a ++ tokenRows b.
Proof.
  induction a as [|e a IH]; simpl; [reflexivity|].
  destruct e; simpl; now rewrite IH.
Qed.

Lemma indexed_app (sel : Z) (a b : list Token.t) (start : nat) :
  indexed start sel (a ++ b)
  = indexed start sel a ++ indexed (start + List.length a) sel b.
Proof.
  revert start. induction a as [|t a IH]; intros start; simpl.
  - now rewrite Nat.add_0_r.
  - rewrite IH. now rewrite Nat.add_succ_r.
Qed.

Lemma renderTokenItem_row (cat : Category.t) (sel : Z) (t : Token.t) (i : nat) :
  knownCategory cat ->
  tokenRows [renderTokenItem cat sel t i]
  = [(t, i, (Z.of_nat i =? sel)%Z)].
Proof.
  unfold knownCategory, renderTokenItem. simpl.
  intros [H|[H|[H|[]]]]; rewrite <- H; simpl; reflexivity.
Qed.

Section RenderFacts.

Variable cat : Category.t.
Variable sel : Z.
Hypothesis Hcat : knownCategory cat.

Lemma renderTokens_rows (tokens : list Token.t) (acc : RenderAcc) :
  tokenRows (fst (renderTokens cat sel tokens acc))
  = tokenRows (fst acc) ++ indexed (snd acc) sel tokens
  /\ snd (renderTokens cat sel tokens acc) = snd acc + List.length tokens.
Proof.
  revert acc. induction tokens as [|t tokens IH]; intros [els n]; simpl.
  - now rewrite app_nil_r, Nat.add_0_r.
  - unfold renderTokens in *. simpl.
    destruct (IH (els ++ [renderTokenItem cat sel t n], S n)) as [IH1 IH2].
    simpl in IH1, IH2. rewrite IH1, IH2. split; [|lia].
    rewrite tokenRows_app, renderTokenItem_row by exact Hcat.
    now rewrite <- app_assoc.
Qed.

Lemma renderSubgroups_rows (g : string) (sgs : list Subgroup) (acc : RenderAcc) :
  tokenRows (fst (fold_left (renderSubgroup cat sel g) sgs acc))
  = tokenRows (fst acc) ++ indexed (snd acc) sel (flat_map sgTokens sgs)
  /\ snd (fold_left (renderSubgroup cat sel g) sgs acc)
     = snd acc + List.length (flat_map sgTokens sgs).
Proof.
  revert acc. induction sgs as [|sg sgs IH]; intros acc; simpl.
  - now rewrite app_nil_r, Nat.add_0_r.
  - destruct (IH (renderSubgroup cat sel g acc sg)) as [IH1 IH2].
    rewrite IH1, IH2. clear IH IH1 IH2.
    unfold renderSubgroup.
    assert (Hacc1 : forall acc1 : RenderAcc,
               tokenRows (fst acc1) = tokenRows (fst acc) ->
               snd acc1 = snd acc ->
               tokenRows (fst (renderTokens cat sel (sgTokens sg) acc1))
                 ++ indexed (snd (renderTokens cat sel (sgTokens sg) acc1))
                            sel (flat_map sgTokens sgs)
               = tokenRows (fst acc)
                   ++ indexed (snd acc) sel
                        (sgTokens sg ++ flat_map sgTokens sgs)
               /\ snd (renderTokens cat sel (sgTokens sg) acc1)
                    + List.length (flat_map sgTokens sgs)
                  = snd acc
                    + List.length (sgTokens sg ++ flat_map sgTokens sgs)).
    { intros acc1 Ha Hb.
      destruct (renderTokens_rows (sgTokens sg) acc1) as [R1 R2].
      rewrite R1, R2, Ha, Hb, indexed_app, length_app.
      split; [now rewrite <- app_assoc | lia]. }
    destruct (Js.truthy (subgroup sg)); apply Hacc1; simpl; try reflexivity.
    rewrite tokenRows_app. simpl. now rewrite app_nil_r.
Qed.

Lemma renderGroups_rows (tree : list GroupEntry) (acc : RenderAcc) :
  tokenRows (fst (fold_left (renderGroup cat sel) tree acc))
  = tokenRows (fst acc) ++ indexed (snd acc) sel (flatten tree).
Proof.
  revert acc. induction tree as [|g tree IH]; intros acc; simpl.
  - now rewrite app_nil_r.
  - rewrite IH. clear IH. unfold flatten. simpl.
    rewrite indexed_app, app_assoc. f_equal.
    + destruct g as [name sgs | tokens]; simpl.
      * destruct (renderSubgroups_rows name sgs
                    (fst acc ++ [GroupTitle name], snd acc)) as [R1 _].
        rewrite R1. simpl. rewrite tokenRows_app. simpl.
        now rewrite app_nil_r.
      * now destruct (renderTokens_rows tokens acc) as [R1 _].
    + f_equal. destruct g as [name sgs | tokens]; simpl.
      * now destruct (renderSubgroups_rows name sgs
                        (fst acc ++ [GroupTitle name], snd acc)) as [_ R2].
      * now destruct (renderTokens_rows tokens acc) as [_ R2].
Qed.

End RenderFacts.

Lemma indexed_selected (sel : Z) (l : list Token.t) (start : nat)
      (t : Token.t) (i : nat) :
  In (t, i, true) (indexed start sel l) ->
  start <= i /\ Z.of_nat i = sel /\ nth_error l (i - start) = Some t.
Proof.
  revert start. induction l as [|x l IH]; intros start; simpl; [easy|].
  intros [H | H].
  - injection H as -> -> Hb. apply Z.eqb_eq in Hb.
    rewrite Nat.sub_diag. now repeat split.
  - destruct (IH _ H) as (Hle & Hsel & Hnth).
    repeat split; [lia | exact Hsel |].
    replace (i - start) with (S (i - S start)) by lia. exact Hnth.
Qed.

(** C10.  For every grouped token tree, the token rows of the rendered
    grouped list are, in order, the entries of the flattened list used for
    keyboard navigation, each carrying its position in that list as flat
    index; the row marked as selected is the entry the flattened list holds
    at [selectedIndex]. *)
Theorem rendered_rows_follow_flattened :
  forall (cat : Category.t) (selectedIndex : Z) (tree : list GroupEntry),
    knownCategory cat ->
    tokenRows (renderGroupedTokens cat selectedIndex tree)
    = indexed 0 selectedIndex (flatten tree)
    /\ (forall t i,
           In (t, i, true) (tokenRows (renderGroupedTokens cat selectedIndex tree)) ->
           Js.at_ (flatten tree) selectedIndex = Some t).
Proof.
  intros cat sel tree Hcat.
  assert (E : tokenRows (renderGroupedTokens cat sel tree)
              = indexed 0 sel (flatten tree)).
  { unfold renderGroupedTokens. now rewrite renderGroups_rows. }
  split; [exact E|].
  intros t i Hin. rewrite E in Hin.
  apply indexed_selected in Hin. destruct Hin as (_ & Hsel & Hnth).
  unfold Js.at_. subst sel.
  destruct (Z.ltb_spec (Z.of_nat i) 0); [lia|].
  now rewrite Nat2Z.id, Nat.sub_0_r in *.
Qed.

Lemma rendered_rows_follow_flattened_witness :
  let cat := Category.mk "colour" "Colour tokens" "#8b5cf6" [] in
  let tree := [Grouped "Text" [mkSubgroup None [tk "Text/Primary"];
                               mkSubgroup (Some "Bold") [tk "Text/Bold/H1"]];
               Ungrouped [tk "Primary Blue"]] in
  knownCategory cat
  /\ tokenRows (renderGroupedTokens cat 1 tree) = indexed 0 1 (flatten tree).
Proof.
  intros cat tree.
  assert (H : knownCategory cat) by (left; reflexivity).
  split; [exact H|].
  exact (proj1 (rendered_rows_follow_flattened cat 1 tree H)).
Defined.

(** ** The splice engine without a trigger *)

(** C9.  For every token and category, [insertToken] with no trigger
    position recorded returns normally and leaves the whole editor state,
    document and caret included, as it was.  No position is recorded in
    the initial state and after every insertion, so that an insertion
    repeated at once changes nothing.  With the menu closed no select
    command reaches [insertToken]: a click on a menu row and a plain
    Enter leave the state as it was. *)
Theorem insertToken_without_trigger_is_noop `{casing : Js.CaseMapping} :
  forall (token : option Item) (category : option Category.t)
         (st : EditorState),
    (slashPosition st = None ->
     insertToken token category st = Some st)
    /\ (showMenu st = false ->
        forall (lc : string -> string -> Z) (ih : list Node -> string)
               (props : Props) (index : nat),
          handle lc ih props (ClickItem index) st = st
          /\ handleKeyDown lc ih props (mkKey "Enter" false false) st
             = passThrough st)
    /\ slashPosition initialState = None
    /\ (forall (st' : EditorState) (token' : option Item)
               (category' : option Category.t),
           insertToken token category st = Some st' ->
           insertToken token' category' st' = Some st').
Proof.
  intros token category st. split; [|split; [|split]].
  - intros H. unfold insertToken. now rewrite H.
  - intros H lc ih props index. split.
    + cbn [handle]. now rewrite H.
    + unfold handleKeyDown. cbn [key metaKey ctrlKey].
      change ("Enter" =? "Backspace")%string with false.
      rewrite H. reflexivity.
  - reflexivity.
  - intros st' token' category'. unfold insertToken at 1.
    destruct (slashPosition st) as [sp|] eqn:Hsp.
    2:{ intros [= <-]. unfold insertToken. now rewrite Hsp. }
    destruct (selection st) as [range|] eqn:Hsel.
    2:{ intros [= <-]. unfold insertToken. now rewrite Hsp, Hsel. }
    destruct token as [item|]; [|discriminate].
    destruct category as [cat|]; [|discriminate].
    destruct (nth_error _ _) as [[text|tag]|]; try discriminate.
    intros [= <-]. reflexivity.
Qed.

Lemma insertToken_without_trigger_is_noop_witness :
  let inserted := run sampleCompare sampleInnerHTML sampleProps
                      [KeyDown enter] sampleTriggered in
  childNodes inserted
  = [TextNode "hi "; TagNode (makeTag (tk "Text/Primary") colourCategory);
     TextNode " "]
  /\ insertToken (Some (TokenItem (tk "Text/Secondary")))
                 (Some colourCategory) inserted
     = Some inserted
  /\ handle sampleCompare sampleInnerHTML sampleProps (ClickItem 0) inserted
     = inserted.
Proof.
  intros inserted.
  destruct (insertToken_without_trigger_is_noop
              (Some (TokenItem (tk "Text/Secondary"))) (Some colourCategory)
              inserted) as (Hguard & Hclosed & _).
  split; [reflexivity|]. split.
  - apply Hguard. reflexivity.
  - apply (Hclosed eq_refl sampleCompare sampleInnerHTML sampleProps 0).
Defined.

(** C9, as stated, fails after a cancellation.  The space typed after
    [/col] closes the menu and clears the category and the filter, so
    that no trigger is active; the trigger position stays recorded, and
    [insertToken] called in that state replaces the text from the trigger
    character to the caret by a tag. *)
Theorem insertToken_after_cancel_rewrites_the_buffer :
  let start :=
    setSelection (Some (mkRange EditorElement 0 true)) initialState in
  let cancelled :=
    typed " " (typed "l" (typed "o" (typed "c" (typed "/" start)))) in
  (showMenu cancelled = false /\ activeCategory cancelled = None
   /\ filter cancelled = "")
  /\ childNodes cancelled = [TextNode "/col "]
  /\ exists st' : EditorState,
       insertToken (Some (TokenItem (tk "Text/Primary")))
                   (Some colourCategory) cancelled
       = Some st'
       /\ childNodes st'
          = [TextNode ""; TagNode (makeTag (tk "Text/Primary") colourCategory);
             TextNode " "]
       /\ st' <> cancelled.
Proof.
  intros start cancelled.
  split; [repeat split|]. split; [reflexivity|].
  eexists. split; [reflexivity|]. split; [reflexivity|].
  intros H. apply (f_equal childNodes) in H. discriminate.
Qed.

(** ** Strings *)

Lemma length_append (a b : string) :
  String.length (a ++ b) = String.length a + String.length b.
Proof. induction a as [|c a IH]; simpl; [reflexivity | now rewrite IH]. Qed.

Lemma append_nil_r (a : string) : (a ++ "")%string = a.
Proof. induction a as [|c a IH]; simpl; [reflexivity | now rewrite IH]. Qed.

Lemma append_assoc (a b c : string) :
  ((a ++ b) ++ c)%string = (a ++ (b ++ c))%string.
Proof. induction a as [|x a IH]; simpl; [reflexivity | now rewrite IH]. Qed.

Lemma substring_zero_all (s : string) :
  String.substring 0 (String.length s) s = s.
Proof. induction s as [|c s IH]; simpl; [reflexivity | now rewrite IH]. Qed.

Lemma substring_head (a b : string) :
  String.substring 0 (String.length a) (a ++ b) = a.
Proof.
  induction a as [|c a IH]; simpl.
  - now destruct b.
  - now rewrite IH.
Qed.

Lemma substring_skip (a b : string) (n : nat) :
  String.substring (String.length a) n (a ++ b) = String.substring 0 n b.
Proof. induction a as [|c a IH]; simpl; [reflexivity | exact IH]. Qed.

(** The two calls of [insertToken], on a text cut at the anchor and at
    the caret. *)
Lemma substring_before (pre rest : string) :
  Js.substring (pre ++ rest) 0 (String.length pre) = pre.
Proof.
  unfold Js.substring. rewrite length_append.
  rewrite Nat.min_0_l. simpl Nat.min.
  replace (Nat.min (String.length pre) (String.length pre + String.length rest))
    with (String.length pre) by lia.
  rewrite Nat.max_0_l, Nat.sub_0_r. apply substring_head.
Qed.

Lemma substringFrom_after (pre suf : string) :
  Js.substringFrom (pre ++ suf) (String.length pre) = suf.
Proof.
  unfold Js.substringFrom, Js.substring. rewrite length_append.
  rewrite Nat.min_id.
  replace (Nat.min (String.length pre) (String.length pre + String.length suf))
    with (String.length pre) by lia.
  replace (Nat.min (String.length pre) (String.length pre + String.length suf))
    with (String.length pre) by lia.
  replace (Nat.max (String.length pre) (String.length pre + String.length suf)
           - String.length pre)
    with (String.length suf) by lia.
  rewrite substring_skip. apply substring_zero_all.
Qed.

Lemma prefix_iff (a s : string) :
  String.prefix a s = true <-> exists post, s = (a ++ post)%string.
Proof.
  revert s. induction a as [|c a IH]; intros s; simpl.
  - split; [intros _; now exists s | intros _; now destruct s].
  - destruct s as [|d s]; simpl.
    + split; [discriminate | intros [post H]; discriminate].
    + destruct (ascii_dec c d) as [->|Hne].
      * rewrite IH. split; intros [post H]; exists post; congruence.
      * split; [discriminate | intros [post H]; congruence].
Qed.

Lemma includes_nil (sub : string) :
  Js.includes "" sub = String.prefix sub "" || false.
Proof. reflexivity. Qed.

Lemma includes_cons (c : ascii) (s sub : string) :
  Js.includes (String c s) sub
  = String.prefix sub (String c s) || Js.includes s sub.
Proof. reflexivity. Qed.

Lemma includes_iff (s sub : string) :
  Js.includes s sub = true
  <-> exists pre post, s = (pre ++ (sub ++ post))%string.
Proof.
  induction s as [|c s IH].
  - rewrite includes_nil, orb_false_r, prefix_iff. split.
    + intros [post H]. now exists ""%string, post.
    + intros (pre & post & H). destruct pre; simpl in H.
      * now exists post.
      * discriminate.
  - rewrite includes_cons, orb_true_iff, prefix_iff, IH. split.
    + intros [[post H] | (pre & post & H)].
      * now exists ""%string, post.
      * exists (String c pre), post. simpl. now rewrite H.
    + intros (pre & post & H). destruct pre as [|d pre]; simpl in H.
      * left. now exists post.
      * right. exists pre, post. congruence.
Qed.

Lemma matchesFilter_iff `{casing : Js.CaseMapping} (lbl f : string) :
  matchesFilter lbl f = true <-> containsIgnoringCase lbl f.
Proof. unfold matchesFilter, containsIgnoringCase. apply includes_iff. Qed.

(** ** Lists of children *)

Lemma nth_error_splice {A} (l mid : list A) (i k : nat) (x : A) :
  i < List.length l ->
  nth_error mid k = Some x ->
  nth_error (firstn i l ++ mid ++ skipn (S i) l) (i + k) = Some x.
Proof.
  intros Hi Hk.
  rewrite nth_error_app2 by (rewrite length_firstn; lia).
  rewrite length_firstn.
  replace (i + k - Nat.min i (List.length l)) with k by lia.
  rewrite nth_error_app1; [exact Hk|].
  apply nth_error_Some. congruence.
Qed.

Lemma removeAt_splice {A} (l : list A) (i : nat) (a b c : A) :
  i < List.length l ->
  removeAt (S i) (firstn i l ++ [a; b; c] ++ skipn (S i) l)
  = firstn i l ++ [a; c] ++ skipn (S i) l.
Proof.
  intros Hi. unfold removeAt.
  assert (Hlen : List.length (firstn i l) = i)
    by (rewrite length_firstn; lia).
  rewrite firstn_app, skipn_app, Hlen.
  replace (S i - i) with 1 by lia.
  replace (S (S i) - i) with 2 by lia.
  rewrite (firstn_all2 (n := S i)) by lia.
  rewrite (skipn_all2 (n := S (S i))) by lia.
  simpl. now rewrite <- app_assoc.
Qed.

(** ** The visible list *)

Lemma visibleItems_ext `{casing : Js.CaseMapping} (lc : string -> string -> Z) (props : Props)
      (a b : EditorState) :
  filter a = filter b -> activeCategory a = activeCategory b ->
  visibleItems lc props a = visibleItems lc props b.
Proof.
  intros Hf Hc.
  unfold visibleItems, flattenedTokens, groupedTokens, currentItems,
    getFilteredTokens.
  now rewrite Hf, Hc.
Qed.

Lemma length_visibleItems `{casing : Js.CaseMapping} (lc : string -> string -> Z) (props : Props)
      (st : EditorState) :
  List.length (visibleItems lc props st)
  = match activeCategory st with
    | Some _ => List.length (flattenedTokens lc st)
    | None => List.length (currentItems props st)
    end.
Proof.
  unfold visibleItems. destruct (activeCategory st); [apply length_map | reflexivity].
Qed.

(** ** Navigation *)

(** C7.  With the menu open and a non-empty visible list of length [n]
    (the category rows at top level, the flattened grouped tokens inside a
    category), ArrowDown at [n - 1] wraps to 0 and otherwise adds one,
    ArrowUp at 0 wraps to [n - 1] and otherwise subtracts one; the visible
    list is the same afterwards. *)
Theorem arrows_move_selection_with_wraparound `{casing : Js.CaseMapping} :
  forall (lc : string -> string -> Z) (ih : list Node -> string)
         (props : Props) (st : EditorState) (n : Z),
    showMenu st = true ->
    n = Z.of_nat (List.length (visibleItems lc props st)) ->
    (0 <= selectedIndex st < n)%Z ->
    let down := dispatch lc ih props st (KeyDown arrowDown) in
    let up := dispatch lc ih props st (KeyDown arrowUp) in
    selectedIndex down
    = (if (selectedIndex st =? n - 1)%Z then 0 else selectedIndex st + 1)%Z
    /\ selectedIndex up
       = (if (selectedIndex st =? 0)%Z then n - 1 else selectedIndex st - 1)%Z
    /\ visibleItems lc props down = visibleItems lc props st
    /\ visibleItems lc props up = visibleItems lc props st
    /\ visibleItems lc props st
       = match activeCategory st with
         | Some _ => map TokenItem (flatten (groupTokens lc (getFilteredTokens st)))
         | None => currentItems props st
         end.
Proof.
  intros lc ih props st n Hmenu Hn Hsel down up.
  rewrite length_visibleItems in Hn.
  assert (Hdown : down = setSelectedIndex
                           (if (selectedIndex st <? n - 1)%Z
                            then (selectedIndex st + 1)%Z else 0%Z) st).
  { subst down. unfold dispatch, handle, handleKeyDown. cbn [key arrowDown].
    change ("ArrowDown" =? "Backspace")%string with false.
    change ("ArrowDown" =? "ArrowDown")%string with true.
    rewrite Hmenu. cbn [andb negb after consumed]. rewrite <- Hn.
    now apply commit_same. }
  assert (Hup : up = setSelectedIndex
                       (if (0 <? selectedIndex st)%Z
                        then (selectedIndex st - 1)%Z else (n - 1)%Z) st).
  { subst up. unfold dispatch, handle, handleKeyDown. cbn [key arrowUp].
    change ("ArrowUp" =? "Backspace")%string with false.
    change ("ArrowUp" =? "ArrowDown")%string with false.
    change ("ArrowUp" =? "ArrowUp")%string with true.
    rewrite Hmenu. cbn [andb negb after consumed]. rewrite <- Hn.
    now apply commit_same. }
  rewrite Hdown, Hup. cbn [selectedIndex setSelectedIndex].
  split; [|split; [|split; [|split]]].
  - destruct (Z.ltb_spec (selectedIndex st) (n - 1)),
             (Z.eqb_spec (selectedIndex st) (n - 1)); lia.
  - destruct (Z.ltb_spec 0 (selectedIndex st)),
             (Z.eqb_spec (selectedIndex st) 0); lia.
  - now apply visibleItems_ext.
  - now apply visibleItems_ext.
  - unfold visibleItems, flattenedTokens, groupedTokens.
    now destruct (activeCategory st).
Qed.

Lemma arrows_move_selection_with_wraparound_witness :
  let st := setSelectedIndex 2 sampleTriggered in
  let st' := setFilter "" st in
  selectedIndex (dispatch sampleCompare sampleInnerHTML sampleProps st'
                          (KeyDown arrowDown)) = 0%Z
  /\ selectedIndex (dispatch sampleCompare sampleInnerHTML sampleProps st'
                             (KeyDown arrowUp)) = 1%Z.
Proof.
  intros st st'.
  assert (Hmenu : showMenu st' = true) by reflexivity.
  assert (Hn : 3%Z = Z.of_nat (List.length
                                 (visibleItems sampleCompare sampleProps st')))
    by (vm_compute; reflexivity).
  assert (Hsel : (0 <= selectedIndex st' < 3)%Z) by (simpl; lia).
  destruct (arrows_move_selection_with_wraparound
              sampleCompare sampleInnerHTML sampleProps st' 3 Hmenu Hn Hsel)
    as (Hd & Hu & _).
  split; [exact Hd | exact Hu].
Defined.

(** ** Submission *)

(** C8.  When the trimmed plain text of the buffer is empty, [handleSubmit]
    calls nothing and returns the editor state as it was; when it is not
    empty and an [onSubmit] callback was supplied, [onSubmit] is called
    once, with the trimmed plain text and the trimmed markup. *)
Theorem submit_only_when_text_is_not_empty :
  forall (ih : list Node -> string) (props : Props) (st : EditorState),
    (Js.trim (innerText (childNodes st)) = "" ->
     handleSubmit ih props st = (st, []))
    /\ (Js.trim (innerText (childNodes st)) <> "" ->
        hasOnSubmit props = true ->
        snd (handleSubmit ih props st)
        = [OnSubmit (Js.trim (innerText (childNodes st)))
                    (Js.trim (ih (childNodes st)))]).
Proof.
  intros ih props st. unfold handleSubmit. split.
  - intros ->. reflexivity.
  - intros Hne Hcb. rewrite Hcb.
    destruct (String.eqb_spec (Js.trim (innerText (childNodes st))) "");
      [contradiction | reflexivity].
Qed.

Lemma submit_only_when_text_is_not_empty_witness :
  handleSubmit sampleInnerHTML sampleProps
               (setChildNodes [TextNode "  "] initialState)
  = (setChildNodes [TextNode "  "] initialState, [])
  /\ snd (handleSubmit sampleInnerHTML sampleProps
                       (setChildNodes [TextNode " use "; TagNode sampleTag]
                                      initialState))
     = [OnSubmit "use Text/Primary"
                 "use <span class='token-tag' data-type='colour' data-value='Text/Primary'>Text/Primary</span>"].
Proof.
  split.
  - apply (proj1 (submit_only_when_text_is_not_empty
                    sampleInnerHTML sampleProps
                    (setChildNodes [TextNode "  "] initialState))).
    reflexivity.
  - apply (proj2 (submit_only_when_text_is_not_empty
                    sampleInnerHTML sampleProps
                    (setChildNodes [TextNode " use "; TagNode sampleTag]
                                   initialState))).
    + vm_compute. discriminate.
    + reflexivity.
Defined.

(** ** The splice engine *)

Lemma insertToken_spliced (item : Item) (cat : Category.t) (st : EditorState)
      (sp : Slash.t) (range : Range) (text : string) :
  slashPosition st = Some sp ->
  selection st = Some range ->
  nth_error (childNodes st) (Slash.node sp) = Some (TextNode text) ->
  let after := Js.substringFrom text (startOffset range) in
  let afterText := if (after =? "")%string then " "%string else after in
  insertToken (Some item) (Some cat) st
  = Some (mkState false None (filter st) (selectedIndex st) None
            (firstn (Slash.node sp) (childNodes st)
               ++ [TextNode (Js.substring text 0 (Slash.offset sp));
                   TagNode (makeTag (asToken item) cat);
                   TextNode afterText]
               ++ skipn (S (Slash.node sp)) (childNodes st))
            (Some (mkRange (ChildNode (Slash.node sp + 2)) 1 true))).
Proof.
  intros Hsp Hsel Hnode after afterText.
  unfold insertToken. rewrite Hsp, Hsel, Hnode.
  fold after. fold afterText.
  assert (Hlen : (0 <? String.length afterText) = true).
  { subst afterText. destruct (String.eqb_spec after ""); [reflexivity|].
    destruct after; [congruence | reflexivity]. }
  rewrite Hlen. reflexivity.
Qed.

(** C2 (as the code has it).  With a trigger position recorded in a text
    node and the caret in that node at or after the anchor, [insertToken]
    replaces the node by the text before the anchor, one token tag, and
    the text after the caret (a single space when nothing follows); the
    caret is put at offset 1 of that last text node, one character past
    the tag; the menu is closed, the active category and the trigger
    position are cleared, and the filter text is left as it was. *)
Theorem insertToken_replaces_trigger_span :
  forall (item : Item) (cat : Category.t) (st : EditorState)
         (sp : Slash.t) (range : Range) (pre mid suf : string),
    slashPosition st = Some sp ->
    selection st = Some range ->
    startContainer range = ChildNode (Slash.node sp) ->
    nth_error (childNodes st) (Slash.node sp)
    = Some (TextNode (pre ++ (mid ++ suf))) ->
    String.length pre = Slash.offset sp ->
    String.length (pre ++ mid) = startOffset range ->
    exists st' : EditorState,
      insertToken (Some item) (Some cat) st = Some st'
      /\ childNodes st'
         = firstn (Slash.node sp) (childNodes st)
             ++ [TextNode pre;
                 TagNode (makeTag (asToken item) cat);
                 TextNode (if (suf =? "")%string then " " else suf)]
             ++ skipn (S (Slash.node sp)) (childNodes st)
      /\ selection st' = Some (mkRange (ChildNode (Slash.node sp + 2)) 1 true)
      /\ showMenu st' = false
      /\ activeCategory st' = None
      /\ slashPosition st' = None
      /\ filter st' = filter st.
Proof.
  intros item cat st sp range pre mid suf Hsp Hsel _ Hnode Hpre Hmid.
  eexists. split.
  - apply (insertToken_spliced item cat st sp range _ Hsp Hsel Hnode).
  - cbn [childNodes selection showMenu activeCategory slashPosition filter].
    rewrite <- Hpre, <- Hmid, substring_before.
    rewrite <- append_assoc, substringFrom_after.
    repeat (split; [reflexivity|]). reflexivity.
Qed.

Lemma insertToken_replaces_trigger_span_witness :
  exists st' : EditorState,
    insertToken (Some (TokenItem (tk "Text/Primary"))) (Some colourCategory)
                sampleTriggered = Some st'
    /\ childNodes st' = [TextNode "hi "; TagNode sampleTag; TextNode " "]
    /\ selection st' = Some (mkRange (ChildNode 2) 1 true)
    /\ showMenu st' = false
    /\ activeCategory st' = None
    /\ slashPosition st' = None
    /\ filter st' = "pri".
Proof.
  apply (insertToken_replaces_trigger_span
           (TokenItem (tk "Text/Primary")) colourCategory sampleTriggered
           (Slash.mk 0 3) (mkRange (ChildNode 0) 7 true) "hi " "/pri" "");
    reflexivity.
Defined.

(** C2, as stated, fails on the sample: the tag is child 1 and the caret
    lands at offset 1 of child 2, after the space, not directly after the
    tag. *)
Lemma insertToken_caret_is_past_the_space :
  exists (st' : EditorState) (r : Range),
    insertToken (Some (TokenItem (tk "Text/Primary"))) (Some colourCategory)
                sampleTriggered = Some st'
    /\ nth_error (childNodes st') 1 = Some (TagNode sampleTag)
    /\ selection st' = Some r
    /\ ~ caretRightAfter 1 r.
Proof.
  eexists. eexists. split; [reflexivity|].
  split; [reflexivity|]. split; [reflexivity|].
  unfold caretRightAfter. simpl. intros [[_ H] | [H _]]; discriminate.
Qed.

(** ** The atomic edit guard *)

(** Backspace with the menu closed and a collapsed caret directly after
    the tag at index [j] removes that tag and is consumed. *)
Lemma backspace_removes_tag_before_caret `{casing : Js.CaseMapping}
      (lc : string -> string -> Z) (ih : list Node -> string) (props : Props)
      (st : EditorState) (r : Range) (j : nat) (tag : TokenTag) :
  showMenu st = false ->
  selection st = Some r ->
  collapsed r = true ->
  caretRightAfter j r ->
  nth_error (childNodes st) j = Some (TagNode tag) ->
  (startContainer r = ChildNode (S j) ->
   exists text, nth_error (childNodes st) (S j) = Some (TextNode text)) ->
  handleKeyDown lc ih props backspace st = consumed (removeChildAt j st).
Proof.
  intros Hmenu Hsel Hcol Hcaret Htag Htext.
  unfold handleKeyDown. cbn [key backspace].
  change ("Backspace" =? "Backspace")%string with true.
  rewrite Hmenu. cbn [andb negb].
  unfold tagBeforeCaret. rewrite Hsel, Hcol.
  destruct Hcaret as [[Hc Ho] | [Hc Ho]]; rewrite Hc, Ho.
  - destruct (Htext Hc) as [text Ht]. rewrite Ht, Htag. reflexivity.
  - rewrite Htag. reflexivity.
Qed.

(** C1 (as the code has it).  For every category, [insertToken] leaves the
    caret at offset 1 of the text node after the tag, so one Backspace is
    not consumed and changes nothing: the key goes to the browser as an
    ordinary character deletion and the tag stays.  With the collapsed
    caret at offset 0 of that text node, Backspace is consumed and removes
    the whole tag, and the caret is at the start of the text that followed
    the tag, directly after the text that preceded it. *)
Theorem backspace_after_insertToken `{casing : Js.CaseMapping} :
  forall (lc : string -> string -> Z) (ih : list Node -> string)
         (props : Props) (item : Item) (cat : Category.t)
         (st : EditorState) (sp : Slash.t) (range : Range)
         (text : string),
    slashPosition st = Some sp ->
    selection st = Some range ->
    nth_error (childNodes st) (Slash.node sp) = Some (TextNode text) ->
    exists (st1 : EditorState) (before afterText : string),
      insertToken (Some item) (Some cat) st = Some st1
      /\ childNodes st1
         = firstn (Slash.node sp) (childNodes st)
             ++ [TextNode before; TagNode (makeTag (asToken item) cat);
                 TextNode afterText]
             ++ skipn (S (Slash.node sp)) (childNodes st)
      /\ handleKeyDown lc ih props backspace st1 = passThrough st1
      /\ let st2 := setSelection
                      (Some (mkRange (ChildNode (Slash.node sp + 2)) 0 true)) st1 in
         let out := handleKeyDown lc ih props backspace st2 in
         defaultPrevented out = true
         /\ childNodes (after out)
            = firstn (Slash.node sp) (childNodes st)
                ++ [TextNode before; TextNode afterText]
                ++ skipn (S (Slash.node sp)) (childNodes st)
         /\ selection (after out)
            = Some (mkRange (ChildNode (Slash.node sp + 1)) 0 true).
Proof.
  intros lc ih props item cat st sp range text Hsp Hsel Hnode.
  pose proof (insertToken_spliced item cat st sp range text Hsp Hsel Hnode)
    as Hins. cbv zeta in Hins.
  set (before := Js.substring text 0 (Slash.offset sp)) in *.
  set (afterText := if (Js.substringFrom text (startOffset range) =? "")%string
                    then " "%string
                    else Js.substringFrom text (startOffset range)) in *.
  set (tag := makeTag (asToken item) cat) in *.
  set (children1 := firstn (Slash.node sp) (childNodes st)
                      ++ [TextNode before; TagNode tag; TextNode afterText]
                      ++ skipn (S (Slash.node sp)) (childNodes st)) in *.
  assert (Hi : Slash.node sp < List.length (childNodes st))
    by (apply nth_error_Some; congruence).
  assert (Htag : nth_error children1 (S (Slash.node sp)) = Some (TagNode tag)).
  { replace (S (Slash.node sp)) with (Slash.node sp + 1) by lia.
    now apply nth_error_splice. }
  assert (Htext : nth_error children1 (S (S (Slash.node sp)))
                  = Some (TextNode afterText)).
  { replace (S (S (Slash.node sp))) with (Slash.node sp + 2) by lia.
    now apply nth_error_splice. }
  eexists. exists before, afterText.
  split; [exact Hins|]. split; [reflexivity|]. split.
  - unfold handleKeyDown. cbn [key backspace showMenu].
    change ("Backspace" =? "Backspace")%string with true.
    change ("Backspace" =? "Enter")%string with false.
    cbn [andb negb]. unfold tagBeforeCaret.
    cbn [selection collapsed startContainer startOffset childNodes].
    replace (Slash.node sp + 2) with (S (S (Slash.node sp))) by lia.
    rewrite Htext. reflexivity.
  - cbv zeta.
    erewrite (backspace_removes_tag_before_caret lc ih props _ _
                (S (Slash.node sp)) tag).
    + cbn [defaultPrevented after consumed].
      split; [reflexivity|]. split.
      * cbn [removeChildAt childNodes setSelection setChildNodes
               setSlashPosition].
        fold children1. subst children1. now apply removeAt_splice.
      * cbn [removeChildAt selection setSelection setChildNodes
               setSlashPosition slashPosition].
        replace (S (Slash.node sp) <? Slash.node sp + 2) with true
          by (symmetry; apply Nat.ltb_lt; lia).
        replace (Slash.node sp + 2 - 1) with (Slash.node sp + 1) by lia.
        reflexivity.
    + reflexivity.
    + reflexivity.
    + reflexivity.
    + left. cbn [startContainer startOffset].
      split; [f_equal; lia | reflexivity].
    + exact Htag.
    + intros _. exists afterText. exact Htext.
Qed.

Lemma backspace_after_insertToken_witness :
  exists (st1 : EditorState) (before afterText : string),
    insertToken (Some (TokenItem (tk "Text/Primary"))) (Some colourCategory)
                sampleTriggered = Some st1
    /\ childNodes st1
       = [TextNode before;
          TagNode (makeTag (tk "Text/Primary") colourCategory);
          TextNode afterText]
    /\ handleKeyDown sampleCompare sampleInnerHTML sampleProps backspace st1
       = passThrough st1
    /\ let st2 := setSelection (Some (mkRange (ChildNode 2) 0 true)) st1 in
       let out := handleKeyDown sampleCompare sampleInnerHTML sampleProps
                                backspace st2 in
       defaultPrevented out = true
       /\ childNodes (after out) = [TextNode before; TextNode afterText]
       /\ selection (after out) = Some (mkRange (ChildNode 1) 0 true).
Proof.
  apply (backspace_after_insertToken
           sampleCompare sampleInnerHTML sampleProps
           (TokenItem (tk "Text/Primary")) colourCategory sampleTriggered
           (Slash.mk 0 3) (mkRange (ChildNode 0) 7 true) "hi /pri");
    reflexivity.
Defined.

(** C1, as stated, fails on the sample: the Backspace that follows the
    insertion is not consumed and the tag is still in the buffer. *)
Lemma backspace_after_insertToken_keeps_the_tag :
  exists st1 : EditorState,
    insertToken (Some (TokenItem (tk "Text/Primary"))) (Some colourCategory)
                sampleTriggered = Some st1
    /\ defaultPrevented
         (handleKeyDown sampleCompare sampleInnerHTML sampleProps
                        backspace st1) = false
    /\ childNodes
         (after (handleKeyDown sampleCompare sampleInnerHTML sampleProps
                               backspace st1))
       = [TextNode "hi "; TagNode sampleTag; TextNode " "].
Proof.
  eexists. split; [reflexivity|]. split; reflexivity.
Qed.

(** ** Cancelling a trigger *)

(** C3 (as the code has it).  With the menu open: an input event whose
    caret is in a text node, not right after a trigger character, and
    either follows a span after the anchor that holds a space character or
    is at or before the anchor offset, closes the menu and clears the
    active category and the filter text; Escape at top level closes the
    menu; Escape inside a category goes back to the top level with the
    menu still open.  In each case the buffer, with the trigger character
    and the filter text in it, is unchanged, and the recorded anchor is
    kept. *)
Theorem cancelling_a_trigger `{casing : Js.CaseMapping} :
  forall (lc : string -> string -> Z) (ih : list Node -> string)
         (props : Props) (st : EditorState),
    showMenu st = true ->
    (forall (sp : Slash.t) (range : Range) (i : nat) (text : string),
        slashPosition st = Some sp ->
        selection st = Some range ->
        textNodeAt (childNodes st) (startContainer range) = Some (i, text) ->
        (forall p, startOffset range = S p ->
                   String.get p text <> Some "/"%char) ->
        (exists a b : string,
            Js.substring text (Slash.offset sp + 1) (startOffset range)
            = (a ++ (" " ++ b))%string)
        \/ startOffset range <= Slash.offset sp ->
        handleInput st
        = setFilter "" (setActiveCategory None (setShowMenu false st))
        /\ childNodes (handleInput st) = childNodes st
        /\ slashPosition (handleInput st) = Some sp)
    /\ (activeCategory st = None ->
        handleKeyDown lc ih props escape st = consumed (setShowMenu false st))
    /\ (forall c : Category.t,
           activeCategory st = Some c ->
           handleKeyDown lc ih props escape st
           = consumed (setFilter ""
                         (setSelectedIndex 0 (setActiveCategory None st)))
           /\ showMenu (after (handleKeyDown lc ih props escape st)) = true).
Proof.
  intros lc ih props st Hmenu. split; [|split].
  - intros sp range i text Hsp Hsel Htext Hchar Hcancel.
    assert (E : handleInput st
                = setFilter "" (setActiveCategory None (setShowMenu false st))).
    { unfold handleInput. rewrite Hsel, Htext, Hmenu, Hsp.
      assert (Hc : Js.charIs
                     match startOffset range with
                     | 0 => None
                     | S p => String.get p text
                     end "/" = false).
      { destruct (startOffset range) as [|p] eqn:Ho; [reflexivity|].
        specialize (Hchar p eq_refl).
        destruct (String.get p text) as [c|]; [|reflexivity].
        simpl. destruct (Ascii.eqb_spec c "/"); congruence. }
      rewrite Hc.
      replace (Js.includes
                 (Js.substring text (Slash.offset sp + 1) (startOffset range)) " "
               || (startOffset range <=? Slash.offset sp)) with true; [reflexivity|].
      symmetry. apply orb_true_iff.
      destruct Hcancel as [(a & b & Hab) | Hle].
      - left. apply includes_iff. now exists a, b.
      - right. now apply Nat.leb_le. }
    rewrite E. repeat split. exact Hsp.
  - intros Hcat. unfold handleKeyDown. cbn [key escape].
    change ("Escape" =? "Backspace")%string with false.
    change ("Escape" =? "ArrowDown")%string with false.
    change ("Escape" =? "ArrowUp")%string with false.
    change ("Escape" =? "Enter")%string with false.
    change ("Escape" =? "Escape")%string with true.
    rewrite Hmenu, Hcat. reflexivity.
  - intros c Hcat.
    assert (E : handleKeyDown lc ih props escape st
                = consumed (setFilter ""
                              (setSelectedIndex 0 (setActiveCategory None st)))).
    { unfold handleKeyDown. cbn [key escape].
      change ("Escape" =? "Backspace")%string with false.
      change ("Escape" =? "ArrowDown")%string with false.
      change ("Escape" =? "ArrowUp")%string with false.
      change ("Escape" =? "Enter")%string with false.
      change ("Escape" =? "Escape")%string with true.
      rewrite Hmenu, Hcat. reflexivity. }
    rewrite E. split; [reflexivity | exact Hmenu].
Qed.

Lemma cancelling_a_trigger_witness :
  handleInput sampleSpaceTyped
  = mkState false None "" 0 (Some (Slash.mk 0 0)) [TextNode "/col "]
            (Some (mkRange (ChildNode 0) 5 true))
  /\ showMenu (after (handleKeyDown sampleCompare sampleInnerHTML sampleProps
                                    escape sampleSpaceTyped)) = false
  /\ showMenu (after (handleKeyDown sampleCompare sampleInnerHTML sampleProps
                                    escape sampleTriggered)) = true.
Proof.
  assert (Hm1 : showMenu sampleSpaceTyped = true) by reflexivity.
  assert (Hm2 : showMenu sampleTriggered = true) by reflexivity.
  destruct (cancelling_a_trigger sampleCompare sampleInnerHTML sampleProps
                                 sampleSpaceTyped Hm1) as (Hin & Hesc & _).
  destruct (cancelling_a_trigger sampleCompare sampleInnerHTML sampleProps
                                 sampleTriggered Hm2) as (_ & _ & Hcat).
  split; [|split].
  - refine (proj1 (Hin (Slash.mk 0 0) (mkRange (ChildNode 0) 5 true) 0 "/col "
                       eq_refl eq_refl eq_refl _ _)).
    + intros p Hp. injection Hp as <-. discriminate.
    + left. exists "col"%string, ""%string. reflexivity.
  - rewrite (Hesc eq_refl). reflexivity.
  - exact (proj2 (Hcat colourCategory eq_refl)).
Defined.

(** C3, as stated, fails on the sample: Escape inside a category does not
    close the menu. *)
Lemma escape_inside_category_keeps_menu_open :
  showMenu (after (handleKeyDown sampleCompare sampleInnerHTML sampleProps
                                 escape sampleTriggered)) = true
  /\ slashPosition (after (handleKeyDown sampleCompare sampleInnerHTML
                                         sampleProps escape sampleTriggered))
     = Some (Slash.mk 0 3).
Proof. split; reflexivity. Qed.

(** Typing [/], [c], [o], [l] and a space into the empty editor: the menu
    opens, filters, and is closed by the space; the text stays. *)
Example typing_trigger_filter_space :
  let start := setSelection (Some (mkRange EditorElement 0 true)) initialState in
  let opened := typed "l" (typed "o" (typed "c" (typed "/" start))) in
  (showMenu opened = true /\ filter opened = "col")
  /\ typed " " opened
     = mkState false None "" 0 (Some (Slash.mk 0 0)) [TextNode "/col "]
               (Some (mkRange (ChildNode 0) 5 true)).
Proof. repeat split. Qed.

(** A tab inside the filter span does not cancel: only the space
    character does. *)
Example tab_does_not_cancel :
  let st := mkState true None "co" 0 (Some (Slash.mk 0 0))
                    [TextNode (String "/" (String "c" (String "o"
                       (String (ascii_of_nat 9) EmptyString))))]
                    (Some (mkRange (ChildNode 0) 4 true)) in
  showMenu (handleInput st) = true.
Proof. reflexivity. Qed.

(** ** The selection index *)

(** Case analysis on the condition of the outermost conditional. *)
Ltac case_cond :=
  match goal with
  | |- context [if ?b then _ else _] => destruct b
  end.


Lemma selectedIndex_handleInput (st : EditorState) :
  selectedIndex (handleInput st) = selectedIndex st.
Proof.
  unfold handleInput.
  destruct (selection st) as [range|]; [|reflexivity].
  destruct (textNodeAt _ _) as [[i text]|]; [|reflexivity].
  destruct (Js.charIs _ _); [reflexivity|].
  destruct (showMenu st); [|reflexivity].
  destruct (slashPosition st) as [sp|]; [|reflexivity].
  now case_cond.
Qed.

Lemma selectedIndex_insertToken (token : option Item)
      (category : option Category.t) (st st' : EditorState) :
  insertToken token category st = Some st' ->
  selectedIndex st' = selectedIndex st.
Proof.
  unfold insertToken.
  destruct (slashPosition st) as [sp|]; [|now intros [= <-]].
  destruct (selection st) as [range|]; [|now intros [= <-]].
  destruct token as [item|]; [|discriminate].
  destruct category as [cat|]; [|discriminate].
  destruct (nth_error _ _) as [[text|tag]|]; try discriminate.
  now intros [= <-].
Qed.

Lemma selectedIndex_handleSelect (item : option Item) (st : EditorState) :
  selectedIndex (orSame st (handleSelect item st)) = selectedIndex st
  \/ selectedIndex (orSame st (handleSelect item st)) = 0%Z.
Proof.
  unfold handleSelect.
  destruct (activeCategory st) as [c|] eqn:Hc.
  - destruct (insertToken item (Some c) st) as [st'|] eqn:E; simpl.
    + left. eapply selectedIndex_insertToken, E.
    + now left.
  - destruct item as [[c|t]|]; simpl.
    + now right.
    + destruct (insertToken _ None st) as [st'|] eqn:E; simpl.
      * left. eapply selectedIndex_insertToken, E.
      * now left.
    + now left.
Qed.

Lemma after_ofSelect (st : EditorState) (r : option EditorState) :
  after (ofSelect st r) = orSame st r.
Proof. now destruct r. Qed.

Section IndexInvariant.

Context `{casing : Js.CaseMapping}.
Variable lc : string -> string -> Z.
Variable ih : list Node -> string.
Variable props : Props.

Let fits := indexFits lc props.

Lemma fits_zero (st : EditorState) : fits st 0.
Proof.
  intros Hne. destruct (visibleItems lc props st); [congruence|].
  simpl. lia.
Qed.

Lemma fits_handleKeyDown (e : KeyEvent) (st : EditorState) :
  fits st (selectedIndex st) ->
  fits st (selectedIndex (after (handleKeyDown lc ih props e st))).
Proof.
  intros Hst. unfold handleKeyDown.
  destruct (if ((key e =? "Backspace")%string && negb (showMenu st))%bool
            then tagBeforeCaret st else None) as [j|].
  { exact Hst. }
  destruct (showMenu st); cbn [negb].
  2:{ case_cond; [|exact Hst].
      unfold handleSubmit. now case_cond. }
  rewrite <- length_visibleItems.
  destruct (key e =? "ArrowDown")%string.
  { cbn [after consumed selectedIndex setSelectedIndex].
    intros Hne. specialize (Hst Hne).
    destruct (Z.ltb_spec (selectedIndex st)
                (Z.of_nat (List.length (visibleItems lc props st)) - 1));
      lia. }
  destruct (key e =? "ArrowUp")%string.
  { cbn [after consumed selectedIndex setSelectedIndex].
    intros Hne. specialize (Hst Hne).
    destruct (Z.ltb_spec 0 (selectedIndex st)); lia. }
  case_cond.
  { destruct (activeCategory st); rewrite after_ofSelect;
      match goal with
      | |- fits _ (selectedIndex (orSame _ (handleSelect ?i _))) =>
          destruct (selectedIndex_handleSelect i st) as [-> | ->]
      end; auto using fits_zero. }
  destruct (key e =? "Escape")%string.
  { destruct (activeCategory st); [apply fits_zero | exact Hst]. }
  case_cond; [apply fits_zero | exact Hst].
Qed.

Lemma fits_handle (ev : Event) (st : EditorState) :
  fits st (selectedIndex st) ->
  fits st (selectedIndex (handle lc ih props ev st)).
Proof.
  intros Hst. destruct ev as [ch sel | sel | e | i | i | | | ]; cbn [handle].
  - now rewrite selectedIndex_handleInput.
  - exact Hst.
  - now apply fits_handleKeyDown.
  - destruct (showMenu st); [|exact Hst].
    destruct (nth_error _ _) as [item|]; [|exact Hst].
    destruct (selectedIndex_handleSelect (Some item) st) as [-> | ->];
      auto using fits_zero.
  - destruct (showMenu st); cbn [andb]; [|exact Hst].
    destruct (Nat.ltb_spec i (List.length (visibleItems lc props st)));
      [|exact Hst].
    intros _. cbn [selectedIndex setSelectedIndex]. lia.
  - destruct (showMenu st); [|exact Hst].
    destruct (activeCategory st); [apply fits_zero | exact Hst].
  - unfold handleSubmit. now case_cond.
  - exact Hst.
Qed.

Lemma validIndex_dispatch (st : EditorState) (ev : Event) :
  validIndex lc props st -> validIndex lc props (dispatch lc ih props st ev).
Proof.
  intros Hst. unfold dispatch, commit.
  destruct (depsChanged st (handle lc ih props ev st)) eqn:Hd.
  - unfold validIndex.
    rewrite (visibleItems_ext lc props
               (setSelectedIndex 0 (handle lc ih props ev st))
               (handle lc ih props ev st)) by reflexivity.
    apply fits_zero.
  - apply depsChanged_false in Hd. destruct Hd as [Hf Hc].
    unfold validIndex.
    rewrite (visibleItems_ext lc props (handle lc ih props ev st) st)
      by (symmetry; assumption).
    now apply fits_handle.
Qed.

Lemma validIndex_run (evs : list Event) (st : EditorState) :
  validIndex lc props st -> validIndex lc props (run lc ih props evs st).
Proof.
  revert st. induction evs as [|ev evs IH]; intros st Hst; simpl.
  - exact Hst.
  - apply IH. now apply validIndex_dispatch.
Qed.

Lemma dispatch_resets (st : EditorState) (ev : Event) :
  filter (dispatch lc ih props st ev) <> filter st
  \/ activeCategory (dispatch lc ih props st ev) <> activeCategory st ->
  selectedIndex (dispatch lc ih props st ev) = 0%Z.
Proof.
  unfold dispatch, commit.
  destruct (depsChanged st (handle lc ih props ev st)) eqn:Hd.
  - reflexivity.
  - apply depsChanged_false in Hd. destruct Hd as [Hf Hc].
    intros [H | H]; congruence.
Qed.

End IndexInvariant.

(** X30.  Over one catalog snapshot, across every sequence of events
    (edits that change the filter, category selection and return, arrow
    keys, hovering, clicks), whenever the visible list is non-empty the
    selection index lies in [0, length); it is 0 after every event that
    changed the filter text or the active category. *)
Theorem selectedIndex_stays_in_range `{casing : Js.CaseMapping} :
  forall (lc : string -> string -> Z) (ih : list Node -> string)
         (props : Props) (evs : list Event),
    validIndex lc props (run lc ih props evs initialState)
    /\ (forall st : EditorState,
           validIndex lc props st ->
           validIndex lc props (run lc ih props evs st))
    /\ (forall (st : EditorState) (ev : Event),
           filter (dispatch lc ih props st ev) <> filter st
           \/ activeCategory (dispatch lc ih props st ev) <> activeCategory st ->
           selectedIndex (dispatch lc ih props st ev) = 0%Z).
Proof.
  intros lc ih props evs. split; [|split].
  - apply validIndex_run. exact (fits_zero lc props initialState).
  - intros st. apply validIndex_run.
  - intros st ev. apply dispatch_resets.
Qed.

Lemma selectedIndex_stays_in_range_witness :
  selectedIndex (run sampleCompare sampleInnerHTML sampleProps
                     sampleNavigation initialState) = 2%Z
  /\ validIndex sampleCompare sampleProps
       (run sampleCompare sampleInnerHTML sampleProps
            (sampleNavigation ++ [KeyDown arrowDown]) initialState)
  /\ validIndex sampleCompare sampleProps
       (run sampleCompare sampleInnerHTML sampleProps
            [KeyDown arrowUp; KeyDown arrowUp] sampleTriggered)
  /\ selectedIndex
       (dispatch sampleCompare sampleInnerHTML sampleProps sampleTriggered
                 (KeyDown escape)) = 0%Z.
Proof.
  split; [reflexivity|]. split; [|split].
  - exact (proj1 (selectedIndex_stays_in_range
                    sampleCompare sampleInnerHTML sampleProps
                    (sampleNavigation ++ [KeyDown arrowDown]))).
  - apply (proj1 (proj2 (selectedIndex_stays_in_range
                           sampleCompare sampleInnerHTML sampleProps
                           [KeyDown arrowUp; KeyDown arrowUp]))).
    unfold validIndex. intros _. vm_compute.
    split; [discriminate | reflexivity].
  - apply (proj2 (proj2 (selectedIndex_stays_in_range
                           sampleCompare sampleInnerHTML sampleProps []))).
    right. discriminate.
Defined.

(** C4.  The index is not clamped when the catalog snapshot changes, and
    the component then fails.  On the sample, the index 2 reached over
    three category rows is valid; it is left at 2 when a new snapshot
    leaves two rows, also after the next event; Enter then finds no row
    at the index, and [handleSelect] raises a [TypeError] on the missing
    item. *)
Theorem catalog_change_leaves_index_out_of_range :
  let st := run sampleCompare sampleInnerHTML sampleProps
                sampleNavigation initialState in
  let st' := dispatch sampleCompare sampleInnerHTML sampleProps' st
                      (SelectionChange (Some (mkRange (ChildNode 0) 1 true))) in
  List.length (visibleItems sampleCompare sampleProps st) = 3
  /\ validIndex sampleCompare sampleProps st
  /\ List.length (visibleItems sampleCompare sampleProps' st') = 2
  /\ selectedIndex st' = 2%Z
  /\ ~ validIndex sampleCompare sampleProps' st'
  /\ handleKeyDown sampleCompare sampleInnerHTML sampleProps' enter st'
     = mkOutcome st' true [] true.
Proof.
  intros st st'.
  split; [reflexivity|]. split.
  { intros _. vm_compute. split; [discriminate | reflexivity]. }
  split; [reflexivity|]. split; [reflexivity|]. split; [|reflexivity].
  unfold validIndex. intros H.
  assert (Hne : visibleItems sampleCompare sampleProps' st' <> [])
    by (vm_compute; discriminate).
  specialize (H Hne). vm_compute in H. destruct H as [_ H]. discriminate.
Qed.

(** ** Dictionaries *)

Section ObjFacts.

Context {V : Type}.
Implicit Types (o : Js.Obj V) (k : string) (v : V).

Lemma getProp_setProp_same o k v : Js.getProp (Js.setProp o k v) k = Some v.
Proof.
  induction o as [|[k' v'] o IH]; simpl.
  - now rewrite String.eqb_refl.
  - destruct (String.eqb_spec k' k) as [->|Hne]; simpl.
    + now rewrite String.eqb_refl.
    + destruct (String.eqb_spec k' k); [contradiction | exact IH].
Qed.

Lemma getProp_setProp_other o k k' v :
  k <> k' -> Js.getProp (Js.setProp o k v) k' = Js.getProp o k'.
Proof.
  intros Hne. induction o as [|[k0 v0] o IH]; simpl.
  - destruct (String.eqb_spec k k'); [contradiction | reflexivity].
  - destruct (String.eqb_spec k0 k) as [->|Hk]; simpl.
    + destruct (String.eqb_spec k k'); [contradiction | reflexivity].
    + now rewrite IH.
Qed.

Lemma getProp_None_notin o k :
  Js.getProp o k = None -> ~ In k (map fst o).
Proof.
  induction o as [|[k' v'] o IH]; simpl; [tauto|].
  destruct (String.eqb_spec k' k) as [->|Hne]; [discriminate|].
  intros H [Hk | Hin]; [contradiction | now apply IH].
Qed.

Lemma getProp_Some_in o k v :
  Js.getProp o k = Some v -> In (k, v) o.
Proof.
  induction o as [|[k' v'] o IH]; simpl; [discriminate|].
  destruct (String.eqb_spec k' k) as [->|Hne].
  - intros [= ->]. now left.
  - intros H. right. now apply IH.
Qed.

Lemma getProp_of_entry o k v :
  NoDup (map fst o) -> In (k, v) o -> Js.getProp o k = Some v.
Proof.
  induction o as [|[k' v'] o IH]; simpl; [tauto|].
  intros Hnd [Hkv | Hin].
  - injection Hkv as -> ->. now rewrite String.eqb_refl.
  - inversion Hnd as [|? ? Hnot Hnd']; subst.
    destruct (String.eqb_spec k' k) as [->|Hne].
    + exfalso. apply Hnot. apply in_map_iff. now exists (k, v).
    + now apply IH.
Qed.

Lemma keys_setProp_present o k v v0 :
  Js.getProp o k = Some v0 -> map fst (Js.setProp o k v) = map fst o.
Proof.
  induction o as [|[k' v'] o IH]; simpl; [discriminate|].
  destruct (String.eqb_spec k' k) as [->|Hne]; simpl; [reflexivity|].
  intros H. now rewrite IH.
Qed.

Lemma keys_setProp_absent o k v :
  Js.getProp o k = None -> Js.setProp o k v = o ++ [(k, v)].
Proof.
  induction o as [|[k' v'] o IH]; simpl; [reflexivity|].
  destruct (String.eqb_spec k' k) as [->|Hne]; [discriminate|].
  intros H. now rewrite IH.
Qed.

Lemma NoDup_keys_setProp o k v :
  NoDup (map fst o) -> NoDup (map fst (Js.setProp o k v)).
Proof.
  intros Hnd. destruct (Js.getProp o k) as [v0|] eqn:E.
  - now rewrite (keys_setProp_present o k v v0 E).
  - rewrite (keys_setProp_absent o k v E), map_app. simpl.
    apply NoDup_app_remove_l with (l := []). simpl.
    apply Permutation_NoDup with (l := k :: map fst o).
    + apply Permutation_cons_append.
    + constructor; [now apply getProp_None_notin | exact Hnd].
Qed.

Lemma in_setProp o k v k' v' :
  In (k', v') (Js.setProp o k v) ->
  (k' = k /\ v' = v) \/ In (k', v') o.
Proof.
  induction o as [|[k0 v0] o IH]; simpl.
  - intros [[= <- <-] | []]. now left.
  - destruct (String.eqb_spec k0 k) as [->|Hne]; simpl.
    + intros [[= <- <-] | Hin]; [now left | now right; right].
    + intros [Heq | Hin]; [now right; left|].
      destruct (IH Hin) as [H | H]; [now left | now right; right].
Qed.

Lemma expand_setProp_absent {B} (f : V -> list B) o k v :
  Js.getProp o k = None ->
  expand f (Js.setProp o k v) = expand f o ++ f v.
Proof.
  intros H. rewrite (keys_setProp_absent o k v H).
  unfold expand. rewrite flat_map_app. simpl. now rewrite app_nil_r.
Qed.

Lemma expand_setProp_present {B} (f : V -> list B) o k v v0 :
  Js.getProp o k = Some v0 ->
  Permutation (f v0 ++ expand f (Js.setProp o k v)) (f v ++ expand f o).
Proof.
  unfold expand. induction o as [|[k' v'] o IH]; simpl; [discriminate|].
  destruct (String.eqb_spec k' k) as [->|Hne]; simpl.
  - intros [= ->].
    rewrite !app_assoc. apply Permutation_app_tail, Permutation_app_comm.
  - intros H. specialize (IH H).
    rewrite (Permutation_app_swap_app (f v0)), IH.
    apply Permutation_app_swap_app.
Qed.

Lemma expand_by_keys {B} (f : V -> list B) o :
  NoDup (map fst o) ->
  flat_map (fun k => match Js.getProp o k with
                     | Some v => f v
                     | None => []
                     end) (map fst o)
  = expand f o.
Proof.
  intros Hnd. unfold expand.
  assert (H : forall l, incl l o ->
            flat_map (fun k => match Js.getProp o k with
                               | Some v => f v
                               | None => []
                               end) (map fst l)
            = flat_map (fun kv => f (snd kv)) l).
  { induction l as [|[k v] l IH]; intros Hincl; simpl; [reflexivity|].
    rewrite (getProp_of_entry o k v Hnd) by (apply Hincl; now left).
    f_equal. apply IH. intros x Hx. apply Hincl. now right. }
  apply H, incl_refl.
Qed.

End ObjFacts.

(** ** Sorting and key enumeration *)

Lemma insertSorted_perm {A} (cmp : A -> A -> Z) (x : A) (l : list A) :
  Permutation (Js.insertSorted cmp x l) (x :: l).
Proof.
  induction l as [|y l IH]; simpl; [reflexivity|].
  destruct (0 <? cmp x y)%Z; [|reflexivity].
  rewrite IH. apply perm_swap.
Qed.

Lemma sort_perm {A} (cmp : A -> A -> Z) (l : list A) :
  Permutation (Js.sort cmp l) l.
Proof.
  induction l as [|x l IH]; simpl; [reflexivity|].
  rewrite insertSorted_perm. now constructor.
Qed.

Lemma filter_split_perm {A} (p : A -> bool) (l : list A) :
  Permutation (List.filter p l ++ List.filter (fun x => negb (p x)) l) l.
Proof.
  induction l as [|x l IH]; simpl; [reflexivity|].
  destruct (p x); simpl.
  - now constructor.
  - rewrite <- Permutation_middle. now constructor.
Qed.

Lemma keys_perm {V} (o : Js.Obj V) : Permutation (Js.keys o) (map fst o).
Proof.
  unfold Js.keys. rewrite sort_perm. apply filter_split_perm.
Qed.

Lemma flat_map_map {A B C} (f : B -> list C) (g : A -> B) (l : list A) :
  flat_map f (map g l) = flat_map (fun x => f (g x)) l.
Proof.
  induction l as [|x l IH]; simpl; [reflexivity | now rewrite IH].
Qed.

Lemma flat_map_pointwise_perm {A B} (f g : A -> list B) (l : list A) :
  (forall x, In x l -> Permutation (f x) (g x)) ->
  Permutation (flat_map f l) (flat_map g l).
Proof.
  induction l as [|x l IH]; intros H; simpl; [reflexivity|].
  apply Permutation_app; [apply H; now left|].
  apply IH. intros y Hy. apply H. now right.
Qed.

(** ** The normalizer keeps every token *)

Lemma pushToken_uniqueKeys (gm : GroupMap) (g sg : string) (t : Token.t) :
  uniqueKeys gm -> uniqueKeys (pushToken gm g sg t).
Proof.
  intros [Hk Hs]. unfold pushToken.
  set (gm1 := match Js.getProp gm g with
              | Some _ => gm
              | None => Js.setProp gm g []
              end).
  assert (H1 : uniqueKeys gm1).
  { subst gm1. destruct (Js.getProp gm g); [now split|].
    split; [now apply NoDup_keys_setProp|].
    intros g' subs Hin. apply in_setProp in Hin.
    destruct Hin as [[_ ->] | Hin]; [constructor | eauto]. }
  destruct H1 as [Hk1 Hs1].
  set (subs := match Js.getProp gm1 g with Some s => s | None => [] end).
  assert (Hsubs : NoDup (map fst subs)).
  { subst subs. destruct (Js.getProp gm1 g) as [s|] eqn:E; [|constructor].
    apply (Hs1 g). now apply getProp_Some_in. }
  set (subs1 := match Js.getProp subs sg with
                | Some _ => subs
                | None => Js.setProp subs sg []
                end).
  assert (Hsubs1 : NoDup (map fst subs1)).
  { subst subs1. destruct (Js.getProp subs sg);
      [exact Hsubs | now apply NoDup_keys_setProp]. }
  split; [now apply NoDup_keys_setProp|].
  intros g' s' Hin. apply in_setProp in Hin.
  destruct Hin as [[_ ->] | Hin]; [now apply NoDup_keys_setProp | eauto].
Qed.

Lemma pushToken_heldTokens (gm : GroupMap) (g sg : string) (t : Token.t) :
  Permutation (heldTokens (pushToken gm g sg t)) (t :: heldTokens gm).
Proof.
  unfold pushToken, heldTokens.
  set (buckets := expand (fun bucket : list Token.t => bucket)).
  set (gm1 := match Js.getProp gm g with
              | Some _ => gm
              | None => Js.setProp gm g []
              end).
  assert (Hgm1 : expand buckets gm1 = expand buckets gm).
  { subst gm1. destruct (Js.getProp gm g) eqn:E; [reflexivity|].
    rewrite expand_setProp_absent by exact E. apply app_nil_r. }
  assert (Hg : exists s, Js.getProp gm1 g = Some s).
  { subst gm1. destruct (Js.getProp gm g) as [s|] eqn:E.
    - now exists s.
    - exists []. apply getProp_setProp_same. }
  destruct Hg as [subs Hsubs]. rewrite Hsubs.
  set (subs1 := match Js.getProp subs sg with
                | Some _ => subs
                | None => Js.setProp subs sg []
                end).
  assert (Hsubs1 : buckets subs1 = buckets subs).
  { subst subs1 buckets. destruct (Js.getProp subs sg) eqn:E; [reflexivity|].
    rewrite expand_setProp_absent by exact E. apply app_nil_r. }
  assert (Hb : exists b, Js.getProp subs1 sg = Some b).
  { subst subs1. destruct (Js.getProp subs sg) as [b|] eqn:E.
    - now exists b.
    - exists []. apply getProp_setProp_same. }
  destruct Hb as [bucket Hbucket]. rewrite Hbucket.
  assert (Hnew : Permutation (buckets (Js.setProp subs1 sg (bucket ++ [t])))
                             (t :: buckets subs)).
  { apply Permutation_app_inv_l with (l := bucket).
    rewrite <- Hsubs1. subst buckets.
    rewrite (expand_setProp_present (fun b : list Token.t => b)
               subs1 sg (bucket ++ [t]) bucket Hbucket).
    rewrite <- app_assoc. apply Permutation_app_head.
    simpl. reflexivity. }
  apply Permutation_app_inv_l with (l := buckets subs).
  rewrite (expand_setProp_present buckets gm1 g _ subs Hsubs).
  rewrite Hnew, Hgm1. simpl. apply Permutation_middle.
Qed.

Lemma groupStep_keeps (acc : GroupMap * list Token.t) (t : Token.t) :
  uniqueKeys (fst acc) ->
  uniqueKeys (fst (groupStep acc t))
  /\ Permutation (heldTokens (fst (groupStep acc t)) ++ snd (groupStep acc t))
                 (t :: heldTokens (fst acc) ++ snd acc).
Proof.
  destruct acc as [gm ung]. simpl. intros Hu.
  destruct (groups (parseTokenName t)) as [|g [|sg rest]]; simpl.
  - split; [exact Hu|].
    rewrite app_assoc. apply Permutation_sym, Permutation_cons_append.
  - split; [now apply pushToken_uniqueKeys|].
    now rewrite pushToken_heldTokens.
  - split; [now apply pushToken_uniqueKeys|].
    now rewrite pushToken_heldTokens.
Qed.

Lemma groupFold_keeps (l : list Token.t) (acc : GroupMap * list Token.t) :
  uniqueKeys (fst acc) ->
  uniqueKeys (fst (fold_left groupStep l acc))
  /\ Permutation (heldTokens (fst (fold_left groupStep l acc))
                    ++ snd (fold_left groupStep l acc))
                 (heldTokens (fst acc) ++ snd acc ++ l).
Proof.
  revert acc. induction l as [|t l IH]; intros acc Hu; simpl.
  - split; [exact Hu | now rewrite app_nil_r].
  - destruct (groupStep_keeps acc t Hu) as [Hu' Hp].
    destruct (IH _ Hu') as [Hu'' Hp'].
    split; [exact Hu''|].
    rewrite Hp'. rewrite app_assoc, Hp. simpl.
    rewrite <- app_assoc. rewrite !app_assoc. apply Permutation_middle.
Qed.

Lemma flatten_app (a b : list GroupEntry) :
  flatten (a ++ b) = flatten a ++ flatten b.
Proof. apply flat_map_app. Qed.

Lemma flatten_groups (lc : string -> string -> Z) (gm : GroupMap) :
  uniqueKeys gm ->
  Permutation
    (flatten (map (fun groupName =>
                     Grouped groupName
                        (subgroupsOf lc (groupOf gm groupName)))
                  (Js.sort Js.defaultCompare (Js.keys gm))))
    (heldTokens gm).
Proof.
  intros [Hk Hs]. unfold flatten. rewrite flat_map_map.
  rewrite sort_perm, keys_perm.
  unfold heldTokens.
  rewrite <- (expand_by_keys _ gm Hk).
  apply flat_map_pointwise_perm. intros g Hg.
  unfold groupOf. destruct (Js.getProp gm g) as [subs|] eqn:E.
  - assert (Hnd : NoDup (map fst subs))
      by (apply (Hs g); now apply getProp_Some_in).
    unfold subgroupsOf. rewrite flat_map_map. cbn [sgTokens].
    rewrite sort_perm, keys_perm.
    unfold bucketOf. now rewrite (expand_by_keys _ subs Hnd).
  - reflexivity.
Qed.

(** Grouping and flattening keeps every token, with its multiplicity. *)
Lemma flatten_groupTokens_perm (lc : string -> string -> Z)
      (tokenList : list Token.t) :
  Permutation (flatten (groupTokens lc tokenList)) tokenList.
Proof.
  unfold groupTokens.
  assert (Hu : uniqueKeys (fst (([], []) : GroupMap * list Token.t))).
  { split; [constructor | intros g subs []]. }
  destruct (groupFold_keeps tokenList ([], []) Hu) as [Hu' Hp].
  destruct (fold_left groupStep tokenList ([], [])) as [gm ung].
  simpl in Hu', Hp. rewrite <- Hp.
  destruct ung as [|u ung]; simpl.
  - rewrite app_nil_r. now apply flatten_groups.
  - rewrite flatten_app. apply Permutation_app; [now apply flatten_groups|].
    unfold flatten. simpl. now rewrite app_nil_r.
Qed.

(** ** Filtering *)

Lemma in_map_TokenItem (t : Token.t) (l : list Token.t) :
  In (TokenItem t) (map TokenItem l) <-> In t l.
Proof.
  rewrite in_map_iff. split.
  - intros (x & [= ->] & Hx). exact Hx.
  - intros H. now exists t.
Qed.

Lemma in_map_CategoryItem (c : Category.t) (l : list Category.t) :
  In (CategoryItem c) (map CategoryItem l) <-> In c l.
Proof.
  rewrite in_map_iff. split.
  - intros (x & [= ->] & Hx). exact Hx.
  - intros H. now exists c.
Qed.

(** C6.  For every filter text and catalog snapshot.  At top level the
    items are the declared categories that have at least one token and
    whose label contains the filter text, letter case aside, and they are
    the visible list.  Inside a category the items are exactly the tokens
    of that category whose label ([label || name]) contains the filter
    text, letter case aside; the visible list, which the grouping
    reorders, holds the same items whenever the render does not raise. *)
Theorem visible_items_match_the_filter `{casing : Js.CaseMapping} :
  forall (lc : string -> string -> Z) (props : Props) (st : EditorState),
    (activeCategory st = None ->
     (forall c : Category.t,
         In (CategoryItem c) (currentItems props st)
         <-> In c (categories props)
             /\ Category.tokens c <> []
             /\ containsIgnoringCase (Category.label c) (filter st))
     /\ (forall t : Token.t, ~ In (TokenItem t) (currentItems props st))
     /\ visibleItems lc props st = currentItems props st)
    /\ (forall cat : Category.t,
           activeCategory st = Some cat ->
           (forall t : Token.t,
               In (TokenItem t) (currentItems props st)
               <-> In t (Category.tokens cat)
                   /\ containsIgnoringCase (tokenLabel t) (filter st))
           /\ (forall c : Category.t,
                  ~ In (CategoryItem c) (currentItems props st))
           /\ (renderRaises st = false ->
               Permutation (visibleItems lc props st)
                           (currentItems props st))).
Proof.
  intros lc props st. split.
  - intros Hc. unfold visibleItems, currentItems. rewrite Hc.
    split; [|split; [|reflexivity]].
    + intros c. rewrite in_map_CategoryItem, filter_In.
      destruct (Category.tokens c) as [|t0 ts] eqn:Et; simpl.
      * split; [intros [_ H]; discriminate | intros (_ & H & _); congruence].
      * rewrite matchesFilter_iff. split.
        -- intros [H1 H2]. repeat split; [exact H1 | discriminate | exact H2].
        -- intros (H1 & _ & H2). now split.
    + intros t Hin. apply in_map_iff in Hin.
      destruct Hin as (x & Hx & _). discriminate.
  - intros cat Hc. split; [|split].
    + intros t. unfold currentItems, getFilteredTokens. rewrite Hc.
      rewrite in_map_TokenItem, filter_In. now rewrite matchesFilter_iff.
    + intros c Hin. unfold currentItems in Hin. rewrite Hc in Hin.
      apply in_map_iff in Hin. destruct Hin as (x & Hx & _). discriminate.
    + intros _. unfold visibleItems, flattenedTokens, groupedTokens,
        currentItems.
      rewrite Hc. apply Permutation_map, flatten_groupTokens_perm.
Qed.

Lemma visible_items_match_the_filter_witness :
  (In (CategoryItem colourCategory)
      (currentItems sampleColOnly sampleColTyped)
   <-> In colourCategory (categories sampleColOnly)
       /\ Category.tokens colourCategory <> []
       /\ containsIgnoringCase (Category.label colourCategory) "col")
  /\ (In (TokenItem (tk "Text/Primary"))
         (currentItems sampleProps sampleTriggered)
      <-> In (tk "Text/Primary") sampleColours
          /\ containsIgnoringCase "Text/Primary" "pri")
  /\ Permutation (visibleItems sampleCompare sampleProps sampleTriggered)
                 (currentItems sampleProps sampleTriggered).
Proof.
  split; [|split].
  - exact (proj1 (proj1 (visible_items_match_the_filter
                           sampleCompare sampleColOnly sampleColTyped)
                        eq_refl) colourCategory).
  - exact (proj1 (proj2 (visible_items_match_the_filter
                           sampleCompare sampleProps sampleTriggered)
                        colourCategory eq_refl)
                 (tk "Text/Primary")).
  - exact (proj2 (proj2 (proj2 (visible_items_match_the_filter
                                  sampleCompare sampleProps sampleTriggered)
                               colourCategory eq_refl))
                 eq_refl).
Defined.

(** Typing [/col] with three colours and no spacing tokens shows the
    colour row only. *)
Example col_shows_only_the_colour_row :
  visibleItems sampleCompare sampleColOnly sampleColTyped
  = [CategoryItem colourCategory].
Proof. reflexivity. Qed.

(** ** The grouped list *)

(** The catalog of the specification's scenario. *)
Example scenario_group_tree :
  forall lc : string -> string -> Z,
    groupTokens lc [tk "Text/Primary"; tk "Text/Secondary"; tk "Primary Blue"]
    = [Grouped "Text"
         [mkSubgroup None [tk "Text/Primary"; tk "Text/Secondary"]];
       Ungrouped [tk "Primary Blue"]].
Proof. intros lc. reflexivity. Qed.

(** C5 (where the code departs from it).  A token whose second path
    segment is the word the normalizer reserves for the implicit bucket,
    [__none__], is filed in that bucket, together with the one-segment
    tokens of the group, and its subgroup label comes out as null instead
    of the second segment. *)
Theorem reserved_subgroup_name_is_folded_into_none :
  forall lc : string -> string -> Z,
    groups (parseTokenName (tk "Brand/__none__/Blue")) = ["Brand"; "__none__"]
    /\ groupTokens lc [tk "Brand/Red"; tk "Brand/__none__/Blue"]
       = [Grouped "Brand"
            [mkSubgroup None [tk "Brand/Red"; tk "Brand/__none__/Blue"]]].
Proof. intros lc. split; reflexivity. Qed.

(** ** The shape of the grouped list *)

Lemma insertSorted_sorted {A} (cmp : A -> A -> Z) :
  (forall a b, (0 < cmp a b)%Z -> (cmp b a <= 0)%Z) ->
  forall x l,
    Sorted (fun a b => (cmp a b <= 0)%Z) l ->
    Sorted (fun a b => (cmp a b <= 0)%Z) (Js.insertSorted cmp x l).
Proof.
  intros Hcons x l. induction l as [|y l IH]; intros Hs; simpl.
  - repeat constructor.
  - destruct (Z.ltb_spec 0 (cmp x y)) as [Hgt | Hle].
    + inversion Hs as [|? ? Hs' Hhd]; subst.
      constructor; [now apply IH|].
      destruct l as [|z l]; simpl.
      * constructor. now apply Hcons.
      * destruct (0 <? cmp x z)%Z.
        -- inversion Hhd; subst. now constructor.
        -- constructor. now apply Hcons.
    + constructor; [exact Hs | now constructor].
Qed.

Lemma sort_sorted {A} (cmp : A -> A -> Z) (l : list A) :
  (forall a b, (0 < cmp a b)%Z -> (cmp b a <= 0)%Z) ->
  Sorted (fun a b => (cmp a b <= 0)%Z) (Js.sort cmp l).
Proof.
  intros Hcons. induction l as [|x l IH]; simpl.
  - constructor.
  - now apply insertSorted_sorted.
Qed.

Lemma defaultCompare_consistent (a b : string) :
  (0 < Js.defaultCompare a b)%Z -> (Js.defaultCompare b a <= 0)%Z.
Proof.
  unfold Js.defaultCompare. rewrite (String.compare_antisym a b).
  destruct (String.compare b a); simpl; lia.
Qed.

Lemma sorted_strict (l : list string) :
  NoDup l ->
  Sorted (fun a b => (Js.defaultCompare a b <= 0)%Z) l ->
  Sorted (fun a b => String.compare a b = Lt) l.
Proof.
  induction l as [|x l IH]; intros Hnd Hs; [constructor|].
  inversion Hnd as [|? ? Hnot Hnd']; subst.
  inversion Hs as [|? ? Hs' Hhd]; subst.
  constructor; [now apply IH|].
  destruct l as [|y l]; constructor.
  inversion Hhd as [|? ? Hle]; subst.
  unfold Js.defaultCompare in Hle.
  destruct (String.compare x y) eqn:E; [|reflexivity|lia].
  apply String.compare_eq_iff in E. subst. exfalso. apply Hnot. now left.
Qed.

(** [__none__], when it is a key, is sorted to the front, whatever the
    collation says. *)
Lemma sort_none_first (lc : string -> string -> Z) (l : list string) :
  NoDup l ->
  match Js.sort (subgroupCompare lc) l with
  | [] => True
  | _ :: rest => ~ In noneKey rest
  end.
Proof.
  induction l as [|x l IH]; intros Hnd; simpl; [exact I|].
  inversion Hnd as [|? ? Hnot Hnd']; subst. specialize (IH Hnd').
  assert (Hy : forall y r, Js.sort (subgroupCompare lc) l = y :: r -> In y l).
  { intros y r E. apply (Permutation_in _ (sort_perm (subgroupCompare lc) l)).
    rewrite E. now left. }
  destruct (Js.sort (subgroupCompare lc) l) as [|y r]; simpl; [tauto|].
  specialize (Hy y r eq_refl).
  destruct (0 <? subgroupCompare lc x y)%Z eqn:E.
  - intros Hin.
    apply (Permutation_in _ (insertSorted_perm (subgroupCompare lc) x r))
      in Hin.
    destruct Hin as [-> | Hin]; [|contradiction].
    unfold subgroupCompare in E. now rewrite String.eqb_refl in E.
  - intros [-> | Hin]; [|contradiction].
    unfold subgroupCompare in E.
    destruct (String.eqb_spec x noneKey) as [->|Hx]; [contradiction|].
    now rewrite String.eqb_refl in E.
Qed.

Lemma getProp_ensure {X} (o : Js.Obj (list X)) (k k' : string) :
  match Js.getProp (match Js.getProp o k with
                    | Some _ => o
                    | None => Js.setProp o k []
                    end) k' with
  | Some v => v
  | None => []
  end
  = match Js.getProp o k' with
    | Some v => v
    | None => []
    end.
Proof.
  destruct (Js.getProp o k) eqn:E; [reflexivity|].
  destruct (string_dec k k') as [<-|Hne].
  - now rewrite getProp_setProp_same, E.
  - now rewrite getProp_setProp_other.
Qed.

Lemma pushToken_eq (gm : GroupMap) (g sg : string) (t : Token.t) :
  pushToken gm g sg t
  = Js.setProp (match Js.getProp gm g with
                | Some _ => gm
                | None => Js.setProp gm g []
                end) g
      (Js.setProp (match Js.getProp (groupOf gm g) sg with
                   | Some _ => groupOf gm g
                   | None => Js.setProp (groupOf gm g) sg []
                   end) sg
         (bucket gm g sg ++ [t])).
Proof.
  unfold pushToken, bucket, bucketOf, groupOf. cbv zeta.
  destruct (Js.getProp gm g) as [subs|] eqn:Eg.
  - rewrite Eg. destruct (Js.getProp subs sg) as [b|] eqn:Es.
    + now rewrite Es.
    + now rewrite getProp_setProp_same.
  - rewrite getProp_setProp_same. simpl. now rewrite String.eqb_refl.
Qed.

Lemma groupOf_setProp (gm : GroupMap) (g g' : string)
      (subs : Js.Obj (list Token.t)) :
  groupOf (Js.setProp gm g subs) g'
  = if (g' =? g)%string then subs else groupOf gm g'.
Proof.
  unfold groupOf. destruct (String.eqb_spec g' g) as [->|Hne].
  - now rewrite getProp_setProp_same.
  - now rewrite getProp_setProp_other by congruence.
Qed.

Lemma bucketOf_setProp (subs : Js.Obj (list Token.t)) (sg sg' : string)
      (b : list Token.t) :
  bucketOf (Js.setProp subs sg b) sg'
  = if (sg' =? sg)%string then b else bucketOf subs sg'.
Proof.
  unfold bucketOf. destruct (String.eqb_spec sg' sg) as [->|Hne].
  - now rewrite getProp_setProp_same.
  - now rewrite getProp_setProp_other by congruence.
Qed.

Lemma groupOf_ensure (gm : GroupMap) (g g' : string) :
  groupOf (match Js.getProp gm g with
           | Some _ => gm
           | None => Js.setProp gm g []
           end) g'
  = groupOf gm g'.
Proof. exact (getProp_ensure gm g g'). Qed.

Lemma bucketOf_ensure (subs : Js.Obj (list Token.t)) (sg sg' : string) :
  bucketOf (match Js.getProp subs sg with
            | Some _ => subs
            | None => Js.setProp subs sg []
            end) sg'
  = bucketOf subs sg'.
Proof. exact (getProp_ensure subs sg sg'). Qed.

Lemma pushToken_bucket (gm : GroupMap) (g sg : string) (t : Token.t)
      (g' sg' : string) :
  bucket (pushToken gm g sg t) g' sg'
  = if (g' =? g)%string && (sg' =? sg)%string
    then bucket gm g sg ++ [t]
    else bucket gm g' sg'.
Proof.
  rewrite pushToken_eq. unfold bucket at 1. rewrite groupOf_setProp.
  destruct (String.eqb_spec g' g) as [->|Hg]; simpl.
  - rewrite bucketOf_setProp.
    destruct (String.eqb_spec sg' sg) as [->|Hs]; [reflexivity|].
    apply bucketOf_ensure.
  - now rewrite groupOf_ensure.
Qed.

Lemma groupStep_slot (gm : GroupMap) (ung : list Token.t) (t : Token.t) :
  groupStep (gm, ung) t
  = match slot t with
    | None => (gm, ung ++ [t])
    | Some (g, sg) => (pushToken gm g sg t, ung)
    end.
Proof.
  unfold groupStep, slot.
  now destruct (groups (parseTokenName t)) as [|g [|sg rest]].
Qed.

Lemma groupFold_buckets (l : list Token.t) (gm : GroupMap)
      (ung : list Token.t) :
  (forall g sg,
      bucket (fst (fold_left groupStep l (gm, ung))) g sg
      = bucket gm g sg ++ List.filter (inSlot g sg) l)
  /\ snd (fold_left groupStep l (gm, ung))
     = ung ++ List.filter isUngrouped l.
Proof.
  revert gm ung. induction l as [|t l IH]; intros gm ung;
    cbn [fold_left List.filter].
  - split; [intros g sg|]; now rewrite app_nil_r.
  - rewrite groupStep_slot. unfold inSlot, isUngrouped.
    destruct (slot t) as [[g0 sg0]|] eqn:E.
    + destruct (IH (pushToken gm g0 sg0 t) ung) as [IH1 IH2].
      split; [|exact IH2].
      intros g sg. rewrite IH1, pushToken_bucket.
      rewrite (String.eqb_sym g g0), (String.eqb_sym sg sg0).
      destruct (String.eqb_spec g0 g) as [->|Hg]; simpl; [|reflexivity].
      destruct (String.eqb_spec sg0 sg) as [->|Hs]; simpl; [|reflexivity].
      now rewrite <- app_assoc.
    + destruct (IH gm (ung ++ [t])) as [IH1 IH2].
      split; [exact IH1|]. rewrite IH2. now rewrite <- app_assoc.
Qed.

Lemma bucket_nonempty_keys (gm : GroupMap) (g sg : string) (t : Token.t) :
  In t (bucket gm g sg) ->
  In g (map fst gm) /\ In sg (map fst (groupOf gm g)).
Proof.
  unfold bucket, groupOf, bucketOf.
  destruct (Js.getProp gm g) as [subs|] eqn:Eg; [|intros []].
  destruct (Js.getProp subs sg) as [b|] eqn:Es; [|intros []].
  intros _. split.
  - apply in_map_iff. exists (g, subs). split; [reflexivity|].
    now apply getProp_Some_in.
  - apply in_map_iff. exists (sg, b). split; [reflexivity|].
    now apply getProp_Some_in.
Qed.

Lemma keyOfLabel_of_key (k : string) :
  keyOfLabel (if (k =? noneKey)%string then None else Some k) = k.
Proof.
  destruct (String.eqb_spec k noneKey) as [->|Hne]; reflexivity.
Qed.

Lemma subgroupsOf_noneFirst (lc : string -> string -> Z)
      (subs : Js.Obj (list Token.t)) :
  NoDup (map fst subs) -> noneFirst (subgroupsOf lc subs).
Proof.
  intros Hnd. unfold subgroupsOf, noneFirst.
  assert (Hk : NoDup (Js.keys subs)).
  { apply Permutation_NoDup with (l := map fst subs);
      [apply Permutation_sym, keys_perm | exact Hnd]. }
  pose proof (sort_none_first lc (Js.keys subs) Hk) as H.
  destruct (Js.sort (subgroupCompare lc) (Js.keys subs)) as [|k rest];
    simpl; [exact I|].
  apply Forall_forall. intros s Hs. apply in_map_iff in Hs.
  destruct Hs as (k' & <- & Hin). simpl.
  destruct (String.eqb_spec k' noneKey) as [->|Hne];
    [contradiction | discriminate].
Qed.

(** What the normalizer builds, for every token list: the groups, their
    names in strictly ascending code-unit order, then the ungrouped
    tokens, if any, in one trailing entry; inside a group the unlabelled
    subgroup first; every subgroup holds, in input order, the tokens
    filed under its keys, and every token with a separator in its name
    is in the subgroup of its keys. *)
Theorem groupTokens_shape :
  forall (lc : string -> string -> Z) (tokenList : list Token.t),
  exists grouped : list GroupEntry,
    groupTokens lc tokenList
    = grouped
        ++ (if Nat.ltb 0 (List.length (List.filter isUngrouped tokenList))
            then [Ungrouped (List.filter isUngrouped tokenList)]
            else [])
    /\ Forall isGrouped grouped
    /\ Sorted (fun a b => String.compare a b = Lt) (map entryName grouped)
    /\ (forall g sgs,
           In (Grouped g sgs) grouped ->
           noneFirst sgs
           /\ forall s, In s sgs ->
                        sgTokens s
                        = List.filter (inSlot g (keyOfLabel (subgroup s)))
                                      tokenList)
    /\ (forall t g sg,
           In t tokenList -> slot t = Some (g, sg) ->
           exists sgs s,
             In (Grouped g sgs) grouped /\ In s sgs
             /\ keyOfLabel (subgroup s) = sg /\ In t (sgTokens s)).
Proof.
  intros lc l. unfold groupTokens.
  assert (Hu0 : uniqueKeys (fst (([], []) : GroupMap * list Token.t))).
  { split; [constructor | intros g subs []]. }
  match goal with
  | |- context [fold_left groupStep l ?init] =>
      set (r := fold_left groupStep l init)
  end.
  assert (HK : uniqueKeys (fst r))
    by exact (proj1 (groupFold_keeps l ([], []) Hu0)).
  assert (HB : (forall g sg, bucket (fst r) g sg = List.filter (inSlot g sg) l)
               /\ snd r = List.filter isUngrouped l)
    by exact (groupFold_buckets l [] []).
  clearbody r. destruct r as [gm ung].
  destruct HK as [Hk Hs]. destruct HB as [Hb Hung].
  simpl in Hk, Hs, Hb, Hung. subst ung.
  assert (Hkeys : NoDup (Js.sort Js.defaultCompare (Js.keys gm))).
  { apply Permutation_NoDup with (l := map fst gm); [|exact Hk].
    apply Permutation_sym. rewrite sort_perm. apply keys_perm. }
  assert (Hsubs : forall g, NoDup (map fst (groupOf gm g))).
  { intros g. unfold groupOf.
    destruct (Js.getProp gm g) as [subs|] eqn:E; [|constructor].
    apply (Hs g). now apply getProp_Some_in. }
  eexists. split; [|split; [|split; [|split]]].
  - destruct (0 <? _); [reflexivity | now rewrite app_nil_r].
  - apply Forall_forall. intros e He. apply in_map_iff in He.
    now destruct He as (g & <- & _).
  - rewrite map_map. simpl. rewrite map_id.
    apply sorted_strict; [exact Hkeys|].
    apply sort_sorted, defaultCompare_consistent.
  - intros g sgs Hin. apply in_map_iff in Hin.
    destruct Hin as (g' & [= -> <-] & _). split.
    + apply subgroupsOf_noneFirst, Hsubs.
    + intros s Hin. unfold subgroupsOf in Hin. apply in_map_iff in Hin.
      destruct Hin as (k & <- & _). simpl.
      rewrite keyOfLabel_of_key. apply (Hb g k).
  - intros t g sg Hin Hslot.
    assert (Ht : In t (bucket gm g sg)).
    { rewrite Hb. simpl. apply filter_In. split; [exact Hin|].
      unfold inSlot. rewrite Hslot. now rewrite !String.eqb_refl. }
    destruct (bucket_nonempty_keys gm g sg t Ht) as [Hg Hsg].
    exists (subgroupsOf lc (groupOf gm g)).
    exists (mkSubgroup (if (sg =? noneKey)%string then None else Some sg)
                       (bucket gm g sg)).
    split; [|split; [|split]].
    + apply in_map_iff. exists g. split; [reflexivity|].
      apply (Permutation_in g (Permutation_sym (sort_perm _ _))).
      now apply (Permutation_in g (Permutation_sym (keys_perm gm))).
    + unfold subgroupsOf. apply in_map_iff. exists sg.
      split; [reflexivity|].
      apply (Permutation_in sg (Permutation_sym (sort_perm _ _))).
      now apply (Permutation_in sg (Permutation_sym (keys_perm _))).
    + apply keyOfLabel_of_key.
    + exact Ht.
Qed.

(** With a collation that never puts two names each after the other, the
    subgroup keys of every group are in the order of the comparator. *)
Lemma subgroupsOf_sorted (lc : string -> string -> Z)
      (subs : Js.Obj (list Token.t)) :
  (forall a b, (0 < lc a b)%Z -> (lc b a <= 0)%Z) ->
  Sorted (fun a b => (subgroupCompare lc a b <= 0)%Z)
         (map (fun s => keyOfLabel (subgroup s)) (subgroupsOf lc subs)).
Proof.
  intros Hlc. unfold subgroupsOf. rewrite map_map. simpl.
  rewrite (map_ext _ (fun k => k)) by (intros k; apply keyOfLabel_of_key).
  rewrite map_id. apply sort_sorted.
  intros a b. unfold subgroupCompare.
  destruct (String.eqb_spec a noneKey) as [->|Ha]; [lia|].
  destruct (String.eqb_spec b noneKey) as [->|Hb]; [lia|].
  apply Hlc.
Qed.

(* ================================================================== *)
(** * Further properties of the component *)
(* ================================================================== *)

(** ** Path names *)

Lemma split_nonempty (c : ascii) (s : string) : Js.split c s <> [].
Proof.
  induction s as [|d s IH]; simpl; [discriminate|].
  destruct (Ascii.eqb d c); [discriminate|].
  destruct (Js.split c s); [contradiction | discriminate].
Qed.

Lemma concat_cons_nonempty (sep x : string) (l : list string) :
  l <> [] ->
  String.concat sep (x :: l)
  = (x ++ (sep ++ String.concat sep l))%string.
Proof. destruct l; [contradiction | reflexivity]. Qed.

Lemma join_split (c : ascii) (s : string) :
  Js.join (String c EmptyString) (Js.split c s) = s.
Proof.
  unfold Js.join. induction s as [|d s IH]; simpl; [reflexivity|].
  destruct (Ascii.eqb_spec d c) as [->|Hne].
  - rewrite concat_cons_nonempty by apply split_nonempty.
    simpl. now rewrite IH.
  - pose proof (split_nonempty c s) as Hs.
    destruct (Js.split c s) as [|h t]; [contradiction|].
    destruct t as [|h' t]; simpl in *.
    + now rewrite IH.
    + now rewrite <- IH.
Qed.

Lemma includes_char_cons (c d : ascii) (r : string) :
  Js.includes (String d r) (String c EmptyString)
  = Ascii.eqb c d || Js.includes r (String c EmptyString).
Proof.
  rewrite includes_cons. f_equal. simpl.
  destruct (ascii_dec c d) as [->|Hne].
  - rewrite Ascii.eqb_refl. now destruct r.
  - now destruct (Ascii.eqb_spec c d).
Qed.

Lemma split_parts_clean (c : ascii) (s : string) :
  Forall (fun p => Js.includes p (String c EmptyString) = false)
         (Js.split c s).
Proof.
  induction s as [|d s IH]; cbn [Js.split].
  - repeat constructor.
  - destruct (Ascii.eqb_spec d c) as [->|Hne].
    + constructor; [reflexivity | exact IH].
    + destruct (Js.split c s) as [|h t]; [repeat constructor|].
      * rewrite includes_char_cons.
        destruct (Ascii.eqb_spec c d); [congruence | reflexivity].
      * inversion IH as [|? ? Hh Ht]; subst. constructor; [|exact Ht].
        rewrite includes_char_cons, Hh.
        destruct (Ascii.eqb_spec c d); [congruence | reflexivity].
Qed.

Lemma split_single_iff (c : ascii) (s : string) :
  List.length (Js.split c s) = 1
  <-> Js.includes s (String c EmptyString) = false.
Proof.
  induction s as [|d s IH].
  - split; reflexivity.
  - rewrite includes_char_cons, (Ascii.eqb_sym c d).
    pose proof (split_nonempty c s) as Hs. cbn [Js.split].
    destruct (Ascii.eqb d c); simpl.
    + destruct (Js.split c s); [contradiction|]. split; discriminate.
    + rewrite <- IH. destruct (Js.split c s); [contradiction | reflexivity].
Qed.

Lemma removelast_nil_single {A} (l : list A) :
  l <> [] -> removelast l = [] -> List.length l = 1.
Proof.
  destruct l as [|a [|b r]]; [contradiction | reflexivity |].
  simpl. discriminate.
Qed.

(** X1.  The parsed form of a token name loses nothing: the group
    segments followed by the display name, joined by the separator, give
    back the label; no segment and no display name contains a
    separator. *)
Theorem parseTokenName_round_trip :
  forall token : Token.t,
    Js.join "/" (groups (parseTokenName token)
                   ++ [displayName (parseTokenName token)])
    = tokenLabel token
    /\ Js.includes (displayName (parseTokenName token)) "/" = false
    /\ Forall (fun g => Js.includes g "/" = false)
              (groups (parseTokenName token)).
Proof.
  intros token. unfold parseTokenName.
  pose proof (split_nonempty "/" (tokenLabel token)) as Hne.
  pose proof (split_parts_clean "/" (tokenLabel token)) as Hclean.
  pose proof (join_split "/" (tokenLabel token)) as Hjoin.
  destruct (Nat.eqb_spec (List.length (Js.split "/" (tokenLabel token))) 1)
    as [H1 | H1]; cbn [groups displayName].
  - split; [reflexivity|]. split; [|constructor].
    now apply split_single_iff.
  - rewrite <- (app_removelast_last "" Hne). split; [exact Hjoin|].
    rewrite (app_removelast_last "" Hne) in Hclean.
    apply Forall_app in Hclean. destruct Hclean as [Hg Hd].
    split; [now inversion Hd | exact Hg].
Qed.

(** X2.  A token is ungrouped exactly when its label has no separator;
    its display name is then the whole label.  A label with a separator
    always has at least one group segment. *)
Theorem ungrouped_iff_no_separator :
  forall token : Token.t,
    (groups (parseTokenName token) = []
     <-> Js.includes (tokenLabel token) "/" = false)
    /\ (groups (parseTokenName token) = [] ->
        displayName (parseTokenName token) = tokenLabel token)
    /\ (isUngrouped token = true
        <-> Js.includes (tokenLabel token) "/" = false).
Proof.
  intros token.
  assert (H : groups (parseTokenName token) = []
              <-> Js.includes (tokenLabel token) "/" = false).
  { unfold parseTokenName.
    pose proof (split_single_iff "/" (tokenLabel token)) as Hs.
    destruct (Nat.eqb_spec (List.length (Js.split "/" (tokenLabel token))) 1)
      as [H1 | H1]; cbn [groups].
    - split; [intros _; now apply Hs | reflexivity].
    - split.
      + intros Hg. exfalso. apply H1.
        apply removelast_nil_single; [apply split_nonempty | exact Hg].
      + intros Hi. exfalso. apply H1. now apply Hs. }
  split; [exact H|]. split.
  - unfold parseTokenName.
    destruct (Nat.eqb_spec (List.length (Js.split "/" (tokenLabel token))) 1)
      as [H1 | H1]; cbn [groups displayName]; [reflexivity|].
    intros Hg. exfalso. apply H1.
    apply removelast_nil_single; [apply split_nonempty | exact Hg].
  - rewrite <- H. unfold isUngrouped, slot.
    destruct (groups (parseTokenName token)) as [|g [|sg r]];
      split; congruence.
Qed.

(** ** More on the grouped list *)

Lemma keys_ensure {X} (o : Js.Obj (list X)) (k k' : string) :
  In k' (map fst (match Js.getProp o k with
                  | Some _ => o
                  | None => Js.setProp o k []
                  end)) ->
  k' = k \/ In k' (map fst o).
Proof.
  destruct (Js.getProp o k) eqn:E; [now right|].
  rewrite (keys_setProp_absent o k [] E), map_app. simpl.
  intros H. apply in_app_or in H.
  destruct H as [H | [H | []]]; [now right | now left].
Qed.

Lemma keys_setProp_in {V} (o : Js.Obj V) (k k' : string) (v : V) :
  In k' (map fst (Js.setProp o k v)) -> k' = k \/ In k' (map fst o).
Proof.
  destruct (Js.getProp o k) as [v0|] eqn:E.
  - rewrite (keys_setProp_present o k v v0 E). now right.
  - rewrite (keys_setProp_absent o k v E), map_app. simpl.
    intros H. apply in_app_or in H.
    destruct H as [H | [H | []]]; [now right | now left].
Qed.

Lemma setProp_nonempty {V} (o : Js.Obj V) (k : string) (v : V) :
  Js.setProp o k v <> [].
Proof.
  destruct o as [|[k' v'] o]; simpl; [discriminate|].
  destruct (k' =? k)%string; discriminate.
Qed.

Lemma pushToken_filledMap (gm : GroupMap) (g sg : string) (t : Token.t) :
  filledMap gm -> filledMap (pushToken gm g sg t).
Proof.
  intros [Hg Hb]. split.
  - intros g' Hin. rewrite pushToken_eq in *.
    rewrite groupOf_setProp.
    destruct (String.eqb_spec g' g) as [->|Hne]; [apply setProp_nonempty|].
    rewrite groupOf_ensure. apply Hg.
    apply keys_setProp_in in Hin. destruct Hin as [-> | Hin]; [congruence|].
    apply keys_ensure in Hin. destruct Hin as [-> | Hin]; [congruence|].
    exact Hin.
  - intros g' k Hin. rewrite pushToken_bucket.
    rewrite pushToken_eq, groupOf_setProp in Hin.
    destruct (String.eqb_spec g' g) as [->|Hne]; cbn [andb].
    + destruct (String.eqb_spec k sg) as [->|Hk].
      * intros H. now destruct (bucket gm g sg).
      * apply Hb.
        apply keys_setProp_in in Hin. destruct Hin as [-> | Hin]; [congruence|].
        apply keys_ensure in Hin. destruct Hin as [-> | Hin]; [congruence|].
        exact Hin.
    + apply Hb. now rewrite groupOf_ensure in Hin.
Qed.

Lemma groupFold_filledMap (l : list Token.t) (gm : GroupMap)
      (ung : list Token.t) :
  filledMap gm -> filledMap (fst (fold_left groupStep l (gm, ung))).
Proof.
  revert gm ung. induction l as [|t l IH]; intros gm ung H;
    cbn [fold_left]; [exact H|].
  rewrite groupStep_slot.
  destruct (slot t) as [[g sg]|]; apply IH; [|exact H].
  now apply pushToken_filledMap.
Qed.

(** The grouped list as a function of the final group map. *)
Lemma groupTokens_entries (lc : string -> string -> Z) (l : list Token.t) :
  exists gm : GroupMap,
    uniqueKeys gm /\ filledMap gm
    /\ groupTokens lc l
       = map (fun g => Grouped g (subgroupsOf lc (groupOf gm g)))
             (Js.sort Js.defaultCompare (Js.keys gm))
           ++ (if Nat.ltb 0 (List.length (List.filter isUngrouped l))
               then [Ungrouped (List.filter isUngrouped l)]
               else [])
    /\ forall g sg, bucket gm g sg = List.filter (inSlot g sg) l.
Proof.
  unfold groupTokens.
  assert (Hu0 : uniqueKeys (fst (([], []) : GroupMap * list Token.t))).
  { split; [constructor | intros g subs []]. }
  assert (Hf0 : filledMap []).
  { split; [intros g [] | intros g k []]. }
  match goal with
  | |- context [fold_left groupStep l ?init] =>
      set (r := fold_left groupStep l init)
  end.
  assert (HK : uniqueKeys (fst r))
    by exact (proj1 (groupFold_keeps l ([], []) Hu0)).
  assert (HF : filledMap (fst r))
    by exact (groupFold_filledMap l [] [] Hf0).
  assert (HU : snd r = List.filter isUngrouped l)
    by exact (proj2 (groupFold_buckets l [] [])).
  assert (HB : forall g sg,
             bucket (fst r) g sg = List.filter (inSlot g sg) l)
    by exact (proj1 (groupFold_buckets l [] [])).
  clearbody r. destruct r as [gm ung]. simpl in HK, HF, HU, HB. subst ung.
  exists gm. split; [exact HK|]. split; [exact HF|]. split; [|exact HB].
  destruct (0 <? _); [reflexivity | now rewrite app_nil_r].
Qed.

Lemma subgroupsOf_filled (lc : string -> string -> Z) (gm : GroupMap)
      (g : string) :
  filledMap gm -> In g (map fst gm) ->
  entryFilled (Grouped g (subgroupsOf lc (groupOf gm g))).
Proof.
  intros [Hg Hb] Hin. unfold entryFilled, subgroupsOf. split.
  - intros Hnil. apply (Hg g Hin).
    apply map_eq_nil in Hnil.
    assert (Hp : Permutation (map fst (groupOf gm g)) [])
      by (rewrite <- Hnil, sort_perm; apply Permutation_sym, keys_perm).
    apply Permutation_sym, Permutation_nil in Hp.
    now apply map_eq_nil in Hp.
  - apply Forall_forall. intros s Hs. apply in_map_iff in Hs.
    destruct Hs as (k & <- & Hk). cbn [sgTokens].
    apply (Hb g k).
    apply (Permutation_in k (sort_perm (subgroupCompare lc) _)) in Hk.
    now apply (Permutation_in k (keys_perm _)) in Hk.
Qed.

(** X3.  The grouped list has no empty part: every group has at least one
    subgroup, every subgroup at least one token, and the trailing
    ungrouped entry exists only when it holds a token. *)
Theorem groupTokens_has_no_empty_part :
  forall (lc : string -> string -> Z) (tokenList : list Token.t)
         (e : GroupEntry),
    In e (groupTokens lc tokenList) -> entryFilled e.
Proof.
  intros lc l e Hin.
  destruct (groupTokens_entries lc l) as (gm & HK & HF & E & _).
  rewrite E in Hin. apply in_app_or in Hin. destruct Hin as [Hin | Hin].
  - apply in_map_iff in Hin. destruct Hin as (g & <- & Hg).
    apply subgroupsOf_filled; [exact HF|].
    apply (Permutation_in g (sort_perm Js.defaultCompare _)) in Hg.
    now apply (Permutation_in g (keys_perm _)) in Hg.
  - destruct (List.filter isUngrouped l) as [|u us] eqn:Eu; simpl in Hin.
    + contradiction.
    + destruct Hin as [<- | []]. simpl. discriminate.
Qed.

Lemma groupTokens_has_no_empty_part_witness :
  entryFilled (Grouped "Text"
                 [mkSubgroup None [tk "Text/Primary"; tk "Text/Secondary"]])
  /\ entryFilled (Ungrouped [tk "Primary Blue"]).
Proof.
  split.
  - apply (groupTokens_has_no_empty_part sampleCompare sampleColours).
    left. reflexivity.
  - apply (groupTokens_has_no_empty_part sampleCompare sampleColours).
    right. left. reflexivity.
Defined.

(** X4.  With a collation that never puts two names each after the other,
    the subgroups of every group come in the order of the comparator of
    the code: the unlabelled one first, the named ones by the collation. *)
Theorem groupTokens_subgroups_in_collation_order :
  forall (lc : string -> string -> Z) (tokenList : list Token.t)
         (g : string) (sgs : list Subgroup),
    (forall a b, (0 < lc a b)%Z -> (lc b a <= 0)%Z) ->
    In (Grouped g sgs) (groupTokens lc tokenList) ->
    Sorted (fun a b => (subgroupCompare lc a b <= 0)%Z)
           (map (fun s => keyOfLabel (subgroup s)) sgs)
    /\ NoDup (map (fun s => keyOfLabel (subgroup s)) sgs).
Proof.
  intros lc l g sgs Hlc Hin.
  destruct (groupTokens_entries lc l) as (gm & [HK HS] & _ & E & _).
  rewrite E in Hin. apply in_app_or in Hin. destruct Hin as [Hin | Hin].
  - apply in_map_iff in Hin. destruct Hin as (g' & [= -> <-] & _).
    split; [now apply subgroupsOf_sorted|].
    unfold subgroupsOf. rewrite map_map. cbn [subgroup].
    rewrite (map_ext _ (fun k => k)) by (intros k; apply keyOfLabel_of_key).
    rewrite map_id.
    apply Permutation_NoDup with (l := map fst (groupOf gm g)).
    + apply Permutation_sym. rewrite sort_perm. apply keys_perm.
    + unfold groupOf. destruct (Js.getProp gm g) as [subs|] eqn:Eg;
        [|constructor].
      apply (HS g). now apply getProp_Some_in.
  - destruct (0 <? _); [|contradiction].
    destruct Hin as [Hin | []]. discriminate.
Qed.

Lemma sampleCompare_consistent (a b : string) :
  (0 < sampleCompare a b)%Z -> (sampleCompare b a <= 0)%Z.
Proof. apply defaultCompare_consistent. Qed.

Lemma groupTokens_subgroups_in_collation_order_witness :
  Sorted (fun a b => (subgroupCompare sampleCompare a b <= 0)%Z)
         ["__none__"; "Bold"; "Regular"].
Proof.
  apply (proj1 (groupTokens_subgroups_in_collation_order
                  sampleCompare
                  [tk "Body/Regular/Body 1"; tk "Body/Bold/Body 4";
                   tk "Body/Caption"]
                  "Body"
                  [mkSubgroup None [tk "Body/Caption"];
                   mkSubgroup (Some "Bold") [tk "Body/Bold/Body 4"];
                   mkSubgroup (Some "Regular") [tk "Body/Regular/Body 1"]]
                  sampleCompare_consistent
                  (or_introl eq_refl))).
Defined.

(** ** More on filtering *)

Lemma matchesFilter_empty `{casing : Js.CaseMapping} (lbl : string) :
  matchesFilter lbl "" = true.
Proof.
  unfold matchesFilter. rewrite Js.toLowerCase_empty.
  now destruct (Js.toLowerCase lbl).
Qed.

(** A filter that matches a text matches every label that text, taken as
    a filter, matches. *)
Lemma matchesFilter_trans `{casing : Js.CaseMapping} (lbl g f : string) :
  matchesFilter g f = true -> matchesFilter lbl g = true ->
  matchesFilter lbl f = true.
Proof.
  rewrite !matchesFilter_iff. unfold containsIgnoringCase.
  intros (pre' & post' & Hg) (pre & post & H).
  exists (pre ++ pre')%string, (post' ++ post)%string.
  rewrite H, Hg. now rewrite !append_assoc.
Qed.

Lemma filter_refines {A} (p q : A -> bool) (l : list A) :
  (forall x, q x = true -> p x = true) ->
  List.filter q l = List.filter q (List.filter p l).
Proof.
  intros H. induction l as [|x l IH]; simpl; [reflexivity|].
  destruct (q x) eqn:Eq.
  - rewrite (H x Eq). simpl. now rewrite Eq, IH.
  - destruct (p x); simpl; [now rewrite Eq|exact IH].
Qed.

Lemma filter_all {A} (p : A -> bool) (l : list A) :
  (forall x, p x = true) -> List.filter p l = l.
Proof.
  intros H. induction l as [|x l IH]; simpl; [reflexivity|].
  now rewrite H, IH.
Qed.

(** X5.  The empty filter shows every token of the active category.  A
    filter [g] narrows a filter [f] whenever [f] matches the text of [g]
    (the lower case of [g] contains the lower case of [f], as it does
    when [g] extends [f] and the case mapping works letter by letter on
    it): the result of [g] is then the result of [f], filtered again, and
    at top level the rows of [g] are among the rows of [f]. *)
Theorem extending_the_filter_narrows `{casing : Js.CaseMapping} :
  forall (props : Props) (st : EditorState) (f g : string),
    (forall c, activeCategory st = Some c ->
               getFilteredTokens (setFilter "" st) = Category.tokens c)
    /\ (matchesFilter g f = true ->
        getFilteredTokens (setFilter g st)
        = List.filter (fun t => matchesFilter (tokenLabel t) g)
                      (getFilteredTokens (setFilter f st))
        /\ incl (currentItems props (setFilter g st))
                (currentItems props (setFilter f st))).
Proof.
  intros props st f g. split.
  - intros c Hc. unfold getFilteredTokens. cbn [activeCategory setFilter filter].
    rewrite Hc. apply filter_all. intros x. apply matchesFilter_empty.
  - intros Hfg. split.
    + unfold getFilteredTokens. cbn [activeCategory setFilter filter].
      destruct (activeCategory st) as [c|]; [|reflexivity].
      apply filter_refines. intros t. now apply matchesFilter_trans.
    + unfold currentItems, getFilteredTokens.
      cbn [activeCategory setFilter filter].
      destruct (activeCategory st) as [c|]; intros x Hx;
        apply in_map_iff in Hx; destruct Hx as (y & <- & Hy);
        apply in_map; apply filter_In in Hy; apply filter_In;
        destruct Hy as [Hin Hm]; (split; [exact Hin|]).
      * now apply (matchesFilter_trans _ g f).
      * destruct (Nat.eqb _ 0); [discriminate|].
        now apply (matchesFilter_trans _ g f).
Qed.

Lemma extending_the_filter_narrows_witness :
  getFilteredTokens (setFilter "" sampleTriggered) = sampleColours
  /\ incl (currentItems sampleProps (setFilter "pri" sampleTriggered))
          (currentItems sampleProps (setFilter "r" sampleTriggered)).
Proof.
  destruct (extending_the_filter_narrows sampleProps sampleTriggered
                                         "r" "pri") as (H1 & H2).
  split; [apply (H1 colourCategory eq_refl) | apply (H2 eq_refl)].
Defined.

(** X6.  Matching ignores the case of letters on both sides: a
    filter and its lower-case form select the same tokens, and two labels
    with the same lower-case form are matched by the same filters. *)
Theorem filter_ignores_letter_case `{casing : Js.CaseMapping} :
  forall (st : EditorState) (f : string),
    getFilteredTokens (setFilter (Js.toLowerCase f) st)
    = getFilteredTokens (setFilter f st)
    /\ (forall l1 l2 : string,
           Js.toLowerCase l1 = Js.toLowerCase l2 ->
           matchesFilter l1 f = matchesFilter l2 f)
    /\ (forall lbl : string,
           matchesFilter lbl f = matchesFilter (Js.toLowerCase lbl) f).
Proof.
  intros st f. split; [|split].
  - unfold getFilteredTokens. cbn [activeCategory setFilter filter].
    destruct (activeCategory st) as [c|]; [|reflexivity].
    apply filter_ext. intros x. unfold matchesFilter.
    now rewrite Js.toLowerCase_twice.
  - intros l1 l2 H. unfold matchesFilter. now rewrite H.
  - intros lbl. unfold matchesFilter. now rewrite Js.toLowerCase_twice.
Qed.

Lemma filter_ignores_letter_case_witness :
  matchesFilter "Text/Primary" "PRI" = matchesFilter "TEXT/PRIMARY" "PRI".
Proof.
  apply (proj1 (proj2 (filter_ignores_letter_case sampleTriggered "PRI"))).
  reflexivity.
Defined.

(** ** The trigger detector *)

Lemma get_after_prefix (pre : string) (c : ascii) (suf : string) :
  String.get (String.length pre) (pre ++ String c suf) = Some c.
Proof. induction pre as [|d pre IH]; simpl; [reflexivity | exact IH]. Qed.

Lemma substring_middle (p m s : string) :
  Js.substring (p ++ (m ++ s)) (String.length p)
               (String.length p + String.length m) = m.
Proof.
  unfold Js.substring. rewrite !length_append.
  replace (Nat.min (String.length p)
             (String.length p + (String.length m + String.length s)))
    with (String.length p) by lia.
  replace (Nat.min (String.length p + String.length m)
             (String.length p + (String.length m + String.length s)))
    with (String.length p + String.length m) by lia.
  replace (Nat.min (String.length p) (String.length p + String.length m))
    with (String.length p) by lia.
  replace (Nat.max (String.length p) (String.length p + String.length m)
           - String.length p)
    with (String.length m) by lia.
  rewrite substring_skip. apply substring_head.
Qed.

(** X7.  A trigger character directly before the caret, in any text node
    and whatever the menu showed before, opens the menu at top level with
    an empty filter and records the position of that character; the
    document, the selection and the selection index are kept. *)
Theorem handleInput_opens_on_trigger :
  forall (st : EditorState) (range : Range) (i : nat) (pre suf : string),
    selection st = Some range ->
    startContainer range = ChildNode i ->
    nth_error (childNodes st) i = Some (TextNode (pre ++ String "/" suf)) ->
    startOffset range = S (String.length pre) ->
    handleInput st
    = mkState true None "" (selectedIndex st)
              (Some (Slash.mk i (String.length pre)))
              (childNodes st) (selection st).
Proof.
  intros st range i pre suf Hsel Hc Hn Ho.
  unfold handleInput, textNodeAt. rewrite Hsel, Hc, Hn, Ho.
  rewrite get_after_prefix. cbn [Js.charIs].
  rewrite Ascii.eqb_refl. cbn [Nat.sub]. rewrite Nat.sub_0_r.
  cbv [setSlashPosition setFilter setActiveCategory setShowMenu]. cbn.
  now rewrite Hsel.
Qed.

Lemma handleInput_opens_on_trigger_witness :
  handleInput (mkState true (Some colourCategory) "pri" 2
                       (Some (Slash.mk 0 3)) [TextNode "hi /pri and /"]
                       (Some (mkRange (ChildNode 0) 13 true)))
  = mkState true None "" 2 (Some (Slash.mk 0 12))
            [TextNode "hi /pri and /"]
            (Some (mkRange (ChildNode 0) 13 true)).
Proof.
  exact (handleInput_opens_on_trigger
           (mkState true (Some colourCategory) "pri" 2
                    (Some (Slash.mk 0 3)) [TextNode "hi /pri and /"]
                    (Some (mkRange (ChildNode 0) 13 true)))
           (mkRange (ChildNode 0) 13 true) 0 "hi /pri and " ""
           eq_refl eq_refl eq_refl eq_refl).
Defined.

(** X8.  While the menu is open, an input event with the caret after the
    anchor, on a text whose span between the trigger character and the
    caret is not empty, holds no space and does not end in a trigger
    character, sets the filter to exactly that span and changes nothing
    else. *)
Theorem handleInput_tracks_the_filter :
  forall (st : EditorState) (range : Range) (sp : Slash.t) (i : nat)
         (pre typed suf : string) (c : ascii),
    showMenu st = true ->
    slashPosition st = Some sp ->
    selection st = Some range ->
    startContainer range = ChildNode i ->
    nth_error (childNodes st) i
    = Some (TextNode (pre ++ (String "/" (typed ++ String c suf)))) ->
    Slash.offset sp = String.length pre ->
    startOffset range = String.length pre + 1 + String.length typed + 1 ->
    c <> "/"%char ->
    Js.includes (typed ++ String c EmptyString) " " = false ->
    handleInput st = setFilter (typed ++ String c EmptyString) st.
Proof.
  intros st range sp i pre typed suf c Hm Hsp Hsel Hc Hn Hoff Ho Hslash Hspace.
  unfold handleInput, textNodeAt. rewrite Hsel, Hc, Hn, Hm, Hsp, Hoff, Ho.
  replace (String.length pre + 1 + String.length typed + 1)
    with (S (String.length ((pre ++ "/") ++ typed))).
  2:{ rewrite !length_append. simpl. lia. }
  assert (Htext : (pre ++ String "/" (typed ++ String c suf))%string
                  = (((pre ++ "/") ++ typed) ++ String c suf)%string).
  { rewrite !append_assoc. reflexivity. }
  rewrite Htext at 1. rewrite get_after_prefix. cbn [Js.charIs].
  destruct (Ascii.eqb_spec c "/") as [E | _]; [contradiction|].
  assert (Hsub : Js.substring (pre ++ String "/" (typed ++ String c suf))
                              (String.length pre + 1)
                              (S (String.length ((pre ++ "/") ++ typed)))
                 = (typed ++ String c EmptyString)%string).
  { replace (pre ++ String "/" (typed ++ String c suf))%string
      with ((pre ++ "/") ++ ((typed ++ String c EmptyString) ++ suf))%string.
    2:{ rewrite !append_assoc. reflexivity. }
    replace (String.length pre + 1) with (String.length (pre ++ "/"))
      by (rewrite length_append; reflexivity).
    replace (S (String.length ((pre ++ "/") ++ typed)))
      with (String.length (pre ++ "/")
            + String.length (typed ++ String c EmptyString)).
    2:{ rewrite !length_append. simpl. lia. }
    apply substring_middle. }
  rewrite Hsub, Hspace.
  replace (S (String.length ((pre ++ "/") ++ typed)) <=? String.length pre)
    with false; [reflexivity|].
  symmetry. apply Nat.leb_gt. rewrite !length_append. lia.
Qed.

Lemma handleInput_tracks_the_filter_witness :
  handleInput (mkState true None "co" 0 (Some (Slash.mk 0 3))
                       [TextNode "hi /col now"]
                       (Some (mkRange (ChildNode 0) 7 true)))
  = mkState true None "col" 0 (Some (Slash.mk 0 3))
            [TextNode "hi /col now"]
            (Some (mkRange (ChildNode 0) 7 true)).
Proof.
  apply (handleInput_tracks_the_filter
           (mkState true None "co" 0 (Some (Slash.mk 0 3))
                    [TextNode "hi /col now"]
                    (Some (mkRange (ChildNode 0) 7 true)))
           (mkRange (ChildNode 0) 7 true) (Slash.mk 0 3) 0
           "hi " "co" " now" "l");
    try reflexivity.
  discriminate.
Defined.

(** X9.  [handleInput] never touches the document, the selection or the
    selection index.  It changes nothing at all when there is no
    selection, when the caret is not in a text node, and when the menu is
    closed and the character before the caret is not the trigger. *)
Theorem handleInput_leaves_the_document_alone :
  forall st : EditorState,
    (childNodes (handleInput st) = childNodes st
     /\ selection (handleInput st) = selection st
     /\ selectedIndex (handleInput st) = selectedIndex st)
    /\ (selection st = None -> handleInput st = st)
    /\ (forall range,
           selection st = Some range ->
           textNodeAt (childNodes st) (startContainer range) = None ->
           handleInput st = st)
    /\ (forall range i text,
           selection st = Some range ->
           textNodeAt (childNodes st) (startContainer range) = Some (i, text) ->
           showMenu st = false ->
           (forall p, startOffset range = S p ->
                      String.get p text <> Some "/"%char) ->
           handleInput st = st).
Proof.
  intros st. split; [|split; [|split]].
  - unfold handleInput.
    destruct (selection st) as [range|] eqn:Es;
      [|repeat split; cbn; auto].
    destruct (textNodeAt _ _) as [[i text]|];
      [|repeat split; cbn; auto].
    destruct (Js.charIs _ _); [repeat split; cbn; auto|].
    destruct (showMenu st); [|repeat split; cbn; auto].
    destruct (slashPosition st) as [sp|]; [|repeat split; cbn; auto].
    case_cond; repeat split; cbn; auto.
  - intros H. unfold handleInput. now rewrite H.
  - intros range Hsel Ht. unfold handleInput. now rewrite Hsel, Ht.
  - intros range i text Hsel Ht Hm Hchar.
    unfold handleInput. rewrite Hsel, Ht, Hm.
    replace (Js.charIs _ "/") with false; [reflexivity|].
    symmetry. destruct (startOffset range) as [|p]; [reflexivity|].
    specialize (Hchar p eq_refl).
    destruct (String.get p text) as [c|]; [|reflexivity].
    simpl. destruct (Ascii.eqb_spec c "/"); congruence.
Qed.

Lemma handleInput_leaves_the_document_alone_witness :
  handleInput initialState = initialState
  /\ handleInput (mkState false None "" 0 None [TextNode "plain"]
                          (Some (mkRange EditorElement 1 true)))
     = mkState false None "" 0 None [TextNode "plain"]
               (Some (mkRange EditorElement 1 true))
  /\ handleInput (mkState false None "" 0 None [TextNode "plain"]
                          (Some (mkRange (ChildNode 0) 5 true)))
     = mkState false None "" 0 None [TextNode "plain"]
               (Some (mkRange (ChildNode 0) 5 true)).
Proof.
  split; [|split].
  - apply (proj1 (proj2 (handleInput_leaves_the_document_alone initialState))).
    reflexivity.
  - apply (proj1 (proj2 (proj2 (handleInput_leaves_the_document_alone _)))
             (mkRange EditorElement 1 true)); reflexivity.
  - apply (proj2 (proj2 (proj2 (handleInput_leaves_the_document_alone _)))
             (mkRange (ChildNode 0) 5 true) 0 "plain"); try reflexivity.
    intros p Hp. injection Hp as <-. discriminate.
Defined.

(** ** Keys *)

(** X10.  Backspace while the menu is open: inside a category with an
    empty filter it is consumed and leads back to the top-level list,
    with the menu still open and the document untouched; inside a
    category with a non-empty filter, and at top level, it is left to the
    browser. *)
Theorem backspace_inside_the_menu `{casing : Js.CaseMapping} :
  forall (lc : string -> string -> Z) (ih : list Node -> string)
         (props : Props) (st : EditorState),
    showMenu st = true ->
    (forall c, activeCategory st = Some c -> filter st = "" ->
               handleKeyDown lc ih props backspace st
               = consumed (setSelectedIndex 0 (setActiveCategory None st)))
    /\ (forall c, activeCategory st = Some c -> filter st <> "" ->
                  handleKeyDown lc ih props backspace st = passThrough st)
    /\ (activeCategory st = None ->
        handleKeyDown lc ih props backspace st = passThrough st).
Proof.
  intros lc ih props st Hm.
  assert (E : handleKeyDown lc ih props backspace st
              = if match activeCategory st with
                   | Some _ => true
                   | None => false
                   end && (filter st =? "")%string
                then consumed (setSelectedIndex 0 (setActiveCategory None st))
                else passThrough st).
  { unfold handleKeyDown. cbn [key backspace].
    change ("Backspace" =? "Backspace")%string with true.
    change ("Backspace" =? "ArrowDown")%string with false.
    change ("Backspace" =? "ArrowUp")%string with false.
    change ("Backspace" =? "Enter")%string with false.
    change ("Backspace" =? "Escape")%string with false.
    rewrite Hm. reflexivity. }
  rewrite E. split; [|split].
  - intros c Hc Hf. now rewrite Hc, Hf.
  - intros c Hc Hf. rewrite Hc.
    destruct (String.eqb_spec (filter st) ""); [contradiction | reflexivity].
  - intros Hc. now rewrite Hc.
Qed.

Lemma backspace_inside_the_menu_witness :
  handleKeyDown sampleCompare sampleInnerHTML sampleProps backspace
                (setFilter "" sampleTriggered)
  = consumed (mkState true None "" 0 (Some (Slash.mk 0 3))
                      [TextNode "hi /pri"]
                      (Some (mkRange (ChildNode 0) 7 true)))
  /\ handleKeyDown sampleCompare sampleInnerHTML sampleProps backspace
                   sampleTriggered
     = passThrough sampleTriggered
  /\ handleKeyDown sampleCompare sampleInnerHTML sampleProps backspace
                   sampleSpaceTyped
     = passThrough sampleSpaceTyped.
Proof.
  split; [|split].
  - apply (proj1 (backspace_inside_the_menu
                    sampleCompare sampleInnerHTML sampleProps
                    (setFilter "" sampleTriggered) eq_refl)
             colourCategory); reflexivity.
  - apply (proj1 (proj2 (backspace_inside_the_menu
                           sampleCompare sampleInnerHTML sampleProps
                           sampleTriggered eq_refl))
             colourCategory); [reflexivity | discriminate].
  - apply (proj2 (proj2 (backspace_inside_the_menu
                           sampleCompare sampleInnerHTML sampleProps
                           sampleSpaceTyped eq_refl))).
    reflexivity.
Defined.

(** X11.  Enter at top level on the highlighted category row opens that
    category: it becomes the active category, the filter is emptied, the
    selection index is 0, the key is consumed, and the document with the
    typed trigger text is untouched; the list then shown holds every
    token of the category, provided the grouping of these tokens does not
    raise. *)
Theorem enter_opens_the_highlighted_category `{casing : Js.CaseMapping} :
  forall (lc : string -> string -> Z) (ih : list Node -> string)
         (props : Props) (st : EditorState) (c : Category.t),
    showMenu st = true ->
    activeCategory st = None ->
    Js.at_ (currentItems props st) (selectedIndex st)
    = Some (CategoryItem c) ->
    handleKeyDown lc ih props enter st
    = consumed (setFilter "" (setSelectedIndex 0
                                (setActiveCategory (Some c) st)))
    /\ dispatch lc ih props st (KeyDown enter)
       = mkState true (Some c) "" 0 (slashPosition st) (childNodes st)
                 (selection st)
    /\ (groupTokensRaises (Category.tokens c) = false ->
        renderRaises (dispatch lc ih props st (KeyDown enter)) = false
        /\ Permutation
             (visibleItems lc props (dispatch lc ih props st (KeyDown enter)))
             (map TokenItem (Category.tokens c))).
Proof.
  intros lc ih props st c Hm Hc Hat.
  assert (Hcount : (0 <? Z.of_nat (List.length (currentItems props st)))%Z
                   = true).
  { apply Z.ltb_lt. unfold Js.at_ in Hat.
    destruct (selectedIndex st <? 0)%Z; [discriminate|].
    destruct (currentItems props st); [|simpl; lia].
    now destruct (Z.to_nat (selectedIndex st)). }
  assert (E : handleKeyDown lc ih props enter st
              = consumed (setFilter "" (setSelectedIndex 0
                                          (setActiveCategory (Some c) st)))).
  { unfold handleKeyDown. cbn [key enter].
    change ("Enter" =? "Backspace")%string with false.
    change ("Enter" =? "ArrowDown")%string with false.
    change ("Enter" =? "ArrowUp")%string with false.
    change ("Enter" =? "Enter")%string with true.
    rewrite Hm, Hc, Hcount. cbn [andb negb].
    rewrite Hat. unfold handleSelect. rewrite Hc. reflexivity. }
  assert (D : dispatch lc ih props st (KeyDown enter)
              = mkState true (Some c) "" 0 (slashPosition st) (childNodes st)
                        (selection st)).
  { unfold dispatch. cbn [handle]. rewrite E. cbn [after consumed].
    unfold commit.
    replace (depsChanged st _) with true.
    - cbv [setFilter setSelectedIndex setActiveCategory]. cbn. now rewrite Hm.
    - symmetry. unfold depsChanged. cbn [activeCategory setFilter
        setSelectedIndex setActiveCategory]. rewrite Hc. cbn.
      apply orb_true_r. }
  split; [exact E|]. split; [exact D|].
  intros Hraise. rewrite D.
  assert (Hall : getFilteredTokens
                   (mkState true (Some c) "" 0 (slashPosition st)
                            (childNodes st) (selection st))
                 = Category.tokens c).
  { unfold getFilteredTokens. cbn [activeCategory filter].
    apply filter_all. intros x. apply matchesFilter_empty. }
  split.
  - unfold renderRaises. cbn [activeCategory]. now rewrite Hall.
  - unfold visibleItems, flattenedTokens, groupedTokens.
    cbn [activeCategory]. apply Permutation_map.
    now rewrite flatten_groupTokens_perm, Hall.
Qed.

Lemma enter_opens_the_highlighted_category_witness :
  dispatch sampleCompare sampleInnerHTML sampleColOnly sampleColTyped
           (KeyDown enter)
  = mkState true (Some colourCategory) "" 0 (Some (Slash.mk 0 0))
            [TextNode "/col"] (Some (mkRange (ChildNode 0) 4 true))
  /\ Permutation
       (visibleItems sampleCompare sampleColOnly
          (dispatch sampleCompare sampleInnerHTML sampleColOnly
                    sampleColTyped (KeyDown enter)))
       (map TokenItem sampleColours).
Proof.
  destruct (enter_opens_the_highlighted_category
              (casing := sampleCaseMapping)
              sampleCompare sampleInnerHTML sampleColOnly
              sampleColTyped colourCategory
              eq_refl eq_refl eq_refl) as (_ & HD & HP).
  split; [exact HD | exact (proj2 (HP eq_refl))].
Defined.

(** X12.  Enter inside a category on the highlighted token, with the
    trigger position in a text node, inserts that token: the key is
    consumed, the result is that of [insertToken] on the token the
    flattened list holds at the selection index, its tag is in the
    document, the menu is closed, and after the render the selection
    index is 0. *)
Theorem enter_inserts_the_highlighted_token `{casing : Js.CaseMapping} :
  forall (lc : string -> string -> Z) (ih : list Node -> string)
         (props : Props) (st : EditorState) (c : Category.t) (t : Token.t)
         (sp : Slash.t) (range : Range) (text : string),
    showMenu st = true ->
    activeCategory st = Some c ->
    Js.at_ (flattenedTokens lc st) (selectedIndex st) = Some t ->
    slashPosition st = Some sp ->
    selection st = Some range ->
    nth_error (childNodes st) (Slash.node sp) = Some (TextNode text) ->
    exists st' : EditorState,
      insertToken (Some (TokenItem t)) (Some c) st = Some st'
      /\ handleKeyDown lc ih props enter st = consumed st'
      /\ nth_error (childNodes st') (S (Slash.node sp))
         = Some (TagNode (makeTag t c))
      /\ showMenu st' = false
      /\ dispatch lc ih props st (KeyDown enter) = setSelectedIndex 0 st'.
Proof.
  intros lc ih props st c t sp range text Hm Hc Hat Hsp Hsel Hn.
  pose proof (insertToken_spliced (TokenItem t) c st sp range text
                                  Hsp Hsel Hn) as Hins.
  cbv zeta in Hins. eexists. split; [exact Hins|].
  assert (Hcount : (0 <? Z.of_nat (List.length (flattenedTokens lc st)))%Z
                   = true).
  { apply Z.ltb_lt. unfold Js.at_ in Hat.
    destruct (selectedIndex st <? 0)%Z; [discriminate|].
    destruct (flattenedTokens lc st); [|simpl; lia].
    now destruct (Z.to_nat (selectedIndex st)). }
  assert (E : handleKeyDown lc ih props enter st
              = consumed
                  (mkState false None (filter st) (selectedIndex st) None
                     (firstn (Slash.node sp) (childNodes st)
                        ++ [TextNode (Js.substring text 0 (Slash.offset sp));
                            TagNode (makeTag (asToken (TokenItem t)) c);
                            TextNode
                              (if (Js.substringFrom text (startOffset range)
                                   =? "")%string
                               then " "%string
                               else Js.substringFrom text (startOffset range))]
                        ++ skipn (S (Slash.node sp)) (childNodes st))
                     (Some (mkRange (ChildNode (Slash.node sp + 2)) 1 true)))).
  { unfold handleKeyDown. cbn [key enter].
    change ("Enter" =? "Backspace")%string with false.
    change ("Enter" =? "ArrowDown")%string with false.
    change ("Enter" =? "ArrowUp")%string with false.
    change ("Enter" =? "Enter")%string with true.
    rewrite Hm, Hc, Hcount. cbn [andb negb].
    rewrite Hat. cbn [option_map]. unfold handleSelect. rewrite Hc, Hins.
    reflexivity. }
  split; [exact E|]. split; [|split; [reflexivity|]].
  - cbn [childNodes asToken].
    assert (Hi : Slash.node sp < List.length (childNodes st))
      by (apply nth_error_Some; congruence).
    pose proof (nth_error_splice (childNodes st)
                  [TextNode (Js.substring text 0 (Slash.offset sp));
                   TagNode (makeTag t c);
                   TextNode
                     (if (Js.substringFrom text (startOffset range)
                          =? "")%string
                      then " "%string
                      else Js.substringFrom text (startOffset range))]
                  (Slash.node sp) 1 (TagNode (makeTag t c)) Hi eq_refl)
      as Hnth.
    rewrite Nat.add_1_r in Hnth. exact Hnth.
  - unfold dispatch. cbn [handle]. rewrite E. cbn [after consumed].
    unfold commit. replace (depsChanged st _) with true; [reflexivity|].
    symmetry. unfold depsChanged. cbn [activeCategory]. rewrite Hc. cbn.
    apply orb_true_r.
Qed.

Lemma enter_inserts_the_highlighted_token_witness :
  exists st' : EditorState,
    insertToken (Some (TokenItem (tk "Text/Primary"))) (Some colourCategory)
                sampleTriggered = Some st'
    /\ handleKeyDown sampleCompare sampleInnerHTML sampleProps enter
                     sampleTriggered = consumed st'
    /\ nth_error (childNodes st') 1
       = Some (TagNode (makeTag (tk "Text/Primary") colourCategory))
    /\ showMenu st' = false
    /\ dispatch sampleCompare sampleInnerHTML sampleProps sampleTriggered
                (KeyDown enter) = setSelectedIndex 0 st'.
Proof.
  exact (enter_inserts_the_highlighted_token
           sampleCompare sampleInnerHTML sampleProps sampleTriggered
           colourCategory (tk "Text/Primary") (Slash.mk 0 3)
           (mkRange (ChildNode 0) 7 true) "hi /pri"
           eq_refl eq_refl eq_refl eq_refl eq_refl eq_refl).
Defined.

Lemma eqb_of_neq (a b : string) : a <> b -> (a =? b)%string = false.
Proof. intros H. now apply String.eqb_neq. Qed.

(** X13.  Keys the component has no use for are left to the browser with
    the state as it was: with the menu closed, every key but Backspace
    and Enter with Cmd or Ctrl; with the menu open, every key but the two
    arrows, Enter, Escape and Backspace; and Enter itself when the menu
    is open on an empty list. *)
Theorem other_keys_pass_through `{casing : Js.CaseMapping} :
  forall (lc : string -> string -> Z) (ih : list Node -> string)
         (props : Props) (e : KeyEvent) (st : EditorState),
    (showMenu st = false ->
     key e <> "Backspace" ->
     (key e = "Enter" -> metaKey e = false /\ ctrlKey e = false) ->
     handleKeyDown lc ih props e st = passThrough st)
    /\ (showMenu st = true ->
        key e <> "ArrowDown" -> key e <> "ArrowUp" -> key e <> "Enter" ->
        key e <> "Escape" -> key e <> "Backspace" ->
        handleKeyDown lc ih props e st = passThrough st)
    /\ (showMenu st = true ->
        key e = "Enter" ->
        visibleItems lc props st = [] ->
        handleKeyDown lc ih props e st = passThrough st).
Proof.
  intros lc ih props e st. split; [|split].
  - intros Hm Hb He. unfold handleKeyDown.
    rewrite (eqb_of_neq _ _ Hb), Hm. cbn [andb negb].
    destruct (String.eqb_spec (key e) "Enter") as [HE | _]; [|reflexivity].
    destruct (He HE) as [-> ->]. reflexivity.
  - intros Hm Hd Hu He Hx Hb. unfold handleKeyDown.
    rewrite (eqb_of_neq _ _ Hb), (eqb_of_neq _ _ Hd), (eqb_of_neq _ _ Hu),
      (eqb_of_neq _ _ He), (eqb_of_neq _ _ Hx), Hm.
    reflexivity.
  - intros Hm He Hv. unfold handleKeyDown. rewrite He, Hm.
    change ("Enter" =? "Backspace")%string with false.
    change ("Enter" =? "ArrowDown")%string with false.
    change ("Enter" =? "ArrowUp")%string with false.
    change ("Enter" =? "Escape")%string with false.
    rewrite <- length_visibleItems, Hv. reflexivity.
Qed.

Lemma other_keys_pass_through_witness :
  handleKeyDown sampleCompare sampleInnerHTML sampleProps arrowDown
                initialState = passThrough initialState
  /\ handleKeyDown sampleCompare sampleInnerHTML sampleProps
                   (mkKey "Tab" false false) sampleTriggered
     = passThrough sampleTriggered
  /\ handleKeyDown sampleCompare sampleInnerHTML sampleProps enter
                   (setFilter "zzz" sampleTriggered)
     = passThrough (setFilter "zzz" sampleTriggered).
Proof.
  split; [|split].
  - apply (proj1 (other_keys_pass_through sampleCompare sampleInnerHTML
                    sampleProps arrowDown initialState));
      [reflexivity | discriminate | discriminate].
  - apply (proj1 (proj2 (other_keys_pass_through sampleCompare
                           sampleInnerHTML sampleProps
                           (mkKey "Tab" false false) sampleTriggered)));
      try reflexivity; discriminate.
  - apply (proj2 (proj2 (other_keys_pass_through sampleCompare
                           sampleInnerHTML sampleProps enter
                           (setFilter "zzz" sampleTriggered))));
      reflexivity.
Defined.

Lemma textNodes_app (a b : list Node) :
  textNodes (a ++ b) = textNodes a ++ textNodes b.
Proof.
  induction a as [|n a IH]; simpl; [reflexivity|].
  destruct n; simpl; now rewrite IH.
Qed.

Lemma textNodes_removeAt_tag (l : list Node) (j : nat) (tag : TokenTag) :
  nth_error l j = Some (TagNode tag) ->
  textNodes (removeAt j l) = textNodes l.
Proof.
  revert j. induction l as [|n l IH]; intros [|j] H; simpl in H;
    try discriminate.
  - injection H as ->. reflexivity.
  - specialize (IH j H). unfold removeAt in *.
    change (firstn (S j) (n :: l)) with (n :: firstn j l).
    change (skipn (S (S j)) (n :: l)) with (skipn (S j) l).
    cbn [app]. destruct n; cbn [textNodes]; now rewrite IH.
Qed.

Lemma tagBeforeCaret_is_tag (st : EditorState) (j : nat) :
  tagBeforeCaret st = Some j ->
  exists tag, nth_error (childNodes st) j = Some (TagNode tag).
Proof.
  unfold tagBeforeCaret.
  destruct (selection st) as [range|]; [|discriminate].
  destruct (collapsed range); [|discriminate].
  assert (H : forall k, isTokenTag (nth_error (childNodes st) k) = true ->
                        exists tag, nth_error (childNodes st) k
                                    = Some (TagNode tag)).
  { intros k. destruct (nth_error (childNodes st) k) as [[text|tag]|];
      try discriminate. intros _. now exists tag. }
  destruct (startContainer range) as [i|].
  - destruct (nth_error (childNodes st) i) as [[text|tag]|];
      try discriminate.
    destruct (startOffset range); [|discriminate].
    destruct i as [|k]; [discriminate|].
    destruct (isTokenTag (nth_error (childNodes st) k)) eqn:E;
      [|discriminate].
    intros [= <-]. now apply H.
  - destruct (startOffset range) as [|k]; [discriminate|].
    destruct (isTokenTag (nth_error (childNodes st) k)) eqn:E;
      [|discriminate].
    intros [= <-]. now apply H.
Qed.

(** X14.  Backspace never removes text through the component: whatever
    the state, after [handleKeyDown] on Backspace the text nodes of the
    document are the ones before it, and the document is either the same
    or the same without one token tag, in which case the key was
    consumed.  With a selection that is not collapsed and the menu closed
    the key is left to the browser. *)
Theorem backspace_only_ever_removes_a_tag `{casing : Js.CaseMapping} :
  forall (lc : string -> string -> Z) (ih : list Node -> string)
         (props : Props) (st : EditorState),
    textNodes (childNodes (after (handleKeyDown lc ih props backspace st)))
    = textNodes (childNodes st)
    /\ (childNodes (after (handleKeyDown lc ih props backspace st))
        = childNodes st
        \/ exists j tag,
             nth_error (childNodes st) j = Some (TagNode tag)
             /\ childNodes (after (handleKeyDown lc ih props backspace st))
                = removeAt j (childNodes st)
             /\ defaultPrevented (handleKeyDown lc ih props backspace st)
                = true)
    /\ (forall range,
           showMenu st = false ->
           selection st = Some range -> collapsed range = false ->
           handleKeyDown lc ih props backspace st = passThrough st).
Proof.
  intros lc ih props st.
  assert (Hcases :
    (exists j tag, nth_error (childNodes st) j = Some (TagNode tag)
                   /\ handleKeyDown lc ih props backspace st
                      = consumed (removeChildAt j st))
    \/ childNodes (after (handleKeyDown lc ih props backspace st))
       = childNodes st).
  { unfold handleKeyDown. cbn [key backspace].
    change ("Backspace" =? "Backspace")%string with true.
    change ("Backspace" =? "ArrowDown")%string with false.
    change ("Backspace" =? "ArrowUp")%string with false.
    change ("Backspace" =? "Enter")%string with false.
    change ("Backspace" =? "Escape")%string with false.
    destruct (showMenu st); cbn [andb negb].
    - right. case_cond; reflexivity.
    - destruct (tagBeforeCaret st) as [j|] eqn:E; [|now right].
      left. destruct (tagBeforeCaret_is_tag st j E) as [tag Htag].
      now exists j, tag. }
  split; [|split].
  - destruct Hcases as [(j & tag & Htag & E) | E]; [|now rewrite E].
    rewrite E. cbn [after consumed removeChildAt childNodes setSlashPosition
                     setSelection setChildNodes].
    now apply textNodes_removeAt_tag with (tag := tag).
  - destruct Hcases as [(j & tag & Htag & E) | E]; [|now left].
    right. exists j, tag. rewrite E. now repeat split.
  - intros range Hm Hsel Hcol. unfold handleKeyDown. cbn [key backspace].
    change ("Backspace" =? "Backspace")%string with true.
    change ("Backspace" =? "Enter")%string with false.
    rewrite Hm. cbn [andb negb]. unfold tagBeforeCaret.
    now rewrite Hsel, Hcol.
Qed.

Lemma backspace_only_ever_removes_a_tag_witness :
  handleKeyDown sampleCompare sampleInnerHTML sampleProps backspace
                (mkState false None "" 0 None
                         [TextNode "a"; TagNode sampleTag; TextNode "b"]
                         (Some (mkRange (ChildNode 2) 0 false)))
  = passThrough (mkState false None "" 0 None
                         [TextNode "a"; TagNode sampleTag; TextNode "b"]
                         (Some (mkRange (ChildNode 2) 0 false))).
Proof.
  apply (proj2 (proj2 (backspace_only_ever_removes_a_tag
                         sampleCompare sampleInnerHTML sampleProps _))
           (mkRange (ChildNode 2) 0 false)); reflexivity.
Defined.

(** X15.  Enter with Cmd or Ctrl submits only while the menu is closed:
    the key is then consumed and its outcome is that of [handleSubmit];
    while the menu is open no key calls a callback. *)
Theorem submit_shortcut_needs_a_closed_menu `{casing : Js.CaseMapping} :
  forall (lc : string -> string -> Z) (ih : list Node -> string)
         (props : Props) (e : KeyEvent) (st : EditorState),
    (showMenu st = false ->
     key e = "Enter" -> metaKey e || ctrlKey e = true ->
     handleKeyDown lc ih props e st
     = mkOutcome (fst (handleSubmit ih props st)) true
                 (snd (handleSubmit ih props st)) false)
    /\ (showMenu st = true -> calls (handleKeyDown lc ih props e st) = []).
Proof.
  intros lc ih props e st. split.
  - intros Hm He Hmod. unfold handleKeyDown. rewrite He, Hm, Hmod.
    change ("Enter" =? "Backspace")%string with false.
    change ("Enter" =? "Enter")%string with true.
    cbn [andb negb]. now destruct (handleSubmit ih props st).
  - intros Hm. unfold handleKeyDown. rewrite Hm.
    rewrite andb_false_r. cbn [negb].
    repeat case_cond; try reflexivity;
      destruct (activeCategory st);
      try reflexivity;
      match goal with
      | |- calls (ofSelect _ ?r) = [] => destruct r; reflexivity
      end.
Qed.

Lemma submit_shortcut_needs_a_closed_menu_witness :
  calls (handleKeyDown sampleCompare sampleInnerHTML sampleProps
                       (mkKey "Enter" true false)
                       (setChildNodes [TextNode "done"] initialState))
  = [OnSubmit "done" "done"]
  /\ calls (handleKeyDown sampleCompare sampleInnerHTML sampleProps
                          (mkKey "Enter" true false) sampleTriggered)
     = [].
Proof.
  split.
  - rewrite (proj1 (submit_shortcut_needs_a_closed_menu
                      sampleCompare sampleInnerHTML sampleProps
                      (mkKey "Enter" true false)
                      (setChildNodes [TextNode "done"] initialState))
               eq_refl eq_refl eq_refl).
    reflexivity.
  - apply (proj2 (submit_shortcut_needs_a_closed_menu
                    sampleCompare sampleInnerHTML sampleProps
                    (mkKey "Enter" true false) sampleTriggered)).
    reflexivity.
Defined.

(** ** More on the splice engine *)

Lemma concat_empty_cons (x : string) (l : list string) :
  String.concat "" (x :: l) = (x ++ String.concat "" l)%string.
Proof.
  destruct l as [|y l]; simpl; [now rewrite append_nil_r | reflexivity].
Qed.

Lemma innerText_app (a b : list Node) :
  innerText (a ++ b) = (innerText a ++ innerText b)%string.
Proof.
  unfold innerText. induction a as [|n a IH]; [reflexivity|].
  cbn [map app]. rewrite !concat_empty_cons, IH. now rewrite append_assoc.
Qed.

Lemma innerText_cons (n : Node) (l : list Node) :
  innerText (n :: l) = (nodeText n ++ innerText l)%string.
Proof. unfold innerText. cbn [map]. apply concat_empty_cons. Qed.

Lemma split_at_child {A} (l : list A) (i : nat) (x : A) :
  nth_error l i = Some x -> l = firstn i l ++ x :: skipn (S i) l.
Proof.
  revert i. induction l as [|y l IH]; intros [|i] H; simpl in H;
    try discriminate.
  - now injection H as ->.
  - change (firstn (S i) (y :: l)) with (y :: firstn i l).
    change (skipn (S (S i)) (y :: l)) with (skipn (S i) l).
    cbn [app]. f_equal. now apply IH.
Qed.

Lemma makeTag_textContent (t : Token.t) (c : Category.t) :
  textContent (makeTag t c) = tokenLabel t.
Proof.
  unfold makeTag, tokenLabel. cbn [textContent].
  destruct (Js.or (Token.label t) (Token.name t)) as [s|]; [|reflexivity].
  simpl. now destruct (String.eqb_spec s "").
Qed.

(** X16.  What an insertion does to the plain text of the editor: the
    text before the anchor and after the caret, and the text of every
    other node, stay; the span from the trigger character to the caret is
    replaced by the label of the token, followed by one space when
    nothing followed the caret in that text node. *)
Theorem insertToken_rewrites_the_plain_text :
  forall (item : Item) (cat : Category.t) (st : EditorState)
         (sp : Slash.t) (range : Range) (pre mid suf : string),
    slashPosition st = Some sp ->
    selection st = Some range ->
    nth_error (childNodes st) (Slash.node sp)
    = Some (TextNode (pre ++ (mid ++ suf))) ->
    String.length pre = Slash.offset sp ->
    String.length (pre ++ mid) = startOffset range ->
    let before := innerText (firstn (Slash.node sp) (childNodes st)) in
    let behind := innerText (skipn (S (Slash.node sp)) (childNodes st)) in
    exists st' : EditorState,
      insertToken (Some item) (Some cat) st = Some st'
      /\ innerText (childNodes st)
         = (before ++ (pre ++ (mid ++ suf)) ++ behind)%string
      /\ innerText (childNodes st')
         = (before
              ++ (pre ++ tokenLabel (asToken item)
                      ++ (if (suf =? "")%string then " " else suf))
              ++ behind)%string.
Proof.
  intros item cat st sp range pre mid suf Hsp Hsel Hn Hpre Hmid before behind.
  eexists. split.
  - apply (insertToken_spliced item cat st sp range _ Hsp Hsel Hn).
  - split.
    + rewrite (split_at_child _ _ _ Hn) at 1.
      rewrite innerText_app, innerText_cons. reflexivity.
    + cbn [childNodes]. rewrite <- Hpre, <- Hmid, substring_before.
      rewrite <- append_assoc, substringFrom_after.
      rewrite innerText_app. cbn [app].
      rewrite !innerText_cons. cbn [nodeText].
      rewrite makeTag_textContent. fold before. fold behind.
      now rewrite !append_assoc.
Qed.

Lemma insertToken_rewrites_the_plain_text_witness :
  exists st' : EditorState,
    insertToken (Some (TokenItem (tk "Text/Primary"))) (Some colourCategory)
                sampleTriggered = Some st'
    /\ innerText (childNodes sampleTriggered) = "hi /pri"
    /\ innerText (childNodes st') = "hi Text/Primary ".
Proof.
  exact (insertToken_rewrites_the_plain_text
           (TokenItem (tk "Text/Primary")) colourCategory sampleTriggered
           (Slash.mk 0 3) (mkRange (ChildNode 0) 7 true) "hi " "/pri" ""
           eq_refl eq_refl eq_refl eq_refl eq_refl).
Defined.

(** X17.  The tag of an inserted token shows the label the filter was
    matched against and is typed by the category; its [data-value] is
    that label too whenever the token has a label or a name, and the
    string [undefined] when it has neither. *)
Theorem makeTag_carries_the_label :
  forall (t : Token.t) (c : Category.t),
    textContent (makeTag t c) = tokenLabel t
    /\ dataType (makeTag t c) = Category.id c
    /\ tagColor (makeTag t c) = Category.color c
    /\ (Js.or (Token.label t) (Token.name t) <> None ->
        dataValue (makeTag t c) = tokenLabel t)
    /\ (Token.label t = None -> Token.name t = None ->
        dataValue (makeTag t c) = "undefined"
        /\ textContent (makeTag t c) = "").
Proof.
  intros t c. split; [apply makeTag_textContent|].
  split; [reflexivity|]. split; [reflexivity|]. split.
  - unfold makeTag, tokenLabel. cbn [dataValue].
    destruct (Js.or (Token.label t) (Token.name t)) as [s|];
      [|congruence].
    intros _. simpl. now destruct (String.eqb_spec s "").
  - intros Hl Hn. unfold makeTag. cbn [dataValue textContent].
    unfold Js.or. rewrite Hl, Hn. split; reflexivity.
Qed.

Lemma makeTag_carries_the_label_witness :
  dataValue (makeTag (tk "Text/Primary") colourCategory) = "Text/Primary"
  /\ dataValue (makeTag (Token.mk "7" None None None None None None)
                        colourCategory) = "undefined".
Proof.
  split.
  - apply (proj1 (proj2 (proj2 (proj2 (makeTag_carries_the_label
                                         (tk "Text/Primary")
                                         colourCategory))))).
    discriminate.
  - apply (proj2 (proj2 (proj2 (proj2 (makeTag_carries_the_label
                                         (Token.mk "7" None None None None
                                                   None None)
                                         colourCategory)))));
      reflexivity.
Defined.

(** X18.  When the node of the recorded trigger position is no longer a
    text node of the editor, [insertToken] raises before it changes
    anything; Enter on a token then ends in that error with the state as
    it was.  A submission made while the menu is open leaves the
    position in that condition, since it empties the editor and keeps
    the position. *)
Theorem insertToken_raises_on_a_stale_anchor `{casing : Js.CaseMapping} :
  forall (lc : string -> string -> Z) (ih : list Node -> string)
         (props : Props) (st : EditorState) (sp : Slash.t) (range : Range),
    slashPosition st = Some sp ->
    selection st = Some range ->
    ((forall text, nth_error (childNodes st) (Slash.node sp)
                   <> Some (TextNode text)) ->
     (forall item cat, insertToken item cat st = None)
     /\ (forall c t,
            showMenu st = true -> activeCategory st = Some c ->
            Js.at_ (flattenedTokens lc st) (selectedIndex st) = Some t ->
            handleKeyDown lc ih props enter st = mkOutcome st true [] true))
    /\ (Js.trim (innerText (childNodes st)) <> "" ->
        hasOnSubmit props = true ->
        forall item cat,
          insertToken item cat (fst (handleSubmit ih props st)) = None).
Proof.
  intros lc ih props st sp range Hsp Hsel. split.
  - intros Hstale.
    assert (Hins : forall item cat, insertToken item cat st = None).
    { intros item cat. unfold insertToken. rewrite Hsp, Hsel.
      destruct item as [item|]; [|reflexivity].
      destruct cat as [cat|]; [|reflexivity].
      destruct (nth_error (childNodes st) (Slash.node sp)) as [[text|tag]|]
        eqn:E; try reflexivity.
      exfalso. now apply (Hstale text). }
    split; [exact Hins|].
    intros c t Hm Hc Hat.
    assert (Hcount : (0 <? Z.of_nat (List.length (flattenedTokens lc st)))%Z
                     = true).
    { apply Z.ltb_lt. unfold Js.at_ in Hat.
      destruct (selectedIndex st <? 0)%Z; [discriminate|].
      destruct (flattenedTokens lc st); [|simpl; lia].
      now destruct (Z.to_nat (selectedIndex st)). }
    unfold handleKeyDown. cbn [key enter].
    change ("Enter" =? "Backspace")%string with false.
    change ("Enter" =? "ArrowDown")%string with false.
    change ("Enter" =? "ArrowUp")%string with false.
    change ("Enter" =? "Enter")%string with true.
    rewrite Hm, Hc, Hcount. cbn [andb negb]. rewrite Hat.
    unfold handleSelect. rewrite Hc, Hins. reflexivity.
  - intros Htext Hcb item cat. unfold handleSubmit. rewrite Hcb.
    destruct (String.eqb_spec (Js.trim (innerText (childNodes st))) "");
      [contradiction|].
    cbn [negb andb fst]. unfold insertToken, clearEditor.
    cbn [slashPosition selection childNodes setSelection setChildNodes].
    rewrite Hsp, Hsel. cbn [option_map].
    destruct item; destruct cat; try reflexivity.
    now destruct (Slash.node sp).
Qed.

Lemma insertToken_raises_on_a_stale_anchor_witness :
  insertToken (Some (TokenItem (tk "Text/Primary"))) (Some colourCategory)
              (fst (handleSubmit sampleInnerHTML sampleProps sampleTriggered))
  = None
  /\ handleKeyDown sampleCompare sampleInnerHTML sampleProps enter
                   (setChildNodes [] sampleTriggered)
     = mkOutcome (setChildNodes [] sampleTriggered) true [] true.
Proof.
  split.
  - apply (proj2 (insertToken_raises_on_a_stale_anchor
                    sampleCompare sampleInnerHTML sampleProps sampleTriggered
                    (Slash.mk 0 3) (mkRange (ChildNode 0) 7 true)
                    eq_refl eq_refl)).
    + vm_compute. discriminate.
    + reflexivity.
  - apply (proj2 (proj1 (insertToken_raises_on_a_stale_anchor
                    sampleCompare sampleInnerHTML sampleProps
                    (setChildNodes [] sampleTriggered)
                    (Slash.mk 0 3) (mkRange (ChildNode 0) 7 true)
                    eq_refl eq_refl)
                    (fun text => ltac:(discriminate)))
             colourCategory (tk "Text/Primary")); reflexivity.
Defined.

(** ** More on submission and cancellation *)

Lemma innerText_nil_trim : Js.trim (innerText []) = "".
Proof. reflexivity. Qed.

(** X19.  A submission that goes through empties the editor and keeps the
    menu, the category, the filter, the selection index and the trigger
    position; a second submission right after it calls nothing and
    changes nothing. *)
Theorem submitting_twice_submits_once :
  forall (ih : list Node -> string) (props : Props) (st : EditorState),
    Js.trim (innerText (childNodes st)) <> "" ->
    hasOnSubmit props = true ->
    let st1 := fst (handleSubmit ih props st) in
    childNodes st1 = []
    /\ (showMenu st1 = showMenu st
        /\ activeCategory st1 = activeCategory st
        /\ filter st1 = filter st
        /\ selectedIndex st1 = selectedIndex st
        /\ slashPosition st1 = slashPosition st)
    /\ handleSubmit ih props st1 = (st1, []).
Proof.
  intros ih props st Htext Hcb st1.
  assert (E : st1 = clearEditor st).
  { subst st1. unfold handleSubmit. rewrite Hcb.
    now destruct (String.eqb_spec (Js.trim (innerText (childNodes st))) ""). }
  rewrite E. split; [reflexivity|]. split; [now repeat split|].
  unfold handleSubmit. reflexivity.
Qed.

Lemma submitting_twice_submits_once_witness :
  let st := setChildNodes [TextNode " use "; TagNode sampleTag] initialState in
  let st1 := fst (handleSubmit sampleInnerHTML sampleProps st) in
  childNodes st1 = []
  /\ handleSubmit sampleInnerHTML sampleProps st1 = (st1, []).
Proof.
  intros st st1.
  assert (Ht : Js.trim (innerText (childNodes st)) <> "")
    by (vm_compute; discriminate).
  destruct (submitting_twice_submits_once sampleInnerHTML sampleProps st
                                          Ht eq_refl) as (H1 & _ & H3).
  split; [exact H1 | exact H3].
Defined.

(** X20.  Cancelling always empties the editor, calls [onCancel] exactly
    when that callback was supplied and never [onSubmit], leaves the menu
    and its state as they were, and makes a following submission a
    no-op. *)
Theorem cancel_empties_the_editor :
  forall (ih : list Node -> string) (props : Props) (st : EditorState),
    childNodes (fst (handleCancel props st)) = []
    /\ snd (handleCancel props st)
       = (if hasOnCancel props then [OnCancel] else [])
    /\ (showMenu (fst (handleCancel props st)) = showMenu st
        /\ activeCategory (fst (handleCancel props st)) = activeCategory st
        /\ filter (fst (handleCancel props st)) = filter st
        /\ selectedIndex (fst (handleCancel props st)) = selectedIndex st
        /\ slashPosition (fst (handleCancel props st)) = slashPosition st)
    /\ handleSubmit ih props (fst (handleCancel props st))
       = (fst (handleCancel props st), []).
Proof.
  intros ih props st. unfold handleCancel. cbn [fst snd].
  split; [reflexivity|]. split; [reflexivity|].
  split; [now repeat split|]. reflexivity.
Qed.

(** ** The highlighted row *)

Lemma highlighted_indexed_past (sel : Z) (l : list Token.t) (start : nat) :
  (sel < Z.of_nat start)%Z -> highlighted (indexed start sel l) = [].
Proof.
  revert start. induction l as [|t l IH]; intros start H; [reflexivity|].
  cbn [indexed]. unfold highlighted in *. cbn [List.filter snd].
  destruct (Z.eqb_spec (Z.of_nat start) sel); [lia|].
  apply IH. lia.
Qed.

Lemma highlighted_indexed (sel : Z) (l : list Token.t) (start : nat) :
  (Z.of_nat start <= sel)%Z ->
  highlighted (indexed start sel l)
  = match nth_error l (Z.to_nat sel - start) with
    | Some t => [t]
    | None => []
    end.
Proof.
  revert start. induction l as [|t l IH]; intros start H.
  - now destruct (Z.to_nat sel - start).
  - cbn [indexed]. unfold highlighted in *. cbn [List.filter snd].
    destruct (Z.eqb_spec (Z.of_nat start) sel) as [E | E].
    + replace (Z.to_nat sel - start) with 0 by lia. cbn [map fst nth_error].
      f_equal. apply (highlighted_indexed_past sel l (S start)). lia.
    + rewrite IH by lia.
      replace (Z.to_nat sel - start) with (S (Z.to_nat sel - S start)) by lia.
      reflexivity.
Qed.

(** X21.  In the rendered grouped list exactly one token row is
    highlighted when the selection index points into the flattened list,
    and it is the token Enter would insert; no row is highlighted when
    the index is outside. *)
Theorem one_token_row_is_highlighted :
  forall (cat : Category.t) (selectedIndex : Z) (tree : list GroupEntry),
    knownCategory cat ->
    highlighted (tokenRows (renderGroupedTokens cat selectedIndex tree))
    = match Js.at_ (flatten tree) selectedIndex with
      | Some t => [t]
      | None => []
      end.
Proof.
  intros cat sel tree Hcat. unfold renderGroupedTokens.
  rewrite (renderGroups_rows cat sel Hcat tree ([], 0)). cbn [fst snd app].
  unfold tokenRows at 1. cbn [app]. unfold Js.at_.
  destruct (Z.ltb_spec sel 0) as [Hneg | Hpos].
  - apply highlighted_indexed_past. simpl. lia.
  - rewrite highlighted_indexed by (simpl; lia). now rewrite Nat.sub_0_r.
Qed.

Lemma one_token_row_is_highlighted_witness :
  highlighted
    (tokenRows (renderGroupedTokens colourCategory 2
                  (groupTokens sampleCompare sampleColours)))
  = [tk "Primary Blue"].
Proof.
  rewrite (one_token_row_is_highlighted colourCategory 2
             (groupTokens sampleCompare sampleColours)
             (or_introl eq_refl)).
  reflexivity.
Defined.

Lemma highlightedRows_past (sel : Z) (cs : list Category.t) (start : nat) :
  (sel < Z.of_nat start)%Z ->
  highlightedRows (mapIndexed (renderCategoryItem sel) start
                              (map CategoryItem cs)) = [].
Proof.
  revert start. induction cs as [|c cs IH]; intros start H; [reflexivity|].
  cbn [map mapIndexed highlightedRows flat_map renderCategoryItem rowSelected].
  destruct (Z.eqb_spec (Z.of_nat start) sel); [lia|].
  apply IH. lia.
Qed.

Lemma highlightedRows_at (sel : Z) (cs : list Category.t) (start : nat) :
  (Z.of_nat start <= sel)%Z ->
  map rowKey (highlightedRows (mapIndexed (renderCategoryItem sel) start
                                          (map CategoryItem cs)))
  = match nth_error cs (Z.to_nat sel - start) with
    | Some c => [Category.id c]
    | None => []
    end.
Proof.
  revert start. induction cs as [|c cs IH]; intros start H.
  - now destruct (Z.to_nat sel - start).
  - cbn [map mapIndexed highlightedRows flat_map renderCategoryItem
           rowSelected].
    destruct (Z.eqb_spec (Z.of_nat start) sel) as [E | E].
    + replace (Z.to_nat sel - start) with 0 by lia.
      cbn [app nth_error]. rewrite map_cons.
      pose proof (highlightedRows_past sel cs (S start)) as Hp.
      unfold highlightedRows in Hp. rewrite Hp by lia. reflexivity.
    + cbn [app].
      replace (Z.to_nat sel - start) with (S (Z.to_nat sel - S start)) by lia.
      apply IH. lia.
Qed.

Lemma length_mapIndexed {A B} (f : A -> nat -> B) (l : list A) (start : nat) :
  List.length (mapIndexed f start l) = List.length l.
Proof.
  revert start. induction l as [|x l IH]; intros start; [reflexivity|].
  cbn [mapIndexed List.length]. now rewrite IH.
Qed.

Lemma category_rows_positive (sel : Z) (cs : list Category.t) (start : nat) :
  Forall (fun c => 0 < List.length (Category.tokens c)) cs ->
  Forall (fun r => exists row, r = Some row /\ 0 < rowCount row)
         (mapIndexed (renderCategoryItem sel) start (map CategoryItem cs)).
Proof.
  revert start. induction cs as [|c cs IH]; intros start H; [constructor|].
  inversion H as [|? ? Hc0 Hcs']; subst.
  cbn [map mapIndexed]. constructor; [|now apply IH].
  eexists. split; [reflexivity | exact Hc0].
Qed.

(** X22.  At top level every row of the list is a category of the
    catalog with at least one token, shown with its token count, and the
    row that is highlighted is the one at the selection index, if any:
    the category Enter opens. *)
Theorem category_rows_show_counts_and_one_highlight `{casing : Js.CaseMapping} :
  forall (props : Props) (st : EditorState),
    activeCategory st = None ->
    let rows := mapIndexed (renderCategoryItem (selectedIndex st)) 0
                           (currentItems props st) in
    List.length rows = List.length (currentItems props st)
    /\ Forall (fun r => exists row, r = Some row /\ 0 < rowCount row) rows
    /\ map rowKey (highlightedRows rows)
       = match Js.at_ (currentItems props st) (selectedIndex st) with
         | Some (CategoryItem c) => [Category.id c]
         | _ => []
         end.
Proof.
  intros props st Hc rows. subst rows. unfold currentItems. rewrite Hc.
  set (cs := List.filter _ (categories props)).
  assert (Hcs : Forall (fun c => 0 < List.length (Category.tokens c)) cs).
  { apply Forall_forall. intros c Hin. apply filter_In in Hin.
    destruct Hin as [_ Hin].
    destruct (Category.tokens c); [discriminate | simpl; lia]. }
  clearbody cs. split; [|split].
  - now rewrite length_mapIndexed.
  - now apply category_rows_positive.
  - unfold Js.at_. destruct (Z.ltb_spec (selectedIndex st) 0) as [Hn | Hp].
    + pose proof (highlightedRows_past (selectedIndex st) cs 0) as H.
      rewrite H by (simpl; lia). reflexivity.
    + rewrite highlightedRows_at by (simpl; lia). rewrite Nat.sub_0_r.
      rewrite nth_error_map.
      now destruct (nth_error cs (Z.to_nat (selectedIndex st))).
Qed.

Lemma category_rows_show_counts_and_one_highlight_witness :
  map rowKey
      (highlightedRows
         (mapIndexed (renderCategoryItem 1) 0
                     (currentItems sampleProps
                                   (setSelectedIndex 1 initialState))))
  = ["text"].
Proof.
  exact (proj2 (proj2 (category_rows_show_counts_and_one_highlight
                         sampleProps (setSelectedIndex 1 initialState)
                         eq_refl))).
Defined.

(** ** What the dropdown shows *)

Lemma flattened_nil_iff (lc : string -> string -> Z) (l : list Token.t) :
  flatten (groupTokens lc l) = [] <-> l = [].
Proof.
  pose proof (flatten_groupTokens_perm lc l) as Hp. split; intros H.
  - rewrite H in Hp. now apply Permutation_nil in Hp.
  - subst l. reflexivity.
Qed.

(** X23.  For a render that does not raise, the dropdown exists only
    while the menu is open.  At top level
    it holds exactly one thing: the category rows when some category with
    tokens matches the filter, otherwise the loading note while tokens
    load and the no-tokens note when they do not.  Inside a category it
    holds the header, followed by the grouped rows when a token of the
    category matches the filter, by the loading note when none matches
    and tokens load, and by nothing when none matches and they do not. *)
Theorem what_the_dropdown_shows `{casing : Js.CaseMapping} :
  forall (lc : string -> string -> Z) (props : Props) (st : EditorState),
    renderRaises st = false ->
    (showMenu st = false -> dropdown lc props st = None)
    /\ (showMenu st = true -> activeCategory st = None ->
        dropdown lc props st
        = Some [match currentItems props st with
                | [] => if isLoadingTokens props
                        then TokenLoading "Loading tokens from Figma..."
                        else TokenEmpty "No tokens available. Connect a Figma file to load design tokens."
                | _ :: _ =>
                    CategoryRows
                      (mapIndexed (renderCategoryItem (selectedIndex st)) 0
                                  (currentItems props st))
                end])
    /\ (forall c, showMenu st = true -> activeCategory st = Some c ->
          dropdown lc props st
          = Some (DropdownHeader (Category.label c) (Category.color c)
                    :: match getFilteredTokens st with
                       | [] => if isLoadingTokens props
                               then [TokenLoading "Loading..."]
                               else []
                       | _ :: _ =>
                           [GroupedRows
                              (renderGroupedTokens c (selectedIndex st)
                                 (groupTokens lc (getFilteredTokens st)))]
                       end)).
Proof.
  intros lc props st _. split; [|split].
  - intros Hm. unfold dropdown. now rewrite Hm.
  - intros Hm Hc. unfold dropdown. rewrite Hm, Hc.
    destruct (currentItems props st) as [|x l]; cbn [List.length Nat.eqb Nat.ltb Nat.leb].
    + now destruct (isLoadingTokens props).
    + rewrite !andb_false_r. reflexivity.
  - intros c Hm Hc. unfold dropdown, flattenedTokens, groupedTokens.
    rewrite Hm, Hc.
    pose proof (flattened_nil_iff lc (getFilteredTokens st)) as Hnil.
    destruct (getFilteredTokens st) as [|t l] eqn:Ef.
    + rewrite (proj2 Hnil eq_refl). cbn.
      now destruct (isLoadingTokens props).
    + destruct (flatten (groupTokens lc (t :: l))) as [|x r] eqn:E.
      * exfalso. now pose proof (proj1 Hnil eq_refl).
      * cbn [List.length Nat.eqb Nat.ltb Nat.leb app].
        rewrite andb_false_r. reflexivity.
Qed.

Lemma what_the_dropdown_shows_witness :
  dropdown sampleCompare sampleProps initialState = None
  /\ dropdown sampleCompare sampleProps
              (setFilter "zzz" sampleSpaceTyped)
     = Some [TokenEmpty "No tokens available. Connect a Figma file to load design tokens."]
  /\ dropdown sampleCompare sampleProps (setFilter "zzz" sampleTriggered)
     = Some [DropdownHeader "Colour tokens" "#8b5cf6"].
Proof.
  split; [|split].
  - apply (proj1 (what_the_dropdown_shows (casing := sampleCaseMapping)
                    sampleCompare sampleProps initialState eq_refl)).
    reflexivity.
  - rewrite (proj1 (proj2 (what_the_dropdown_shows
                             (casing := sampleCaseMapping)
                             sampleCompare sampleProps
                             (setFilter "zzz" sampleSpaceTyped) eq_refl))
               eq_refl eq_refl).
    reflexivity.
  - rewrite (proj2 (proj2 (what_the_dropdown_shows
                             (casing := sampleCaseMapping)
                             sampleCompare sampleProps
                             (setFilter "zzz" sampleTriggered) eq_refl))
               colourCategory eq_refl eq_refl).
    reflexivity.
Defined.

(** ** What every reachable state satisfies *)

Lemma at_In {A} (l : list A) (z : Z) (x : A) :
  Js.at_ l z = Some x -> In x l.
Proof.
  unfold Js.at_. destruct (z <? 0)%Z; [discriminate|]. apply nth_error_In.
Qed.

Lemma top_level_item `{casing : Js.CaseMapping} (props : Props) (st : EditorState) (c : Category.t) :
  activeCategory st = None ->
  In (CategoryItem c) (currentItems props st) ->
  In c (categories props) /\ Category.tokens c <> [].
Proof.
  intros Hc Hin. unfold currentItems in Hin. rewrite Hc in Hin.
  apply in_map_CategoryItem, filter_In in Hin. destruct Hin as [Hin Hf].
  split; [exact Hin|]. intros E. rewrite E in Hf. discriminate.
Qed.

Lemma menuConsistent_ext (props : Props) (a b : EditorState) :
  showMenu b = showMenu a -> activeCategory b = activeCategory a ->
  (slashPosition a <> None -> slashPosition b <> None) ->
  menuConsistent props a -> menuConsistent props b.
Proof.
  intros Hm Hc Hs [H1 H2]. split.
  - rewrite Hm. intros H. now apply Hs, H1.
  - intros c. rewrite Hm, Hc. apply H2.
Qed.

Lemma menuConsistent_closed (props : Props) (st : EditorState) :
  showMenu st = false -> activeCategory st = None ->
  menuConsistent props st.
Proof.
  intros Hm Hc. split; [rewrite Hm; discriminate | rewrite Hc; discriminate].
Qed.

Lemma menuConsistent_handleInput (props : Props) (st : EditorState) :
  menuConsistent props st -> menuConsistent props (handleInput st).
Proof.
  intros H. unfold handleInput.
  destruct (selection st) as [range|]; [|exact H].
  destruct (textNodeAt _ _) as [[i text]|]; [|exact H].
  destruct (Js.charIs _ _).
  - split; [discriminate | intros c; discriminate].
  - destruct (showMenu st) eqn:Hm; [|exact H].
    destruct (slashPosition st) as [sp|] eqn:Hsp; [|exact H].
    case_cond.
    + now apply menuConsistent_closed.
    + apply (menuConsistent_ext props st); auto.
Qed.

Lemma menuConsistent_insertToken (props : Props) (token : option Item)
      (category : option Category.t) (st st' : EditorState) :
  menuConsistent props st ->
  insertToken token category st = Some st' ->
  menuConsistent props st'.
Proof.
  intros H. unfold insertToken.
  destruct (slashPosition st) as [sp|]; [|now intros [= <-]].
  destruct (selection st) as [range|]; [|now intros [= <-]].
  destruct token as [item|]; [|discriminate].
  destruct category as [cat|]; [|discriminate].
  destruct (nth_error _ _) as [[text|tag]|]; try discriminate.
  intros [= <-]. now apply menuConsistent_closed.
Qed.

Lemma menuConsistent_handleSelect (props : Props) (item : option Item)
      (st : EditorState) :
  menuConsistent props st ->
  showMenu st = true ->
  (forall c, item = Some (CategoryItem c) -> activeCategory st = None ->
             In c (categories props) /\ Category.tokens c <> []) ->
  menuConsistent props (orSame st (handleSelect item st)).
Proof.
  intros H Hm Hitem. unfold handleSelect.
  destruct (activeCategory st) as [c0|] eqn:Hc.
  - destruct (insertToken item (Some c0) st) as [st'|] eqn:E; [|exact H].
    eapply menuConsistent_insertToken; eauto.
  - destruct item as [[c|t]|]; cbn [orSame].
    + destruct (Hitem c eq_refl eq_refl) as [Hin Htok].
      destruct H as [H1 _]. split.
      * cbn. intros _. now apply H1.
      * cbn. intros c' [= <-]. now repeat split.
    + destruct (insertToken _ None st) as [st'|] eqn:E; [|exact H].
      eapply menuConsistent_insertToken; eauto.
    + exact H.
Qed.

Lemma menuConsistent_removeChildAt (props : Props) (j : nat)
      (st : EditorState) :
  menuConsistent props st -> menuConsistent props (removeChildAt j st).
Proof.
  apply menuConsistent_ext; try reflexivity.
  unfold removeChildAt. cbn [slashPosition setSlashPosition].
  destruct (slashPosition st) as [[i o]|]; [|tauto].
  intros _. now case_cond.
Qed.

Lemma menuConsistent_handleKeyDown `{casing : Js.CaseMapping} (lc : string -> string -> Z)
      (ih : list Node -> string) (props : Props) (e : KeyEvent)
      (st : EditorState) :
  menuConsistent props st ->
  menuConsistent props (after (handleKeyDown lc ih props e st)).
Proof.
  intros H. unfold handleKeyDown.
  destruct (if ((key e =? "Backspace")%string && negb (showMenu st))%bool
            then tagBeforeCaret st else None) as [j|].
  { now apply menuConsistent_removeChildAt. }
  destruct (showMenu st) eqn:Hm; cbn [negb].
  2:{ case_cond; [|exact H]. unfold handleSubmit.
      case_cond; [|exact H].
      apply (menuConsistent_ext props st); auto. }
  case_cond. { apply (menuConsistent_ext props st); auto. }
  case_cond. { apply (menuConsistent_ext props st); auto. }
  case_cond.
  { destruct (activeCategory st) as [c0|] eqn:Hc; rewrite after_ofSelect;
      apply menuConsistent_handleSelect; auto.
    - intros c _ Hn. congruence.
    - intros c Hat _. apply (top_level_item props st c Hc).
      now apply at_In in Hat. }
  case_cond.
  { destruct (activeCategory st) as [c0|] eqn:Hc.
    - destruct H as [H1 _]. split; [cbn; intros _; now apply H1|].
      cbn. discriminate.
    - now apply menuConsistent_closed. }
  case_cond; [|exact H].
  destruct H as [H1 _]. split; [cbn; rewrite Hm; intros _; now apply H1|].
  cbn. discriminate.
Qed.

Lemma menuConsistent_dispatch `{casing : Js.CaseMapping} (lc : string -> string -> Z)
      (ih : list Node -> string) (props : Props) (st : EditorState)
      (ev : Event) :
  menuConsistent props st ->
  menuConsistent props (dispatch lc ih props st ev).
Proof.
  intros H. unfold dispatch.
  assert (Hh : menuConsistent props (handle lc ih props ev st)).
  { destruct ev as [ch sel | sel | e | i | i | | | ]; cbn [handle].
    - apply menuConsistent_handleInput.
      apply (menuConsistent_ext props st); auto.
    - apply (menuConsistent_ext props st); auto.
    - now apply menuConsistent_handleKeyDown.
    - destruct (showMenu st) eqn:Hm; [|exact H].
      destruct (nth_error _ i) as [item|] eqn:En; [|exact H].
      apply menuConsistent_handleSelect; auto.
      intros c [= ->] Hc. apply (top_level_item props st c Hc).
      apply nth_error_In in En. unfold visibleItems in En.
      now rewrite Hc in En.
    - case_cond; [|exact H]. apply (menuConsistent_ext props st); auto.
    - destruct (showMenu st) eqn:Hm; [|exact H].
      destruct (activeCategory st) eqn:Hc; [|exact H].
      destruct H as [H1 _]. split; [cbn; rewrite Hm; intros _; now apply H1|].
      cbn. discriminate.
    - unfold handleSubmit. case_cond; [|exact H].
      apply (menuConsistent_ext props st); auto.
    - apply (menuConsistent_ext props st); auto. }
  unfold commit. case_cond; [|exact Hh].
  apply (menuConsistent_ext props (handle lc ih props ev st)); auto.
Qed.

(** X24.  Over one catalog snapshot, after every sequence of events from
    the initial state: an open menu always has a recorded trigger
    position, and an active category is always one of the three the
    component declares, has at least one token, and has its menu open. *)
Theorem menu_state_stays_consistent `{casing : Js.CaseMapping} :
  forall (lc : string -> string -> Z) (ih : list Node -> string)
         (props : Props) (evs : list Event),
    menuConsistent props (run lc ih props evs initialState)
    /\ (forall st, menuConsistent props st ->
                   menuConsistent props (run lc ih props evs st))
    /\ (forall c,
           activeCategory (run lc ih props evs initialState) = Some c ->
           knownCategory c).
Proof.
  intros lc ih props evs.
  assert (Hrun : forall st, menuConsistent props st ->
                            menuConsistent props (run lc ih props evs st)).
  { induction evs as [|ev evs IH]; intros st H; [exact H|].
    cbn [run fold_left]. apply IH. now apply menuConsistent_dispatch. }
  assert (H0 : menuConsistent props (run lc ih props evs initialState)).
  { apply Hrun. now apply menuConsistent_closed. }
  split; [exact H0|]. split; [exact Hrun|].
  intros c Hc. destruct H0 as [_ H2]. destruct (H2 c Hc) as (_ & Hin & _).
  unfold knownCategory.
  destruct Hin as [<- | [<- | [<- | []]]]; cbn; auto.
Qed.

Lemma menu_state_stays_consistent_witness :
  menuConsistent sampleProps
    (run sampleCompare sampleInnerHTML sampleProps
         [KeyDown arrowDown; KeyDown escape] sampleTriggered)
  /\ knownCategory colourCategory.
Proof.
  split.
  - apply (proj1 (proj2 (menu_state_stays_consistent
                           sampleCompare sampleInnerHTML sampleProps
                           [KeyDown arrowDown; KeyDown escape]))).
    split.
    + discriminate.
    + intros c [= <-]. split; [reflexivity|].
      split; [left; reflexivity | discriminate].
  - apply (proj2 (proj2 (menu_state_stays_consistent
                           sampleCompare sampleInnerHTML sampleProps
                           [SelectionChange
                              (Some (mkRange EditorElement 0 true));
                            Input [TextNode "/"]
                                  (Some (mkRange (ChildNode 0) 1 true));
                            KeyDown enter]))).
    reflexivity.
Defined.

(** ** More on navigation *)

Lemma dispatch_arrowDown `{casing : Js.CaseMapping} (lc : string -> string -> Z)
      (ih : list Node -> string) (props : Props) (st : EditorState) :
  showMenu st = true ->
  dispatch lc ih props st (KeyDown arrowDown)
  = setSelectedIndex
      (if (selectedIndex st
           <? Z.of_nat (List.length (visibleItems lc props st)) - 1)%Z
       then (selectedIndex st + 1)%Z else 0%Z) st.
Proof.
  intros Hm. rewrite length_visibleItems.
  unfold dispatch, handle, handleKeyDown. cbn [key arrowDown].
  change ("ArrowDown" =? "Backspace")%string with false.
  change ("ArrowDown" =? "ArrowDown")%string with true.
  rewrite Hm. cbn [andb negb after consumed]. now apply commit_same.
Qed.

Lemma dispatch_arrowUp `{casing : Js.CaseMapping} (lc : string -> string -> Z)
      (ih : list Node -> string) (props : Props) (st : EditorState) :
  showMenu st = true ->
  dispatch lc ih props st (KeyDown arrowUp)
  = setSelectedIndex
      (if (0 <? selectedIndex st)%Z then (selectedIndex st - 1)%Z
       else (Z.of_nat (List.length (visibleItems lc props st)) - 1)%Z) st.
Proof.
  intros Hm. rewrite length_visibleItems.
  unfold dispatch, handle, handleKeyDown. cbn [key arrowUp].
  change ("ArrowUp" =? "Backspace")%string with false.
  change ("ArrowUp" =? "ArrowDown")%string with false.
  change ("ArrowUp" =? "ArrowUp")%string with true.
  rewrite Hm. cbn [andb negb after consumed]. now apply commit_same.
Qed.

Lemma setSelectedIndex_same (st : EditorState) :
  setSelectedIndex (selectedIndex st) st = st.
Proof. now destruct st. Qed.

Lemma setSelectedIndex_twice (a b : Z) (st : EditorState) :
  setSelectedIndex a (setSelectedIndex b st) = setSelectedIndex a st.
Proof. reflexivity. Qed.

(** X25.  With the menu open and the selection index in range, ArrowDown
    and ArrowUp undo each other: either one followed by the other gives
    back the state it started from. *)
Theorem arrows_undo_each_other `{casing : Js.CaseMapping} :
  forall (lc : string -> string -> Z) (ih : list Node -> string)
         (props : Props) (st : EditorState),
    showMenu st = true ->
    (0 <= selectedIndex st
     < Z.of_nat (List.length (visibleItems lc props st)))%Z ->
    run lc ih props [KeyDown arrowDown; KeyDown arrowUp] st = st
    /\ run lc ih props [KeyDown arrowUp; KeyDown arrowDown] st = st.
Proof.
  intros lc ih props st Hm Hsel. cbn [run fold_left].
  set (n := Z.of_nat (List.length (visibleItems lc props st))) in *.
  assert (Hd : forall d,
             dispatch lc ih props (setSelectedIndex d st) (KeyDown arrowDown)
             = setSelectedIndex (if (d <? n - 1)%Z then (d + 1)%Z else 0%Z)
                                st).
  { intros d. rewrite dispatch_arrowDown by exact Hm.
    rewrite (visibleItems_ext lc props (setSelectedIndex d st) st)
      by reflexivity.
    reflexivity. }
  assert (Hu : forall d,
             dispatch lc ih props (setSelectedIndex d st) (KeyDown arrowUp)
             = setSelectedIndex (if (0 <? d)%Z then (d - 1)%Z else (n - 1)%Z)
                                st).
  { intros d. rewrite dispatch_arrowUp by exact Hm.
    rewrite (visibleItems_ext lc props (setSelectedIndex d st) st)
      by reflexivity.
    reflexivity. }
  pose proof (Hd (selectedIndex st)) as Hd0.
  pose proof (Hu (selectedIndex st)) as Hu0.
  rewrite setSelectedIndex_same in Hd0, Hu0.
  split.
  - rewrite Hd0, Hu.
    transitivity (setSelectedIndex (selectedIndex st) st);
      [f_equal | apply setSelectedIndex_same].
    destruct (Z.ltb_spec (selectedIndex st) (n - 1)).
    + destruct (Z.ltb_spec 0 (selectedIndex st + 1)); lia.
    + destruct (Z.ltb_spec 0 0); lia.
  - rewrite Hu0, Hd.
    transitivity (setSelectedIndex (selectedIndex st) st);
      [f_equal | apply setSelectedIndex_same].
    destruct (Z.ltb_spec 0 (selectedIndex st)).
    + destruct (Z.ltb_spec (selectedIndex st - 1) (n - 1)); lia.
    + destruct (Z.ltb_spec (n - 1) (n - 1)); lia.
Qed.

Lemma arrows_undo_each_other_witness :
  let st := setSelectedIndex 2 (setFilter "" sampleTriggered) in
  run sampleCompare sampleInnerHTML sampleProps
      [KeyDown arrowDown; KeyDown arrowUp] st = st.
Proof.
  intros st.
  apply (proj1 (arrows_undo_each_other sampleCompare sampleInnerHTML
                  sampleProps st eq_refl
                  (conj (ltac:(discriminate) : (0 <= 2)%Z)
                        (eq_refl : (2 < 3)%Z)))).
Defined.

(** X26.  With the menu open on an empty list and the selection index
    at 0, where every change of filter or category puts it, or at -1,
    ArrowUp sets the index to -1 and ArrowDown sets it to 0: the index
    leaves the range of the list, which has no row.  Enter is then left
    to the browser. *)
Theorem arrows_on_an_empty_list `{casing : Js.CaseMapping} :
  forall (lc : string -> string -> Z) (ih : list Node -> string)
         (props : Props) (st : EditorState),
    showMenu st = true ->
    visibleItems lc props st = [] ->
    (-1 <= selectedIndex st <= 0)%Z ->
    dispatch lc ih props st (KeyDown arrowUp) = setSelectedIndex (-1) st
    /\ dispatch lc ih props st (KeyDown arrowDown) = setSelectedIndex 0 st
    /\ handleKeyDown lc ih props enter
                     (dispatch lc ih props st (KeyDown arrowUp))
       = passThrough (setSelectedIndex (-1) st).
Proof.
  intros lc ih props st Hm Hv Hsel.
  assert (Hup : dispatch lc ih props st (KeyDown arrowUp)
                = setSelectedIndex (-1) st).
  { rewrite dispatch_arrowUp by exact Hm. rewrite Hv. cbn [List.length].
    destruct (Z.ltb_spec 0 (selectedIndex st)) as [Hpos | Hneg];
      [lia | reflexivity]. }
  split; [exact Hup|]. split.
  - rewrite dispatch_arrowDown by exact Hm. rewrite Hv. cbn [List.length].
    change (Z.of_nat 0) with 0%Z.
    destruct (Z.ltb_spec (selectedIndex st) (0 - 1)); [lia | reflexivity].
  - rewrite Hup. unfold handleKeyDown.
    cbn [key enter].
    change (showMenu (setSelectedIndex (-1) st)) with (showMenu st).
    change ("Enter" =? "Backspace")%string with false.
    change ("Enter" =? "ArrowDown")%string with false.
    change ("Enter" =? "ArrowUp")%string with false.
    change ("Enter" =? "Escape")%string with false.
    rewrite Hm. cbn [andb negb].
    rewrite <- (length_visibleItems lc props (setSelectedIndex (-1) st)).
    rewrite (visibleItems_ext lc props (setSelectedIndex (-1) st) st)
      by reflexivity.
    rewrite Hv. reflexivity.
Qed.

Lemma arrows_on_an_empty_list_witness :
  dispatch sampleCompare sampleInnerHTML sampleProps
           (setFilter "zzz" sampleTriggered) (KeyDown arrowUp)
  = setSelectedIndex (-1) (setFilter "zzz" sampleTriggered).
Proof.
  apply (proj1 (arrows_on_an_empty_list (casing := sampleCaseMapping)
                  sampleCompare sampleInnerHTML
                  sampleProps (setFilter "zzz" sampleTriggered)
                  eq_refl eq_refl
                  (conj (ltac:(discriminate) : (-1 <= 0)%Z)
                        (ltac:(discriminate) : (0 <= 0)%Z)))).
Defined.

(** ** Going back and group headings *)

(** X27.  Inside a category the back button and Escape lead to the same
    state, the top-level list with an empty filter, the selection index
    at 0, the menu open and the document untouched; Backspace on an empty
    filter leads there too. *)
Theorem three_ways_back_agree `{casing : Js.CaseMapping} :
  forall (lc : string -> string -> Z) (ih : list Node -> string)
         (props : Props) (st : EditorState) (c : Category.t),
    showMenu st = true ->
    activeCategory st = Some c ->
    let top := mkState true None "" 0 (slashPosition st) (childNodes st)
                       (selection st) in
    dispatch lc ih props st ClickBack = top
    /\ dispatch lc ih props st (KeyDown escape) = top
    /\ (filter st = "" ->
        dispatch lc ih props st (KeyDown backspace) = top).
Proof.
  intros lc ih props st c Hm Hc top.
  assert (Hchanged : forall st', activeCategory st' = None ->
                                 depsChanged st st' = true).
  { intros st' H. unfold depsChanged. rewrite Hc, H. cbn.
    apply orb_true_r. }
  split; [|split].
  - unfold dispatch. cbn [handle]. rewrite Hm, Hc.
    unfold commit. rewrite Hchanged by reflexivity.
    subst top. cbv [setSelectedIndex setFilter setActiveCategory]. cbn.
    now rewrite Hm.
  - unfold dispatch. cbn [handle]. unfold handleKeyDown. cbn [key escape].
    change ("Escape" =? "Backspace")%string with false.
    change ("Escape" =? "ArrowDown")%string with false.
    change ("Escape" =? "ArrowUp")%string with false.
    change ("Escape" =? "Enter")%string with false.
    change ("Escape" =? "Escape")%string with true.
    rewrite Hm, Hc. cbn [andb negb after consumed].
    unfold commit. rewrite Hchanged by reflexivity.
    subst top. cbv [setSelectedIndex setFilter setActiveCategory]. cbn.
    now rewrite Hm.
  - intros Hf. unfold dispatch. cbn [handle]. unfold handleKeyDown.
    cbn [key backspace].
    change ("Backspace" =? "Backspace")%string with true.
    change ("Backspace" =? "ArrowDown")%string with false.
    change ("Backspace" =? "ArrowUp")%string with false.
    change ("Backspace" =? "Enter")%string with false.
    change ("Backspace" =? "Escape")%string with false.
    rewrite Hm, Hc, Hf. cbn [andb negb after consumed String.eqb].
    unfold commit. rewrite Hchanged by reflexivity.
    subst top. cbv [setSelectedIndex setFilter setActiveCategory]. cbn.
    now rewrite Hm, Hf.
Qed.

Lemma three_ways_back_agree_witness :
  dispatch sampleCompare sampleInnerHTML sampleProps sampleTriggered ClickBack
  = dispatch sampleCompare sampleInnerHTML sampleProps sampleTriggered
             (KeyDown escape).
Proof.
  destruct (three_ways_back_agree sampleCompare sampleInnerHTML sampleProps
              sampleTriggered colourCategory eq_refl eq_refl)
    as (H1 & H2 & _).
  now rewrite H1, H2.
Defined.

Lemma groupTitles_app (a b : list Element) :
  groupTitles (a ++ b) = groupTitles a ++ groupTitles b.
Proof.
  induction a as [|e a IH]; [reflexivity|].
  destruct e; simpl; now rewrite IH.
Qed.

Lemma renderTokens_titles (cat : Category.t) (sel : Z)
      (tokens : list Token.t) (acc : RenderAcc) :
  groupTitles (fst (renderTokens cat sel tokens acc)) = groupTitles (fst acc).
Proof.
  unfold renderTokens. revert acc.
  induction tokens as [|t tokens IH]; intros acc; [reflexivity|].
  cbn [fold_left]. rewrite IH. cbn [fst]. rewrite groupTitles_app.
  unfold renderTokenItem.
  repeat case_cond; cbn [groupTitles]; apply app_nil_r.
Qed.

Lemma renderSubgroups_titles (cat : Category.t) (sel : Z) (g : string)
      (sgs : list Subgroup) (acc : RenderAcc) :
  groupTitles (fst (fold_left (renderSubgroup cat sel g) sgs acc))
  = groupTitles (fst acc).
Proof.
  revert acc. induction sgs as [|sg sgs IH]; intros acc; [reflexivity|].
  cbn [fold_left]. rewrite IH. unfold renderSubgroup.
  rewrite renderTokens_titles.
  destruct (Js.truthy (subgroup sg)); [|reflexivity].
  cbn [fst]. rewrite groupTitles_app. cbn [groupTitles]. apply app_nil_r.
Qed.

Lemma renderGroups_titles (cat : Category.t) (sel : Z)
      (tree : list GroupEntry) (acc : RenderAcc) :
  groupTitles (fst (fold_left (renderGroup cat sel) tree acc))
  = groupTitles (fst acc)
      ++ flat_map (fun e => match e with
                            | Grouped g _ => [g]
                            | Ungrouped _ => []
                            end) tree.
Proof.
  revert acc. induction tree as [|e tree IH]; intros acc.
  - symmetry. apply app_nil_r.
  - cbn [fold_left flat_map]. rewrite IH. destruct e as [g sgs | toks].
    + cbn [renderGroup]. rewrite renderSubgroups_titles. cbn [fst].
      rewrite groupTitles_app. cbn [groupTitles].
      now rewrite <- app_assoc.
    + cbn [renderGroup]. now rewrite renderTokens_titles.
Qed.

(** X28.  The group headings of the rendered token list, for every
    category, selection index, collation and token list whose grouping
    does not raise: they come in
    strictly ascending code-unit order, so no heading is shown twice, and
    a name is a heading exactly when it is the first path segment of a
    token whose name has a separator. *)
Theorem group_headings_are_sorted :
  forall (lc : string -> string -> Z) (cat : Category.t) (sel : Z)
         (tokenList : list Token.t),
    groupTokensRaises tokenList = false ->
    let titles :=
      groupTitles (renderGroupedTokens cat sel (groupTokens lc tokenList)) in
    Sorted (fun a b => String.compare a b = Lt) titles
    /\ forall g, In g titles
                 <-> exists t sg, In t tokenList /\ slot t = Some (g, sg).
Proof.
  intros lc cat sel l _ titles.
  destruct (groupTokens_entries lc l) as (gm & [HK HS] & [HF1 HF2] & E & HB).
  assert (Ht : titles = Js.sort Js.defaultCompare (Js.keys gm)).
  { subst titles. unfold renderGroupedTokens.
    rewrite renderGroups_titles, E. cbn [fst groupTitles app].
    rewrite flat_map_app.
    replace (flat_map _ (if 0 <? _ then _ else _)) with (@nil string)
      by (destruct (0 <? _); reflexivity).
    rewrite app_nil_r. clear E.
    induction (Js.sort Js.defaultCompare (Js.keys gm)) as [|k ks IH];
      [reflexivity|].
    cbn [map flat_map app]. now rewrite IH. }
  rewrite Ht. clear Ht titles.
  assert (Hperm : Permutation (Js.sort Js.defaultCompare (Js.keys gm))
                              (map fst gm)).
  { rewrite sort_perm. apply keys_perm. }
  split.
  - apply sorted_strict.
    + apply Permutation_NoDup with (l := map fst gm);
        [now apply Permutation_sym | exact HK].
    + apply sort_sorted. exact defaultCompare_consistent.
  - intros g. split.
    + intros Hin. apply (Permutation_in g Hperm) in Hin.
      pose proof (HF1 g Hin) as Hne.
      destruct (groupOf gm g) as [|[k b] rest] eqn:Eg; [contradiction|].
      assert (Hk : In k (map fst (groupOf gm g)))
        by (rewrite Eg; now left).
      pose proof (HF2 g k Hk) as Hb. rewrite HB in Hb.
      destruct (List.filter (inSlot g k) l) as [|t ts] eqn:Ef;
        [contradiction|].
      assert (Hin' : In t (List.filter (inSlot g k) l))
        by (rewrite Ef; now left).
      apply filter_In in Hin'. destruct Hin' as [Hl Hs].
      exists t, k. split; [exact Hl|].
      unfold inSlot in Hs. destruct (slot t) as [[g' k']|]; [|discriminate].
      apply andb_true_iff in Hs. destruct Hs as [H1 H2].
      apply String.eqb_eq in H1, H2. now subst.
    + intros (t & sg & Hl & Hs).
      assert (Hin : In t (bucket gm g sg)).
      { rewrite HB. apply filter_In. split; [exact Hl|].
        unfold inSlot. rewrite Hs. now rewrite !String.eqb_refl. }
      apply bucket_nonempty_keys in Hin. destruct Hin as [Hg _].
      apply Permutation_sym in Hperm.
      exact (Permutation_in g Hperm Hg).
Qed.

Lemma group_headings_are_sorted_witness :
  In "Text"
     (groupTitles (renderGroupedTokens colourCategory 0
                     (groupTokens sampleCompare sampleColours))).
Proof.
  apply (proj2 (group_headings_are_sorted sampleCompare colourCategory 0
                  sampleColours eq_refl)).
  exists (tk "Text/Primary"), noneKey. split.
  - vm_compute. auto.
  - reflexivity.
Defined.

Lemma ungrouped_iff_no_separator_witness :
  isUngrouped (tk "Primary Blue") = true.
Proof.
  apply (proj2 (proj2 (ungrouped_iff_no_separator (tk "Primary Blue")))).
  reflexivity.
Defined.

(** ** The error path of the normalizer *)

Lemma inherited_iff (k : string) :
  Js.inherited k = true <-> In k Js.objectPrototype.
Proof.
  unfold Js.inherited. rewrite existsb_exists. split.
  - intros (x & Hx & E). apply String.eqb_eq in E. now subst.
  - intros H. exists k. split; [exact H | apply String.eqb_refl].
Qed.

Lemma plain_keys (gm : GroupMap) (g sg : string) :
  filledMap gm -> plainMap gm ->
  (In g (map fst gm) -> Js.inherited g = false)
  /\ (In sg (map fst (groupOf gm g)) -> Js.inherited sg = false).
Proof.
  intros [HF1 HF2] HP.
  assert (Hkey : forall k, In k (map fst (groupOf gm g)) ->
                           Js.inherited g = false /\ Js.inherited k = false).
  { intros k Hk. pose proof (HF2 g k Hk) as Hne.
    destruct (bucket gm g k) as [|t ts] eqn:Eb; [contradiction|].
    destruct (HP g k t) as [Hs Hh]; [rewrite Eb; now left|].
    unfold hitsPrototype in Hh. rewrite Hs in Hh.
    now apply orb_false_iff in Hh. }
  split.
  - intros Hg. pose proof (HF1 g Hg) as Hne.
    destruct (groupOf gm g) as [|[k b] rest] eqn:Eg; [contradiction|].
    apply (Hkey k). now left.
  - intros Hk. now apply Hkey.
Qed.

Lemma pushRaises_plain (gm : GroupMap) (g sg : string) :
  filledMap gm -> plainMap gm ->
  pushRaises gm g sg = Js.inherited g || Js.inherited sg.
Proof.
  intros HF HP. destruct (plain_keys gm g sg HF HP) as [Hg Hsg].
  unfold pushRaises, Js.lookup.
  destruct (Js.getProp gm g) as [subs|] eqn:Eg.
  - assert (Hin : In g (map fst gm)).
    { apply in_map_iff. exists (g, subs). split; [reflexivity|].
      now apply getProp_Some_in. }
    rewrite (Hg Hin). cbn [orb].
    assert (Egrp : groupOf gm g = subs) by (unfold groupOf; now rewrite Eg).
    rewrite Egrp in Hsg.
    destruct (Js.getProp subs sg) as [b|] eqn:Es.
    + symmetry. apply Hsg. apply in_map_iff. exists (sg, b).
      split; [reflexivity | now apply getProp_Some_in].
    + now destruct (Js.inherited sg).
  - destruct (Js.inherited g); [reflexivity|]. cbn [orb Js.getProp].
    now destruct (Js.inherited sg).
Qed.

Lemma inherited_noneKey : Js.inherited noneKey = false.
Proof. reflexivity. Qed.

Lemma stepRaises_plain (gm : GroupMap) (ung : list Token.t) (t : Token.t) :
  filledMap gm -> plainMap gm ->
  stepRaises (gm, ung) t = hitsPrototype t.
Proof.
  intros HF HP. unfold stepRaises, hitsPrototype, slot. cbn [fst].
  destruct (groups (parseTokenName t)) as [|g [|sg rest]];
    [reflexivity | |]; now apply pushRaises_plain.
Qed.

Lemma groupStep_plain (gm : GroupMap) (ung : list Token.t) (t : Token.t) :
  filledMap gm -> plainMap gm -> hitsPrototype t = false ->
  filledMap (fst (groupStep (gm, ung) t))
  /\ plainMap (fst (groupStep (gm, ung) t)).
Proof.
  intros HF HP Ht. rewrite groupStep_slot.
  destruct (slot t) as [[g sg]|] eqn:Es; cbn [fst]; [|now split].
  split; [now apply pushToken_filledMap|].
  intros g' sg' t'. rewrite pushToken_bucket.
  destruct (String.eqb_spec g' g) as [->|Hg]; cbn [andb]; [|apply HP].
  destruct (String.eqb_spec sg' sg) as [->|Hsg]; [|apply HP].
  intros Hin. apply in_app_or in Hin. destruct Hin as [Hin | [<- | []]].
  - now apply HP.
  - now split.
Qed.

Lemma forEachRaises_plain (l : list Token.t) (gm : GroupMap)
      (ung : list Token.t) :
  filledMap gm -> plainMap gm ->
  forEachRaises (gm, ung) l = existsb hitsPrototype l.
Proof.
  revert gm ung. induction l as [|t l IH]; intros gm ung HF HP;
    [reflexivity|].
  cbn [forEachRaises existsb]. rewrite stepRaises_plain by assumption.
  destruct (hitsPrototype t) eqn:Ht; [reflexivity|]. cbn [orb].
  destruct (groupStep_plain gm ung t HF HP Ht) as [HF' HP'].
  destruct (groupStep (gm, ung) t) as [gm' ung']. now apply IH.
Qed.

(** X29.  [groupTokens] raises a [TypeError] exactly when one of the
    tokens has, as its first group segment or as its second, the name of
    a property of [Object.prototype]; the tokens before it and after it
    make no difference.  In particular a list of names without separator
    never raises. *)
Theorem groupTokens_raises_on_inherited_names :
  forall tokenList : list Token.t,
    (groupTokensRaises tokenList = true
     <-> exists t g sg,
           In t tokenList /\ slot t = Some (g, sg)
           /\ (In g Js.objectPrototype \/ In sg Js.objectPrototype))
    /\ (Forall (fun t => groups (parseTokenName t) = []) tokenList ->
        groupTokensRaises tokenList = false).
Proof.
  intros l.
  assert (E : groupTokensRaises l = existsb hitsPrototype l).
  { apply forEachRaises_plain.
    - split; [intros g [] | intros g k []].
    - intros g sg t []. }
  split.
  - rewrite E, existsb_exists. split.
    + intros (t & Hin & Ht). unfold hitsPrototype in Ht.
      destruct (slot t) as [[g sg]|] eqn:Es; [|discriminate].
      exists t, g, sg. split; [exact Hin|]. split; [exact Es|].
      apply orb_true_iff in Ht. now rewrite <- !inherited_iff.
    + intros (t & g & sg & Hin & Hs & Hk). exists t. split; [exact Hin|].
      unfold hitsPrototype. rewrite Hs. apply orb_true_iff.
      now rewrite !inherited_iff.
  - intros Hall. rewrite E.
    destruct (existsb hitsPrototype l) eqn:Ex; [|reflexivity].
    apply existsb_exists in Ex. destruct Ex as (t & Hin & Ht).
    rewrite Forall_forall in Hall. specialize (Hall t Hin).
    unfold hitsPrototype, slot in Ht. rewrite Hall in Ht. discriminate.
Qed.

Lemma groupTokens_raises_on_inherited_names_witness :
  groupTokensRaises [tk "Text/Primary"; tk "constructor/x"] = true
  /\ groupTokensRaises [tk "Primary Blue"; tk "toString"] = false.
Proof.
  destruct (groupTokens_raises_on_inherited_names
              [tk "Text/Primary"; tk "constructor/x"]) as [Hiff _].
  destruct (groupTokens_raises_on_inherited_names
              [tk "Primary Blue"; tk "toString"]) as [_ Hnone].
  split.
  - apply Hiff. exists (tk "constructor/x"), "constructor", noneKey.
    split; [right; now left|]. split; [reflexivity|].
    left. now left.
  - apply Hnone. repeat constructor.
Defined.
